(** * petite-vue-transition: the [v-transition] directive

    A shallow embedding of [src/index.ts].  The directive drives CSS
    enter/leave classes on a DOM element from a boolean visibility
    signal.  The embedding keeps the shape of the source:

    - JavaScript values are a small inductive type; numbers are IEEE 754
      binary64 values (Rocq's primitive floats), strings are sequences of
      code units in the range 0..255;
    - the DOM, the timer queue, the animation-frame queue and the
      closures created by [whenTransitionEnd] live in an explicit
      [World], threaded through a state monad;
    - every call to the host (class list, inline style, layout read,
      computed style, timers, frames, listeners) is also appended to a
      log, so that the order of operations can be stated.

    Time is not part of the model: the host may let any pending timer
    come due and may deliver a [transitionend] event at any moment, so
    what is proved for every run holds for the runs a browser
    produces. *)

From Stdlib Require Import ZArith List String Ascii Bool Lia Floats.
Import ListNotations.

Local Open Scope string_scope.
Local Open Scope list_scope.

(** ** JavaScript strings *)

Module JsString.

Definition code (c : ascii) : N := N_of_ascii c.

(** The characters matched by [\s] (and trimmed by [Number]) among the
    code units 0..255: TAB, LF, VT, FF, CR, SPACE and NBSP. *)
Definition is_space (c : ascii) : bool :=
  let n := code c in
  ((9 <=? n) && (n <=? 13) || (n =? 32) || (n =? 160))%N.

(** [s.slice(0, -1)]: everything but the last code unit. *)
Fixpoint slice_0_m1 (s : string) : string :=
  match s with
  | EmptyString => EmptyString
  | String _ EmptyString => EmptyString
  | String c r => String c (slice_0_m1 r)
  end.

(** [s.replace(',', '.')]: only the first comma is replaced. *)
Fixpoint replace_comma (s : string) : string :=
  match s with
  | EmptyString => EmptyString
  | String c r =>
      if Ascii.eqb c "," then String "." r else String c (replace_comma r)
  end.

(** [s.split(', ')]. The result is never empty. *)
Fixpoint split_comma_space_from (cur : string) (s : string) : list string :=
  match s with
  | EmptyString => [cur]
  | String c r =>
      match r with
      | String c' r' =>
          if Ascii.eqb c "," && Ascii.eqb c' " "
          then cur :: split_comma_space_from EmptyString r'
          else split_comma_space_from (cur ++ String c EmptyString)%string r
      | EmptyString => [(cur ++ String c EmptyString)%string]
      end
  end.

Definition split_comma_space (s : string) : list string :=
  split_comma_space_from EmptyString s.

(** [s.split(/\s+/)]: pieces between maximal runs of white space; a
    leading or trailing run yields an empty piece. *)
Fixpoint split_spaces_from (cur : string) (in_run : bool) (s : string)
  : list string :=
  match s with
  | EmptyString => [cur]
  | String c r =>
      if is_space c then
        if in_run then split_spaces_from cur true r
        else cur :: split_spaces_from EmptyString true r
      else split_spaces_from (cur ++ String c EmptyString)%string false r
  end.

Definition split_spaces (s : string) : list string :=
  split_spaces_from EmptyString false s.

Definition is_empty (s : string) : bool :=
  match s with EmptyString => true | _ => false end.

Fixpoint drop_spaces (s : string) : string :=
  match s with
  | String c r => if is_space c then drop_spaces r else s
  | EmptyString => EmptyString
  end.

Fixpoint rev_from (acc s : string) : string :=
  match s with
  | EmptyString => acc
  | String c r => rev_from (String c acc) r
  end.

Definition rev (s : string) : string := rev_from EmptyString s.

Definition trim (s : string) : string :=
  rev (drop_spaces (rev (drop_spaces s))).

End JsString.

(** ** JavaScript numbers *)

Module JsNumber.

Definition is_nan (x : float) : bool := negb (PrimFloat.eqb x x).

Definition is_pos_zero (x : float) : bool :=
  match PrimFloat.classify x with PZero => true | _ => false end.

Definition is_neg_zero (x : float) : bool :=
  match PrimFloat.classify x with NZero => true | _ => false end.

(** The binary64 value nearest to [±num/den] (ties to even): the value
    [Number] gives a literal denoting that ratio, in an engine that
    rounds decimal literals of any length correctly. *)
Definition of_ratio (neg : bool) (num den : N) : float :=
  match num, den with
  | N0, _ => if neg then (-0)%float else 0%float
  | _, N0 => PrimFloat.nan
  | Npos n, Npos d =>
      SF2Prim (SFdiv prec emax (S754_finite neg n 0) (S754_finite false d 0))
  end.

(** The value of [±m * 10^e]. *)
Definition of_decimal (neg : bool) (m : N) (e : Z) : float :=
  match e with
  | Zneg p => of_ratio neg m (10 ^ Npos p)
  | _ => of_ratio neg (m * 10 ^ Z.to_N e) 1
  end.

Definition digit_of (base : N) (c : ascii) : option N :=
  let n := JsString.code c in
  let v := if ((48 <=? n) && (n <=? 57))%N then Some (n - 48)%N
           else if ((97 <=? n) && (n <=? 102))%N then Some (n - 87)%N
           else if ((65 <=? n) && (n <=? 70))%N then Some (n - 55)%N
           else None in
  match v with
  | Some d => if (d <? base)%N then Some d else None
  | None => None
  end.

(** Reads the longest prefix of digits: accumulated value, number of
    digits read, and the rest. *)
Fixpoint scan_digits (base acc : N) (count : nat) (s : string)
  : N * nat * string :=
  match s with
  | String c r =>
      match digit_of base c with
      | Some d => scan_digits base (base * acc + d)%N (S count) r
      | None => (acc, count, s)
      end
  | EmptyString => (acc, count, s)
  end.

Definition read_sign (s : string) : bool * string :=
  match s with
  | String c r =>
      if Ascii.eqb c "-" then (true, r)
      else if Ascii.eqb c "+" then (false, r)
      else (false, s)
  | EmptyString => (false, s)
  end.

(** [ExponentPart_opt] followed by the end of the string. *)
Definition read_exponent (s : string) : option Z :=
  match s with
  | EmptyString => Some 0%Z
  | String c r =>
      if Ascii.eqb c "e" || Ascii.eqb c "E" then
        let '(neg, r1) := read_sign r in
        match scan_digits 10 0 0 r1 with
        | (_, O, _) => None
        | (v, _, EmptyString) =>
            Some (if neg then (- Z.of_N v)%Z else Z.of_N v)
        | _ => None
        end
      else None
  end.

(** [StrUnsignedDecimalLiteral] other than [Infinity]. *)
Definition unsigned_decimal (neg : bool) (s : string) : float :=
  let '(ip, ni, r1) := scan_digits 10 0 0 s in
  let '(m, nf, r2) :=
    match r1 with
    | String c r =>
        if Ascii.eqb c "." then scan_digits 10 ip 0 r else (ip, O, r1)
    | EmptyString => (ip, O, r1)
    end in
  match (ni + nf)%nat with
  | O => PrimFloat.nan
  | _ =>
      match read_exponent r2 with
      | Some e => of_decimal neg m (e - Z.of_nat nf)
      | None => PrimFloat.nan
      end
  end.

Definition non_decimal (base : N) (digits : string) : float :=
  match scan_digits base 0 0 digits with
  | (_, O, _) => PrimFloat.nan
  | (v, _, EmptyString) => of_ratio false v 1
  | _ => PrimFloat.nan
  end.

(** [Number(s)] on a string: white space is trimmed, the empty string
    is [+0], anything outside the numeric grammar is [NaN]. *)
Definition of_string (s : string) : float :=
  let t := JsString.trim s in
  match t with
  | EmptyString => 0%float
  | String "0" (String c digits) =>
      if Ascii.eqb c "x" || Ascii.eqb c "X" then non_decimal 16 digits
      else if Ascii.eqb c "o" || Ascii.eqb c "O" then non_decimal 8 digits
      else if Ascii.eqb c "b" || Ascii.eqb c "B" then non_decimal 2 digits
      else unsigned_decimal false t
  | _ =>
      let '(neg, r) := read_sign t in
      if String.eqb r "Infinity"
      then (if neg then PrimFloat.neg_infinity else PrimFloat.infinity)
      else unsigned_decimal neg r
  end.

(** One step of [Math.max] on arguments none of which is [NaN]. *)
Definition max_step (highest x : float) : float :=
  if is_pos_zero x && is_neg_zero highest then x
  else if PrimFloat.ltb highest x then x
  else highest.

(** [Math.max(...l)]. *)
Definition Math_max (l : list float) : float :=
  if existsb is_nan l then PrimFloat.nan
  else fold_left max_step l PrimFloat.neg_infinity.

End JsNumber.

(** ** JavaScript values

    The values a directive expression yields: primitives and arrays. *)

#[warnings="-register-all"]
Inductive JsVal : Type :=
| JUndefined
| JNull
| JBool (b : bool)
| JNum (x : float)
| JStr (s : string)
| JArr (items : list JsVal).

(** [ToBoolean]: the test of [if (v)], [v && ...] and [v ? a : b]. *)
Definition ToBoolean (v : JsVal) : bool :=
  match v with
  | JUndefined | JNull => false
  | JBool b => b
  | JNum x =>
      negb (PrimFloat.eqb x 0%float || JsNumber.is_nan x)
  | JStr s => negb (JsString.is_empty s)
  | JArr _ => true
  end.

(** [Array.isArray(v)]. *)
Definition isArray (v : JsVal) : bool :=
  match v with JArr _ => true | _ => false end.

(** [v?.[i]]: [undefined] on [undefined] and [null], otherwise the
    property named [i] of [v]. *)
Definition opt_index (v : JsVal) (i : nat) : JsVal :=
  match v with
  | JArr items => nth i items JUndefined
  | JStr s =>
      match String.get i s with
      | Some c => JStr (String c EmptyString)
      | None => JUndefined
      end
  | _ => JUndefined
  end.

(** ** Elements, closures and the world *)

Definition Handle := nat.

(** The part of [window.getComputedStyle(el)] that is read. A field is
    [None] where the host returns [undefined]. *)
Record Styles : Type := {
  transitionDelay : option string;
  transitionDuration : option string;
  transitionProperty : option string
}.

(** An element: its class list (an ordered set of tokens), its inline
    [display] ([None] when the element has no [style] object), and the
    four fields the directive attaches ([None] when absent). *)
Record ElementWithTransition : Type := {
  classList : list string;
  style_display : option string;
  _name : option JsVal;
  _duration : option JsVal;
  _show : option JsVal;
  _endId : option Z
}.

Record CSSTransitionInfo : Type := {
  propCount : nat;
  timeout : float;
  hasTransform : bool
}.

Inductive TransitionArgument : Type := Name | Duration | Show.

Definition DefautlTransitionName : string := "v".

Definition DefaultArg : TransitionArgument := Show.

(** The [resolve] closures handed to [whenTransitionEnd]: [finishEnter]
    itself on the enter side, and
    [() => finishLeave(() => setElementDisplay(el, 'none'))] on the
    leave side, with the variables they capture. *)
Inductive Resolve : Type :=
| ResolveEnter (el : Handle) (enterActiveClass enterToClass : string)
| ResolveLeave (el : Handle) (leaveActiveClass leaveToClass : string).

(** Callbacks given to [requestAnimationFrame]: the arrow function of
    [nextFrame] that requests the second frame, and the callback of a
    phase (remove the from-class, add the to-class, wait for the end). *)
Inductive FrameCallback : Type :=
| SecondFrame (cb : FrameCallback)
| PhaseSwap (el : Handle) (fromClass toClass : string)
    (duration : JsVal) (resolve : Resolve).

(** Callbacks given to [setTimeout]: [resolveIfNotStale] with its captured
    [el], [id] and [resolve], and the fallback of the wait numbered [w]. *)
Inductive TimerCallback : Type :=
| ResolveIfNotStale (el : Handle) (id : Z) (resolve : Resolve)
| Fallback (w : nat).

Record Timer : Type := {
  timer_callback : TimerCallback;
  timer_delay : JsVal
}.

(** The variables shared by the closures [end], [onEnd] and the fallback
    of one call of [whenTransitionEnd]; [listening] tells whether [onEnd]
    is currently registered on the element. *)
Record Wait : Type := {
  wait_el : Handle;
  wait_id : Z;
  wait_resolve : Resolve;
  wait_propCount : nat;
  ended : nat;
  listening : bool
}.

(** Calls made to the host and to [resolve], in the order they happen. *)
Inductive Op : Type :=
| OpClassAdd (el : Handle) (c : string)
| OpClassRemove (el : Handle) (c : string)
| OpSetDisplay (el : Handle) (display : string)
| OpReflow
| OpRequestAnimationFrame (cb : FrameCallback)
| OpSetTimeout (cb : TimerCallback) (delay : JsVal)
| OpGetComputedStyle (el : Handle)
| OpAddEventListener (el : Handle) (w : nat)
| OpRemoveEventListener (el : Handle) (w : nat)
| OpResolve (resolve : Resolve).

Record World : Type := {
  els : Handle -> ElementWithTransition;
  endId : Z;
  frames : list FrameCallback;
  timers : list Timer;
  waits : list Wait;
  log : list Op
}.

(** The closure variables of one binding of the directive to [show]. *)
Record Controller : Type := {
  ctl_el : Handle;
  mounted : bool;
  originalDisplay : string
}.

(** ** The monad of the embedding

    A computation reads and writes the world; [None] stands for a
    computation that does not return. *)

Definition M (A : Type) : Type := World -> option (A * World).

Definition ret {A} (a : A) : M A := fun w => Some (a, w).

Definition bind {A B} (m : M A) (k : A -> M B) : M B :=
  fun w => match m w with
           | Some (a, w') => k a w'
           | None => None
           end.

Definition diverge {A} : M A := fun _ => None.

Declare Scope m_scope.
Delimit Scope m_scope with M.
Notation "x <- m ;; k" := (bind m (fun x => k))
  (at level 61, m at next level, right associativity) : m_scope.
Notation "m ;; k" := (bind m (fun _ => k))
  (at level 61, right associativity) : m_scope.
Local Open Scope m_scope.

Definition get : M World := fun w => Some (w, w).

Definition modify (f : World -> World) : M unit := fun w => Some (tt, f w).

Definition when (b : bool) (m : M unit) : M unit := if b then m else ret tt.

(** [l.forEach(f)]. *)
Fixpoint forEach {A} (f : A -> M unit) (l : list A) : M unit :=
  match l with
  | [] => ret tt
  | a :: r => f a ;; forEach f r
  end.

(** ** The directive *)

Section Directive.

(** [Number.prototype.toString], used when a number is interpolated in a
    template literal; its digits are left to the host. *)
Variable number_to_string : float -> string.

(** The style the page's style sheets give an element in a given state:
    what [window.getComputedStyle] answers. *)
Variable computedStyle : ElementWithTransition -> Styles.

(** [ToString], the conversion of a template literal's substitution. *)
Fixpoint ToString (v : JsVal) : string :=
  match v with
  | JUndefined => "undefined"
  | JNull => "null"
  | JBool true => "true"
  | JBool false => "false"
  | JNum x => number_to_string x
  | JStr s => s
  | JArr items =>
      (fix join (l : list JsVal) : string :=
         match l with
         | [] => EmptyString
         | x :: r =>
             let item := match x with
                         | JUndefined | JNull => EmptyString
                         | _ => ToString x
                         end in
             match r with
             | [] => item
             | _ => (item ++ "," ++ join r)%string
             end
         end) items
  end.

(** *** Record updates *)

Definition set_els (w : World) (v : Handle -> ElementWithTransition) : World :=
  {| els := v; endId := endId w; frames := frames w; timers := timers w;
     waits := waits w; log := log w |}.

Definition set_endId (w : World) (v : Z) : World :=
  {| els := els w; endId := v; frames := frames w; timers := timers w;
     waits := waits w; log := log w |}.

Definition set_frames (w : World) (v : list FrameCallback) : World :=
  {| els := els w; endId := endId w; frames := v; timers := timers w;
     waits := waits w; log := log w |}.

Definition set_timers (w : World) (v : list Timer) : World :=
  {| els := els w; endId := endId w; frames := frames w; timers := v;
     waits := waits w; log := log w |}.

Definition set_waits (w : World) (v : list Wait) : World :=
  {| els := els w; endId := endId w; frames := frames w; timers := timers w;
     waits := v; log := log w |}.

Definition set_log (w : World) (v : list Op) : World :=
  {| els := els w; endId := endId w; frames := frames w; timers := timers w;
     waits := waits w; log := v |}.

Definition set_classList (e : ElementWithTransition) (v : list string) :=
  {| classList := v; style_display := style_display e; _name := _name e;
     _duration := _duration e; _show := _show e; _endId := _endId e |}.

Definition set_style_display (e : ElementWithTransition) (v : option string) :=
  {| classList := classList e; style_display := v; _name := _name e;
     _duration := _duration e; _show := _show e; _endId := _endId e |}.

Definition set__name (e : ElementWithTransition) (v : option JsVal) :=
  {| classList := classList e; style_display := style_display e; _name := v;
     _duration := _duration e; _show := _show e; _endId := _endId e |}.

Definition set__duration (e : ElementWithTransition) (v : option JsVal) :=
  {| classList := classList e; style_display := style_display e;
     _name := _name e; _duration := v; _show := _show e; _endId := _endId e |}.

Definition set__show (e : ElementWithTransition) (v : option JsVal) :=
  {| classList := classList e; style_display := style_display e;
     _name := _name e; _duration := _duration e; _show := v;
     _endId := _endId e |}.

Definition set__endId (e : ElementWithTransition) (v : option Z) :=
  {| classList := classList e; style_display := style_display e;
     _name := _name e; _duration := _duration e; _show := _show e;
     _endId := v |}.

Definition update_at {A} (f : A -> A) (h : Handle) (m : Handle -> A)
  : Handle -> A :=
  fun k => (if Nat.eqb k h then f else fun a => a) (m k).

Fixpoint update_nth {A} (f : A -> A) (i : nat) (l : list A) : list A :=
  match l, i with
  | [], _ => []
  | a :: r, O => f a :: r
  | a :: r, S j => a :: update_nth f j r
  end.

Fixpoint remove_nth {A} (i : nat) (l : list A) : list A :=
  match l, i with
  | [], _ => []
  | _ :: r, O => r
  | a :: r, S j => a :: remove_nth j r
  end.

(** *** Calls to the host *)

Definition emit (op : Op) : M unit :=
  modify (fun w => set_log w (log w ++ [op])).

Definition update_el (el : Handle)
  (f : ElementWithTransition -> ElementWithTransition) : M unit :=
  modify (fun w => set_els w (update_at f el (els w))).

Definition read_el (el : Handle) : M ElementWithTransition :=
  w <- get ;; ret (els w el).

(** [el.classList.add(c)]: the token is appended unless present. *)
Definition classList_add (el : Handle) (c : string) : M unit :=
  emit (OpClassAdd el c) ;;
  update_el el (fun e =>
    set_classList e
      (if existsb (String.eqb c) (classList e) then classList e
       else classList e ++ [c])).

(** [el.classList.remove(c)]. *)
Definition classList_remove (el : Handle) (c : string) : M unit :=
  emit (OpClassRemove el c) ;;
  update_el el (fun e =>
    set_classList e
      (filter (fun c' => negb (String.eqb c c')) (classList e))).

Definition requestAnimationFrame (cb : FrameCallback) : M unit :=
  emit (OpRequestAnimationFrame cb) ;;
  modify (fun w => set_frames w (frames w ++ [cb])).

Definition setTimeout (cb : TimerCallback) (delay : JsVal) : M unit :=
  emit (OpSetTimeout cb delay) ;;
  modify (fun w =>
    set_timers w
      (timers w ++ [{| timer_callback := cb; timer_delay := delay |}])).

Definition getComputedStyle (el : Handle) : M Styles :=
  emit (OpGetComputedStyle el) ;;
  e <- read_el el ;;
  ret (computedStyle e).

(** The closure variables of wait [i]. Callbacks only carry indices
    handed out by [new_wait], for which the lookup succeeds. *)
Definition read_wait (i : nat) : M Wait :=
  w <- get ;;
  match nth_error (waits w) i with
  | Some wt => ret wt
  | None => diverge
  end.

Definition update_wait (i : nat) (f : Wait -> Wait) : M unit :=
  modify (fun w => set_waits w (update_nth f i (waits w))).

Definition set_listening (b : bool) (wt : Wait) : Wait :=
  {| wait_el := wait_el wt; wait_id := wait_id wt;
     wait_resolve := wait_resolve wt; wait_propCount := wait_propCount wt;
     ended := ended wt; listening := b |}.

Definition set_ended (n : nat) (wt : Wait) : Wait :=
  {| wait_el := wait_el wt; wait_id := wait_id wt;
     wait_resolve := wait_resolve wt; wait_propCount := wait_propCount wt;
     ended := n; listening := listening wt |}.

(** [el.addEventListener('transitionend', onEnd)] for the [onEnd] of
    wait [i]. *)
Definition addEventListener (el : Handle) (i : nat) : M unit :=
  emit (OpAddEventListener el i) ;;
  update_wait i (set_listening true).

(** [el.removeEventListener('transitionend', onEnd)]. *)
Definition removeEventListener (el : Handle) (i : nat) : M unit :=
  emit (OpRemoveEventListener el i) ;;
  update_wait i (set_listening false).

(** *** The functions of the module, from the bottom of the file up *)

(** The members of [TransitionArgument] by their string values. *)
Definition argument_of_key (arg : string) : option TransitionArgument :=
  if String.eqb arg "name" then Some Name
  else if String.eqb arg "duration" then Some Duration
  else if String.eqb arg "show" then Some Show
  else None.

Definition isTransitionArugument (arg : string) : bool :=
  match argument_of_key arg with Some _ => true | None => false end.

(** [el[`_${arg}`] = value]. *)
Definition store_argument (arg : TransitionArgument) (value : JsVal)
  (e : ElementWithTransition) : ElementWithTransition :=
  match arg with
  | Name => set__name e (Some value)
  | Duration => set__duration e (Some value)
  | Show => set__show e (Some value)
  end.

Definition saveArgument (el : Handle) (arg : TransitionArgument)
  (val : JsVal) : M unit :=
  let value :=
    match arg with
    | Duration => if negb (isArray val) then JArr [val; val] else val
    | _ => val
    end in
  update_el el (store_argument arg value).

Definition isHTMLElement (e : ElementWithTransition) : bool :=
  match style_display e with Some _ => true | None => false end.

Definition setElementDisplay (el : Handle) (display : string) : M unit :=
  e <- read_el el ;;
  when (isHTMLElement e)
    (emit (OpSetDisplay el display) ;;
     update_el el (fun e => set_style_display e (Some display))).

Definition getElementDisplay (el : Handle) : M string :=
  e <- read_el el ;;
  ret (match style_display e with Some d => d | None => EmptyString end).

Definition addTransitionClass (el : Handle) (cls : string) : M unit :=
  forEach (fun c => when (negb (JsString.is_empty c)) (classList_add el c))
    (JsString.split_spaces cls).

Definition removeTransitionClass (el : Handle) (cls : string) : M unit :=
  forEach (fun c => when (negb (JsString.is_empty c)) (classList_remove el c))
    (JsString.split_spaces cls).

(** [endId] is a number that starts at 0 and is only ever incremented;
    on such values [++endId] adds one up to 2^53 and then stays there. *)
Definition increment (n : Z) : Z :=
  if (n <? 2 ^ 53)%Z then (n + 1)%Z else n.

Definition same_id (a : option Z) (b : Z) : bool :=
  match a with Some x => Z.eqb x b | None => false end.

Definition finish (el : Handle) (activeClass toClass : string)
  (done : option (M unit)) : M unit :=
  removeTransitionClass el activeClass ;;
  removeTransitionClass el toClass ;;
  match done with Some f => f | None => ret tt end.

(** A call [resolve()]. *)
Definition run_resolve (resolve : Resolve) : M unit :=
  match resolve with
  | ResolveEnter el enterActiveClass enterToClass =>
      finish el enterActiveClass enterToClass None
  | ResolveLeave el leaveActiveClass leaveToClass =>
      finish el leaveActiveClass leaveToClass
        (Some (setElementDisplay el "none"))
  end.

Definition resolveIfNotStale (el : Handle) (id : Z) (resolve : Resolve)
  : M unit :=
  e <- read_el el ;;
  when (same_id (_endId e) id)
    (emit (OpResolve resolve) ;; run_resolve resolve).

(** The closure [end] of wait [i]. *)
Definition end_ (i : nat) : M unit :=
  wt <- read_wait i ;;
  removeEventListener (wait_el wt) i ;;
  resolveIfNotStale (wait_el wt) (wait_id wt) (wait_resolve wt).

(** The closure [onEnd] of wait [i], for an event whose target is
    [target]. *)
Definition onEnd (i : nat) (target : Handle) : M unit :=
  wt <- read_wait i ;;
  if Nat.eqb target (wait_el wt) then
    update_wait i (set_ended (S (ended wt))) ;;
    when (wait_propCount wt <=? S (ended wt))%nat (end_ i)
  else ret tt.

(** The arrow function given to the second [setTimeout]. *)
Definition fallback (i : nat) : M unit :=
  wt <- read_wait i ;;
  when (ended wt <? wait_propCount wt)%nat (end_ i).

Definition toMs (s : string) : float :=
  (JsNumber.of_string (JsString.replace_comma (JsString.slice_0_m1 s))
   * 1000)%float.

(** The [while] loop of [getTimeout], run for at most [fuel] rounds. *)
Fixpoint repeat_delays (fuel : nat) (delays durations : list string)
  : option (list string) :=
  if (List.length delays <? List.length durations)%nat then
    match fuel with
    | O => None
    | S fuel' => repeat_delays fuel' (delays ++ delays) durations
    end
  else Some delays.

Fixpoint map_index {A B} (f : A -> nat -> B) (i : nat) (l : list A)
  : list B :=
  match l with
  | [] => []
  | a :: r => f a i :: map_index f (S i) r
  end.

Definition getTimeout_fuel (fuel : nat) (delays durations : list string)
  : option float :=
  match repeat_delays fuel delays durations with
  | Some delays' =>
      Some (JsNumber.Math_max
              (map_index
                 (fun d i => (toMs d + toMs (nth i delays' EmptyString))%float)
                 0 durations))
  | None => None
  end.

(** [getTimeout]: as many rounds as there are durations are enough when
    the loop ends at all (see [getTimeout_fuel_enough] and
    [getTimeout_no_delays]). *)
Definition getTimeout (delays durations : list string) : option float :=
  getTimeout_fuel (List.length durations) delays durations.

Definition is_word (c : ascii) : bool :=
  let n := JsString.code c in
  ((48 <=? n) && (n <=? 57) || (65 <=? n) && (n <=? 90)
   || (97 <=? n) && (n <=? 122) || (n =? 95))%N.

Fixpoint strip_prefix (p s : string) : option string :=
  match p, s with
  | EmptyString, _ => Some s
  | String a p', String b s' =>
      if Ascii.eqb a b then strip_prefix p' s' else None
  | _, EmptyString => None
  end.

(** [(transform|all)(,|$)] matched at the start of [s]. *)
Definition transform_or_all_here (s : string) : bool :=
  let followed (r : option string) :=
    match r with
    | Some EmptyString => true
    | Some (String c _) => Ascii.eqb c ","
    | None => false
    end in
  followed (strip_prefix "transform" s) || followed (strip_prefix "all" s).

(** [/\b(transform|all)(,|$)/.test(s)]; [after_word] tells whether the
    previous character is a word character. *)
Fixpoint test_transform_or_all (after_word : bool) (s : string) : bool :=
  (negb after_word && transform_or_all_here s)
  || match s with
     | EmptyString => false
     | String c r => test_transform_or_all (is_word c) r
     end.

Definition or_empty (s : option string) : string :=
  match s with Some v => v | None => EmptyString end.

Definition lift {A} (o : option A) : M A :=
  match o with Some a => ret a | None => diverge end.

(** [getTransitionInfo] after the style has been read. *)
Definition transition_info (styles : Styles) : option CSSTransitionInfo :=
  let getStyleProperties (key : Styles -> option string) :=
    JsString.split_comma_space (or_empty (key styles)) in
  let transitionDelays := getStyleProperties transitionDelay in
  let transitionDurations := getStyleProperties transitionDuration in
  match getTimeout transitionDelays transitionDurations with
  | Some transitionTimeout =>
      let positive := PrimFloat.ltb 0%float transitionTimeout in
      let timeout := if positive then transitionTimeout else 0%float in
      let propCount :=
        if positive then List.length transitionDurations else O in
      let hasTransform :=
        test_transform_or_all false
          (match transitionProperty styles with
           | Some s => s
           | None => "undefined"
           end) in
      Some {| timeout := timeout; propCount := propCount;
              hasTransform := hasTransform |}
  | None => None
  end.

Definition getTransitionInfo (el : Handle) : M CSSTransitionInfo :=
  styles <- getComputedStyle el ;;
  lift (transition_info styles).

Definition new_wait (el : Handle) (id : Z) (resolve : Resolve)
  (propCount : nat) : M nat :=
  w <- get ;;
  modify (fun w =>
    set_waits w
      (waits w ++ [{| wait_el := el; wait_id := id; wait_resolve := resolve;
                      wait_propCount := propCount; ended := O;
                      listening := false |}])) ;;
  ret (List.length (waits w)).

Definition whenTransitionEnd (el : Handle) (explicitTimeout : JsVal)
  (resolve : Resolve) : M unit :=
  modify (fun w => set_endId w (increment (endId w))) ;;
  w <- get ;;
  let id := endId w in
  update_el el (fun e => set__endId e (Some id)) ;;
  when (ToBoolean explicitTimeout)
    (setTimeout (ResolveIfNotStale el id resolve) explicitTimeout) ;;
  info <- getTransitionInfo el ;;
  i <- new_wait el id resolve (propCount info) ;;
  setTimeout (Fallback i) (JNum (timeout info + 1)%float) ;;
  addEventListener el i.

Definition forceReflow : M unit := emit OpReflow.

Definition nextFrame (cb : FrameCallback) : M unit :=
  requestAnimationFrame (SecondFrame cb).

(** [const { _name: name = DefautlTransitionName, _duration: duration } = el]:
    the default stands in for an absent or [undefined] [_name]. *)
Definition name_of (e : ElementWithTransition) : string :=
  match _name e with
  | None | Some JUndefined => DefautlTransitionName
  | Some v => ToString v
  end.

Definition duration_of (e : ElementWithTransition) : JsVal :=
  match _duration e with Some v => v | None => JUndefined end.

(** The callback given to [effect], with the closure variables it
    shares with the directive passed in and out. *)
Definition visibility_effect (ctl : Controller) (show : JsVal)
  : M Controller :=
  let el := ctl_el ctl in
  if negb (mounted ctl) then
    setElementDisplay el
      (if ToBoolean show then originalDisplay ctl else "none") ;;
    ret {| ctl_el := el; mounted := true;
           originalDisplay := originalDisplay ctl |}
  else
    e <- read_el el ;;
    let name := name_of e in
    let duration := duration_of e in
    let enterFromClass := (name ++ "-enter-from")%string in
    let enterActiveClass := (name ++ "-enter-active")%string in
    let enterToClass := (name ++ "-enter-to")%string in
    let leaveFromClass := (name ++ "-leave-from")%string in
    let leaveActiveClass := (name ++ "-leave-active")%string in
    let leaveToClass := (name ++ "-leave-to")%string in
    let enterDuration := opt_index duration 0 in
    let leaveDuration := opt_index duration 1 in
    let finishEnter := finish el enterActiveClass enterToClass in
    let finishLeave := finish el leaveActiveClass leaveToClass in
    (if ToBoolean show then
       finishLeave None ;;
       let resolve := ResolveEnter el enterActiveClass enterToClass in
       addTransitionClass el enterActiveClass ;;
       addTransitionClass el enterFromClass ;;
       setElementDisplay el (originalDisplay ctl) ;;
       nextFrame (PhaseSwap el enterFromClass enterToClass enterDuration
                    resolve)
     else
       finishEnter None ;;
       let resolve := ResolveLeave el leaveActiveClass leaveToClass in
       addTransitionClass el leaveFromClass ;;
       forceReflow ;;
       addTransitionClass el leaveActiveClass ;;
       nextFrame (PhaseSwap el leaveFromClass leaveToClass leaveDuration
                    resolve)) ;;
    ret ctl.

(** What a call of the directive leaves behind: nothing for [name] and
    [duration], the closure variables of the effect for [show]. *)
Inductive Binding : Type :=
| ArgumentSaved
| EffectRegistered (ctl : Controller).

(** The directive, up to the registration of the effect; [value] is what
    [ctx.get()] returns during the call. The host runs the registered
    callback, [visibility_effect], itself. *)
Definition transition (el : Handle) (arg : option string) (value : JsVal)
  : M Binding :=
  let auxiliary :=
    match arg with
    | Some a =>
        if negb (JsString.is_empty a) && isTransitionArugument a then
          match argument_of_key a with
          | Some Show | None => None
          | Some other => Some other
          end
        else None
    | None => None
    end in
  match auxiliary with
  | Some a => saveArgument el a value ;; ret ArgumentSaved
  | None =>
      originalDisaplay <- getElementDisplay el ;;
      ret (EffectRegistered {| ctl_el := el; mounted := false;
                               originalDisplay := originalDisaplay |})
  end.

(** The function returned by the directive:
    [propsToClean.forEach(p => delete el[p])]. *)
Definition cleanup (ctl : Controller) : M unit :=
  update_el (ctl_el ctl) (fun e =>
    set__endId (set__show (set__duration (set__name e None) None) None) None).

(** *** The host's event loop *)

Definition run_frame_callback (cb : FrameCallback) : M unit :=
  match cb with
  | SecondFrame cb' => requestAnimationFrame cb'
  | PhaseSwap el fromClass toClass duration resolve =>
      removeTransitionClass el fromClass ;;
      addTransitionClass el toClass ;;
      whenTransitionEnd el duration resolve
  end.

(** One animation frame: the callbacks requested so far run in the order
    of their requests; those requested meanwhile wait for the next
    frame. *)
Definition animation_frame : M unit :=
  w <- get ;;
  modify (fun w => set_frames w []) ;;
  forEach run_frame_callback (frames w).

Definition run_timer_callback (cb : TimerCallback) : M unit :=
  match cb with
  | ResolveIfNotStale el id resolve => resolveIfNotStale el id resolve
  | Fallback i => fallback i
  end.

(** The pending timer at position [i] comes due. *)
Definition fire_timer (i : nat) : M unit :=
  w <- get ;;
  match nth_error (timers w) i with
  | Some t =>
      modify (fun w => set_timers w (remove_nth i (timers w))) ;;
      run_timer_callback (timer_callback t)
  | None => ret tt
  end.

(** A [transitionend] event with target [target] reaches [el]: the
    listeners registered on [el] run in the order of registration. *)
Definition dispatch_transitionend (el target : Handle) : M unit :=
  w <- get ;;
  forEach
    (fun i =>
       wt <- read_wait i ;;
       when (listening wt && Nat.eqb (wait_el wt) el) (onEnd i target))
    (seq 0 (List.length (waits w))).

(** What the host does between two runs of the module's code. *)
Inductive HostEvent : Type :=
| EvBind (el : Handle) (arg : option string) (value : JsVal)
| EvEffect (ctl : Controller) (show : JsVal)
| EvCleanup (ctl : Controller)
| EvFrame
| EvTimer (i : nat)
| EvTransitionEnd (el target : Handle).

Definition run_event (ev : HostEvent) : M unit :=
  match ev with
  | EvBind el arg value => transition el arg value ;; ret tt
  | EvEffect ctl show => visibility_effect ctl show ;; ret tt
  | EvCleanup ctl => cleanup ctl
  | EvFrame => animation_frame
  | EvTimer i => fire_timer i
  | EvTransitionEnd el target => dispatch_transitionend el target
  end.

Definition run_events (evs : list HostEvent) : M unit :=
  forEach run_event evs.

(** *** Vocabulary of the statements *)

(** The tokens [addTransitionClass] and [removeTransitionClass] act on. *)
Definition tokens (cls : string) : list string :=
  filter (fun c => negb (JsString.is_empty c)) (JsString.split_spaces cls).

Definition class_adds (el : Handle) (cls : string) : list Op :=
  map (OpClassAdd el) (tokens cls).

Definition class_removes (el : Handle) (cls : string) : list Op :=
  map (OpClassRemove el) (tokens cls).

(** [w'] differs from [w] by calls on class lists only, logged as [ops]. *)
Definition classes_only (ops : list Op) (w w' : World) : Prop :=
  log w' = log w ++ ops /\ endId w' = endId w /\ frames w' = frames w
  /\ timers w' = timers w /\ waits w' = waits w
  /\ forall h,
       style_display (els w' h) = style_display (els w h)
       /\ _name (els w' h) = _name (els w h)
       /\ _duration (els w' h) = _duration (els w h)
       /\ _show (els w' h) = _show (els w h)
       /\ _endId (els w' h) = _endId (els w h).

(** The world [whenTransitionEnd el explicitTimeout resolve] leaves, given
    what [getTransitionInfo] answered during the call. *)
Definition wait_started (el : Handle) (explicitTimeout : JsVal)
  (resolve : Resolve) (info : CSSTransitionInfo) (w : World) : World :=
  let id := increment (endId w) in
  let i := List.length (waits w) in
  let explicit := ResolveIfNotStale el id resolve in
  let delay := JNum (timeout info + 1)%float in
  {| els := update_at (fun e => set__endId e (Some id)) el (els w);
     endId := id;
     frames := frames w;
     timers :=
       (timers w
        ++ (if ToBoolean explicitTimeout
            then [{| timer_callback := explicit;
                     timer_delay := explicitTimeout |}]
            else []))
       ++ [{| timer_callback := Fallback i; timer_delay := delay |}];
     waits :=
       waits w
       ++ [{| wait_el := el; wait_id := id; wait_resolve := resolve;
              wait_propCount := propCount info; ended := O;
              listening := true |}];
     log :=
       (((log w
          ++ (if ToBoolean explicitTimeout
              then [OpSetTimeout explicit explicitTimeout]
              else []))
         ++ [OpGetComputedStyle el])
        ++ [OpSetTimeout (Fallback i) delay])
       ++ [OpAddEventListener el i] |}.

(** No completion id held by an element or captured by a wait exceeds
    the counter. *)
Definition ids_bounded (w : World) : Prop :=
  (forall h i, _endId (els w h) = Some i -> (i <= endId w)%Z)
  /\ (forall wt, In wt (waits w) -> (wait_id wt <= endId w)%Z).

Definition is_resolve (op : Op) : bool :=
  match op with OpResolve _ => true | _ => false end.

Definition is_introspection (op : Op) : bool :=
  match op with
  | OpGetComputedStyle _ | OpAddEventListener _ _
  | OpSetTimeout (Fallback _) _ => true
  | _ => false
  end.

(** The timeout as the specification words it: both lists cycled to the
    length of the longer one, the maximum taken over all its entries. *)
Definition timeout_both_cycled (delays durations : list string) : float :=
  let n := Nat.max (List.length delays) (List.length durations) in
  JsNumber.Math_max
    (map (fun i =>
            (toMs (nth (i mod List.length durations) durations EmptyString)
             + toMs (nth (i mod List.length delays) delays EmptyString))%float)
         (seq 0 n)).

(** The timeout the code computes when there is at least one delay: the
    delays alone are cycled, over the entries of the durations. *)
Definition timeout_delays_cycled (delays durations : list string) : float :=
  JsNumber.Math_max
    (map (fun i =>
            (toMs (nth i durations EmptyString)
             + toMs (nth (i mod List.length delays) delays EmptyString))%float)
         (seq 0 (List.length durations))).

(** A computation keeps the bound on ids and never lowers the counter. *)
Definition keeps {A} (m : M A) : Prop :=
  forall w a w', ids_bounded w -> m w = Some (a, w') ->
                 ids_bounded w' /\ (endId w <= endId w')%Z.

(** Between [v] and [v'] no element was touched and [resolve] was not
    called. *)
Definition not_resolved (v v' : World) : Prop :=
  els v' = els v
  /\ exists ops, log v' = log v ++ ops /\ existsb is_resolve ops = false.

(** *** Vocabulary of the further properties *)

(** The class list after [classList.add] of each of [cs] in turn. *)
Definition add_tokens (l cs : list string) : list string :=
  fold_left
    (fun acc c => if existsb (String.eqb c) acc then acc else acc ++ [c])
    cs l.

(** The class list after [classList.remove] of each of [cs] in turn. *)
Definition remove_tokens (l cs : list string) : list string :=
  fold_left
    (fun acc c => filter (fun c' => negb (String.eqb c c')) acc) cs l.

(** A computation changes no element but [el]. *)
Definition touches_only {A} (el : Handle) (m : M A) : Prop :=
  forall w a w', m w = Some (a, w') ->
                 forall h, h <> el -> els w' h = els w h.

(** The element a [resolve] closure acts on. *)
Definition resolve_el (resolve : Resolve) : Handle :=
  match resolve with
  | ResolveEnter el _ _ => el
  | ResolveLeave el _ _ => el
  end.

(** [props.join(', ')]. *)
Fixpoint join_comma_space (props : list string) : string :=
  match props with
  | [] => EmptyString
  | [p] => p
  | p :: rest => (p ++ ", " ++ join_comma_space rest)%string
  end.

(** A string without the character [c]. *)
Fixpoint lacks (c : ascii) (s : string) : bool :=
  match s with
  | EmptyString => true
  | String a r => negb (Ascii.eqb a c) && lacks c r
  end.

(** A string made of white space only. *)
Fixpoint all_spaces (s : string) : bool :=
  match s with
  | EmptyString => true
  | String a r => JsString.is_space a && all_spaces r
  end.

(** A string without white space. *)
Fixpoint no_space (s : string) : bool :=
  match s with
  | EmptyString => true
  | String a r => negb (JsString.is_space a) && no_space r
  end.

(** A style value the host left [undefined] or empty. *)
Definition unset (s : option string) : bool :=
  match s with
  | None => true
  | Some v => JsString.is_empty v
  end.

(** The element a frame callback was requested for. *)
Fixpoint frame_el (cb : FrameCallback) : Handle :=
  match cb with
  | SecondFrame cb' => frame_el cb'
  | PhaseSwap el _ _ _ _ => el
  end.

(** The [resolve] a frame callback carries acts on the callback's own
    element. *)
Fixpoint frame_own (cb : FrameCallback) : bool :=
  match cb with
  | SecondFrame cb' => frame_own cb'
  | PhaseSwap el _ _ _ resolve => Nat.eqb (resolve_el resolve) el
  end.

Definition timer_own (t : Timer) : bool :=
  match timer_callback t with
  | ResolveIfNotStale el _ resolve => Nat.eqb (resolve_el resolve) el
  | Fallback _ => true
  end.

Definition wait_own (wt : Wait) : bool :=
  Nat.eqb (resolve_el (wait_resolve wt)) (wait_el wt).

(** Every pending closure of the world acts on the element it was made
    for. *)
Definition own_closures (w : World) : bool :=
  forallb frame_own (frames w) && forallb timer_own (timers w)
  && forallb wait_own (waits w).

(** A computation leaves every pending closure with its own element. *)
Definition owns {A} (m : M A) : Prop :=
  forall w a w', own_closures w = true -> m w = Some (a, w') ->
                 own_closures w' = true.

(** The elements whose bindings a host event runs code of: the element
    bound, the elements of the frame callbacks that are pending, the
    element of the timer that comes due, the element the event is
    dispatched on. *)
Definition event_elements (w : World) (ev : HostEvent) : list Handle :=
  match ev with
  | EvBind el _ _ => [el]
  | EvEffect ctl _ => [ctl_el ctl]
  | EvCleanup ctl => [ctl_el ctl]
  | EvFrame => map frame_el (frames w)
  | EvTimer i =>
      match nth_error (timers w) i with
      | Some t =>
          match timer_callback t with
          | ResolveIfNotStale el _ _ => [el]
          | Fallback j =>
              match nth_error (waits w) j with
              | Some wt => [wait_el wt]
              | None => []
              end
          end
      | None => []
      end
  | EvTransitionEnd el _ => [el]
  end.

(** *** Worlds of the further examples *)

(** An element in the middle of a leave, waiting under id 1. *)
Definition leaving_element : ElementWithTransition :=
  {| classList := ["box"; "v-leave-active"; "v-leave-to"];
     style_display := Some EmptyString; _name := None; _duration := None;
     _show := None; _endId := Some 1%Z |}.

(** Its wait, for two properties, [seen] events counted so far. *)
Definition leaving_wait (seen : nat) : Wait :=
  {| wait_el := 0; wait_id := 1;
     wait_resolve := ResolveLeave 0 "v-leave-active" "v-leave-to";
     wait_propCount := 2; ended := seen; listening := true |}.

Definition leaving_world (seen : nat) : World :=
  {| els := fun _ => leaving_element; endId := 1; frames := [];
     timers := [{| timer_callback := Fallback 0;
                   timer_delay := JNum 301%float |}];
     waits := [leaving_wait seen]; log := [] |}.

(** An element at rest that carries the class [c] beside its own. *)
Definition carrying (c : string) : World :=
  {| els := fun _ =>
       {| classList := ["box"; c]; style_display := Some EmptyString;
          _name := None; _duration := None; _show := None;
          _endId := None |};
     endId := 0; frames := []; timers := []; waits := []; log := [] |}.

(** *** Worlds and style sheets of the examples *)

Definition plain_element : ElementWithTransition :=
  {| classList := []; style_display := Some EmptyString; _name := None;
     _duration := None; _show := None; _endId := None |}.

Definition fresh_world : World :=
  {| els := fun _ => plain_element; endId := 0; frames := []; timers := [];
     waits := []; log := [] |}.

Definition no_transition : ElementWithTransition -> Styles :=
  fun _ => {| transitionDelay := None; transitionDuration := None;
              transitionProperty := None |}.

Definition zero_seconds : ElementWithTransition -> Styles :=
  fun _ => {| transitionDelay := Some "0s"; transitionDuration := Some "0s";
              transitionProperty := Some "all" |}.

Definition opacity_300ms : ElementWithTransition -> Styles :=
  fun _ => {| transitionDelay := Some "0s"; transitionDuration := Some "0.3s";
              transitionProperty := Some "opacity" |}.

Definition two_properties : ElementWithTransition -> Styles :=
  fun _ => {| transitionDelay := Some "0s, 0.1s";
              transitionDuration := Some "0.2s, 0.3s";
              transitionProperty := Some "opacity, transform" |}.

(** A host whose number formatting is never asked for. *)
Definition no_digits : float -> string := fun _ => EmptyString.

(** The closure variables of the effect bound to element 0, which has no
    inline [display], before and after its first run. *)
Definition unmounted_controller : Controller :=
  {| ctl_el := 0; mounted := false; originalDisplay := EmptyString |}.

Definition mounted_controller : Controller :=
  {| ctl_el := 0; mounted := true; originalDisplay := EmptyString |}.

(** Mounted hidden; shown, then hidden again before the next animation
    frame; then two frames, the [transitionend] event of the transition
    that runs, and the two fallback timers. *)
Definition show_then_hide : list HostEvent :=
  [EvEffect unmounted_controller (JBool false);
   EvEffect mounted_controller (JBool true);
   EvEffect mounted_controller (JBool false);
   EvFrame; EvFrame; EvTransitionEnd 0 0; EvTimer 0; EvTimer 0].

(** Mounted visible; hidden; two frames later shown again, the fallback
    timer of the leave coming due before the frames of the enter; then
    the two frames of the enter and its fallback timer. *)
Definition hide_then_show : list HostEvent :=
  [EvEffect unmounted_controller (JBool true);
   EvEffect mounted_controller (JBool false); EvFrame; EvFrame;
   EvEffect mounted_controller (JBool true); EvTimer 0;
   EvFrame; EvFrame; EvTimer 0].

(** Mounted visible; hidden once; two frames and the only timer. *)
Definition hide_once : list HostEvent :=
  [EvEffect unmounted_controller (JBool true);
   EvEffect mounted_controller (JBool false); EvFrame; EvFrame; EvTimer 0].

(** ** Running the monad *)

Lemma bind_run {A B} (m : M A) (k : A -> M B) (w w1 : World) (a : A) :
  m w = Some (a, w1) -> bind m k w = k a w1.
Proof. intros H. unfold bind. now rewrite H. Qed.

Lemma update_at_same {A} (f : A -> A) (h : Handle) (m : Handle -> A) :
  update_at f h m h = f (m h).
Proof. unfold update_at. now rewrite Nat.eqb_refl. Qed.

(** ** Class list operations touch class lists only *)

Lemma classes_only_refl (w : World) : classes_only [] w w.
Proof.
  unfold classes_only. rewrite app_nil_r. repeat split; reflexivity.
Qed.

Lemma classes_only_trans (ops1 ops2 : list Op) (w1 w2 w3 : World) :
  classes_only ops1 w1 w2 -> classes_only ops2 w2 w3 ->
  classes_only (ops1 ++ ops2) w1 w3.
Proof.
  intros (L1 & I1 & F1 & T1 & W1 & E1) (L2 & I2 & F2 & T2 & W2 & E2).
  unfold classes_only.
  rewrite L2, L1, I2, I1, F2, F1, T2, T1, W2, W1, app_assoc.
  repeat split; destruct (E1 h) as (a & b & c & d & e);
    destruct (E2 h) as (a' & b' & c' & d' & e'); congruence.
Qed.

Lemma classList_add_run (el : Handle) (c : string) (w : World) :
  exists w', classList_add el c w = Some (tt, w')
             /\ classes_only [OpClassAdd el c] w w'.
Proof.
  eexists. split; [reflexivity |].
  unfold classes_only; cbn. repeat split;
    unfold update_at; destruct (Nat.eqb h el); reflexivity.
Qed.

Lemma classList_remove_run (el : Handle) (c : string) (w : World) :
  exists w', classList_remove el c w = Some (tt, w')
             /\ classes_only [OpClassRemove el c] w w'.
Proof.
  eexists. split; [reflexivity |].
  unfold classes_only; cbn. repeat split;
    unfold update_at; destruct (Nat.eqb h el); reflexivity.
Qed.

Lemma forEach_tokens_run (op : Handle -> string -> Op)
  (f : Handle -> string -> M unit) (el : Handle) :
  (forall c w, exists w', f el c w = Some (tt, w')
                          /\ classes_only [op el c] w w') ->
  forall (l : list string) (w : World),
  exists w',
    forEach (fun c => when (negb (JsString.is_empty c)) (f el c)) l w
    = Some (tt, w')
    /\ classes_only
         (map (op el) (filter (fun c => negb (JsString.is_empty c)) l)) w w'.
Proof.
  intros Hf l. induction l as [| c r IH]; intros w; cbn [forEach filter map].
  - exists w. split; [reflexivity | apply classes_only_refl].
  - destruct (negb (JsString.is_empty c)); cbn [when].
    + destruct (Hf c w) as (w1 & E1 & S1).
      destruct (IH w1) as (w2 & E2 & S2).
      exists w2. split.
      * rewrite (bind_run _ _ _ _ _ E1). exact E2.
      * exact (classes_only_trans _ _ _ _ _ S1 S2).
    + destruct (IH w) as (w2 & E2 & S2).
      exists w2. split; [exact E2 | exact S2].
Qed.

Lemma addTransitionClass_run (el : Handle) (cls : string) (w : World) :
  exists w', addTransitionClass el cls w = Some (tt, w')
             /\ classes_only (class_adds el cls) w w'.
Proof.
  apply (forEach_tokens_run OpClassAdd classList_add el
           (classList_add_run el)).
Qed.

Lemma removeTransitionClass_run (el : Handle) (cls : string) (w : World) :
  exists w', removeTransitionClass el cls w = Some (tt, w')
             /\ classes_only (class_removes el cls) w w'.
Proof.
  apply (forEach_tokens_run OpClassRemove classList_remove el
           (classList_remove_run el)).
Qed.

Lemma finish_run (el : Handle) (activeClass toClass : string)
  (done : option (M unit)) (w : World) :
  exists w',
    classes_only
      (class_removes el activeClass ++ class_removes el toClass) w w'
    /\ finish el activeClass toClass done w
       = match done with Some f => f w' | None => Some (tt, w') end.
Proof.
  destruct (removeTransitionClass_run el activeClass w) as (w1 & E1 & S1).
  destruct (removeTransitionClass_run el toClass w1) as (w2 & E2 & S2).
  exists w2. split.
  - exact (classes_only_trans _ _ _ _ _ S1 S2).
  - unfold finish. rewrite (bind_run _ _ _ _ _ E1), (bind_run _ _ _ _ _ E2).
    destruct done; reflexivity.
Qed.

(** ** [getTimeout] returns whenever there is a delay *)

Lemma split_comma_space_from_not_nil (s cur : string) :
  JsString.split_comma_space_from cur s <> [].
Proof.
  revert cur. induction s as [| c r IH]; intros cur; cbn.
  - discriminate.
  - destruct r as [| c' r'].
    + discriminate.
    + destruct (Ascii.eqb c "," && Ascii.eqb c' " "); [discriminate |].
      apply IH.
Qed.

Lemma update_nth_last {A} (f : A -> A) (l : list A) (a : A) :
  update_nth f (List.length l) (l ++ [a]) = l ++ [f a].
Proof. induction l as [| b r IH]; cbn; [reflexivity | now rewrite IH]. Qed.

(** The loop of [getTimeout] keeps a whole number of copies of the
    delays it was given, and ends within [fuel] rounds when each round
    is known to be enough. *)
Lemma repeat_delays_cycles (delays0 durations : list string) :
  delays0 <> [] ->
  forall (fuel : nat) (delays : list string) (m : nat),
    1 <= m ->
    List.length delays = m * List.length delays0 ->
    (forall i, i < List.length delays ->
               nth i delays EmptyString
               = nth (i mod List.length delays0) delays0 EmptyString) ->
    List.length durations <= List.length delays + fuel ->
    exists delays',
      repeat_delays fuel delays durations = Some delays'
      /\ List.length durations <= List.length delays'
      /\ forall i, i < List.length delays' ->
                   nth i delays' EmptyString
                   = nth (i mod List.length delays0) delays0 EmptyString.
Proof.
  intros Hne.
  assert (Hpos : 0 < List.length delays0)
    by (destruct delays0; [contradiction | cbn; lia]).
  induction fuel as [| fuel IH]; intros delays m Hm Hlen Hcyc Hfuel.
  - exists delays. cbn [repeat_delays].
    destruct (Nat.ltb_spec (List.length delays) (List.length durations));
      [lia |].
    repeat split; [lia | exact Hcyc].
  - cbn [repeat_delays].
    destruct (Nat.ltb_spec (List.length delays) (List.length durations)) as [Hlt | Hge].
    + apply (IH (delays ++ delays) (2 * m)).
      * lia.
      * rewrite length_app, Hlen. lia.
      * intros i Hi. rewrite length_app in Hi.
        destruct (Nat.lt_ge_cases i (List.length delays)) as [Hin | Hout].
        -- rewrite app_nth1 by exact Hin. now apply Hcyc.
        -- rewrite app_nth2 by exact Hout.
           rewrite Hcyc by lia.
           f_equal. rewrite Hlen.
           replace i with (i - m * List.length delays0
                           + m * List.length delays0) at 2 by lia.
           now rewrite Nat.Div0.mod_add.
      * rewrite length_app. nia.
    + exists delays. repeat split; [lia | exact Hcyc].
Qed.

Lemma repeat_delays_returns (delays durations : list string) :
  delays <> [] ->
  exists delays',
    repeat_delays (List.length durations) delays durations = Some delays'
    /\ List.length durations <= List.length delays'
    /\ forall i, i < List.length delays' ->
                 nth i delays' EmptyString
                 = nth (i mod List.length delays) delays EmptyString.
Proof.
  intros Hne.
  assert (Hpos : 0 < List.length delays)
    by (destruct delays; [contradiction | cbn; lia]).
  apply (repeat_delays_cycles delays durations Hne _ delays 1);
    try lia.
  intros i Hi. now rewrite Nat.mod_small.
Qed.

(** More fuel does not change the outcome of a loop that ended. *)
Lemma repeat_delays_more_fuel (durations : list string) (fuel extra : nat) :
  forall (delays delays' : list string),
    repeat_delays fuel delays durations = Some delays' ->
    repeat_delays (fuel + extra) delays durations = Some delays'.
Proof.
  induction fuel as [| fuel IH]; intros delays delays'; cbn [repeat_delays Nat.add].
  - destruct (Nat.ltb (List.length delays) (List.length durations)) eqn:E;
      [discriminate |].
    intros H. destruct extra; cbn [repeat_delays]; now rewrite E.
  - destruct (Nat.ltb (List.length delays) (List.length durations));
      [apply IH | trivial].
Qed.

(** Without any delay and with a duration the loop never ends. *)
Lemma repeat_delays_no_delays (durations : list string) (fuel : nat) :
  durations <> [] -> repeat_delays fuel [] durations = None.
Proof.
  intros Hne. destruct durations as [| d r]; [contradiction |].
  induction fuel as [| fuel IH]; [reflexivity | exact IH].
Qed.

Lemma getTimeout_fuel_enough (delays durations : list string) (extra : nat) :
  delays <> [] ->
  getTimeout_fuel (List.length durations + extra) delays durations
  = getTimeout delays durations.
Proof.
  intros Hne. unfold getTimeout, getTimeout_fuel.
  destruct (repeat_delays_returns delays durations Hne) as (ds & E & _).
  now rewrite (repeat_delays_more_fuel _ _ extra _ _ E), E.
Qed.

Lemma getTimeout_no_delays (durations : list string) (fuel : nat) :
  durations <> [] -> getTimeout_fuel fuel [] durations = None.
Proof.
  intros Hne. unfold getTimeout_fuel.
  now rewrite repeat_delays_no_delays.
Qed.

Lemma map_index_seq {A B} (f : A -> nat -> B) (d : A) (l : list A) :
  forall k,
    map_index f k l
    = map (fun i => f (nth (i - k) l d) i) (seq k (List.length l)).
Proof.
  induction l as [| a r IH]; intros k; cbn [map_index List.length seq map].
  - reflexivity.
  - rewrite Nat.sub_diag. cbn [nth]. f_equal.
    rewrite IH. apply map_ext_in. intros i Hi. apply in_seq in Hi.
    replace (i - k) with (S (i - S k)) by lia. reflexivity.
Qed.

Lemma transition_info_returns (styles : Styles) :
  exists info, transition_info styles = Some info.
Proof.
  unfold transition_info, getTimeout, getTimeout_fuel.
  destruct (repeat_delays_returns
              (JsString.split_comma_space (or_empty (transitionDelay styles)))
              (JsString.split_comma_space (or_empty (transitionDuration styles))))
    as (ds & E & _).
  - apply split_comma_space_from_not_nil.
  - rewrite E. eexists. reflexivity.
Qed.

(** ** [whenTransitionEnd] always returns, and what it leaves *)

Lemma getTransitionInfo_run (el : Handle) (w : World)
  (info : CSSTransitionInfo) :
  transition_info (computedStyle (els w el)) = Some info ->
  getTransitionInfo el w
  = Some (info, set_log w (log w ++ [OpGetComputedStyle el])).
Proof.
  intros H. unfold getTransitionInfo. cbn. now rewrite H.
Qed.

Lemma whenTransitionEnd_run (el : Handle) (explicitTimeout : JsVal)
  (resolve : Resolve) (w : World) :
  exists info,
    transition_info
      (computedStyle (set__endId (els w el) (Some (increment (endId w)))))
    = Some info
    /\ whenTransitionEnd el explicitTimeout resolve w
       = Some (tt, wait_started el explicitTimeout resolve info w).
Proof.
  destruct (transition_info_returns
              (computedStyle
                 (set__endId (els w el) (Some (increment (endId w))))))
    as (info & Hinfo).
  exists info. split; [exact Hinfo |].
  unfold whenTransitionEnd, wait_started.
  destruct (ToBoolean explicitTimeout); cbn -[getTransitionInfo];
    (erewrite bind_run;
     [| apply getTransitionInfo_run; cbn; rewrite update_at_same;
        exact Hinfo]);
    cbn -[update_nth]; unfold update_wait, modify; cbn -[update_nth];
    rewrite ?app_nil_r, update_nth_last; reflexivity.
Qed.

(** ** The first run of the effect *)

Lemma transition_registers (el : Handle) (arg : option string)
  (value : JsVal) (w w' : World) (ctl : Controller) :
  transition el arg value w = Some (EffectRegistered ctl, w') ->
  w' = w
  /\ ctl = {| ctl_el := el; mounted := false;
              originalDisplay := or_empty (style_display (els w el)) |}.
Proof.
  unfold transition.
  destruct (match arg with
            | Some a =>
                if negb (JsString.is_empty a) && isTransitionArugument a
                then match argument_of_key a with
                     | Some Show | None => None
                     | Some other => Some other
                     end
                else None
            | None => None
            end) as [a |]; cbn.
  - discriminate.
  - intros H. injection H as <- <-. split; reflexivity.
Qed.

(** C5. The first run of the visibility effect of a binding calls
    neither [classList.add] nor [classList.remove] and leaves every
    class list as it is; its only effect is to set the inline display of
    the element (where the element has inline styles at all) to the
    display read when the directive was bound if [show] is truthy and to
    ["none"] otherwise, and to mark the binding mounted. *)
Theorem C5_no_transition_on_mount (el : Handle) (arg : option string)
  (value show : JsVal) (w0 w0' w : World) (ctl : Controller) :
  transition el arg value w0 = Some (EffectRegistered ctl, w0') ->
  let display :=
    if ToBoolean show then or_empty (style_display (els w0 el))
    else "none" in
  exists ctl' w',
    visibility_effect ctl show w = Some (ctl', w')
    /\ mounted ctl' = true
    /\ (forall h, classList (els w' h) = classList (els w h))
    /\ log w'
       = log w ++ (if isHTMLElement (els w el)
                   then [OpSetDisplay el display] else [])
    /\ style_display (els w' el)
       = (if isHTMLElement (els w el) then Some display else None)
    /\ frames w' = frames w /\ timers w' = timers w
    /\ waits w' = waits w /\ endId w' = endId w.
Proof.
  intros H display. apply transition_registers in H as (_ & ->).
  unfold visibility_effect, setElementDisplay, isHTMLElement,
    read_el, bind, get, ret; cbn.
  destruct (style_display (els w el)) as [d |] eqn:E; cbn.
  - do 2 eexists. split; [reflexivity |]. cbn.
    rewrite update_at_same. repeat split; try reflexivity.
    intros h. unfold update_at. destruct (Nat.eqb h el); reflexivity.
  - do 2 eexists. split; [reflexivity |]. cbn.
    rewrite app_nil_r. repeat split; try reflexivity. exact E.
Qed.

(** ** The leave sequence *)

Lemma classes_only_isHTMLElement (ops : list Op) (w w' : World) (h : Handle) :
  classes_only ops w w' ->
  isHTMLElement (els w' h) = isHTMLElement (els w h).
Proof.
  intros (_ & _ & _ & _ & _ & E). destruct (E h) as (D & _).
  unfold isHTMLElement. now rewrite D.
Qed.

Lemma leave_branch_run (ctl : Controller) (show : JsVal) (w : World) :
  mounted ctl = true -> ToBoolean show = false ->
  let el := ctl_el ctl in
  let name := name_of (els w el) in
  let swap :=
    PhaseSwap el (name ++ "-leave-from") (name ++ "-leave-to")
      (opt_index (duration_of (els w el)) 1)
      (ResolveLeave el (name ++ "-leave-active") (name ++ "-leave-to")) in
  exists w',
    visibility_effect ctl show w = Some (ctl, w')
    /\ log w'
       = log w
         ++ class_removes el (name ++ "-enter-active")
         ++ class_removes el (name ++ "-enter-to")
         ++ class_adds el (name ++ "-leave-from")
         ++ [OpReflow]
         ++ class_adds el (name ++ "-leave-active")
         ++ [OpRequestAnimationFrame (SecondFrame swap)]
    /\ frames w' = frames w ++ [SecondFrame swap].
Proof.
  intros Hm Hs el name swap.
  unfold visibility_effect. rewrite Hm, Hs. cbn [negb].
  unfold bind at 1. cbn [read_el bind get ret]. fold el. fold name.
  destruct (finish_run el (name ++ "-enter-active") (name ++ "-enter-to")
              None w) as (w1 & S1 & E1).
  destruct (addTransitionClass_run el (name ++ "-leave-from") w1)
    as (w2 & E2 & S2).
  destruct (addTransitionClass_run el (name ++ "-leave-active")
              (set_log w2 (log w2 ++ [OpReflow]))) as (w3 & E3 & S3).
  eexists. split.
  - unfold bind at 1. unfold bind at 1.
    rewrite E1. unfold bind at 1. rewrite E2.
    unfold bind at 1. cbn [forceReflow emit modify].
    unfold bind at 1. rewrite E3.
    cbn. reflexivity.
  - destruct S1 as (L1 & _ & F1 & _).
    destruct S2 as (L2 & _ & F2 & _).
    destruct S3 as (L3 & _ & F3 & _). cbn in L3, F3. cbn.
    rewrite L3, L2, L1, F3, F2, F1.
    split; [| reflexivity].
    repeat rewrite <- app_assoc. reflexivity.
Qed.

Lemma phase_swap_run (el : Handle) (fromClass toClass : string)
  (duration : JsVal) (resolve : Resolve) (v : World) :
  let id := increment (endId v) in
  let i := List.length (waits v) in
  exists v' info,
    run_frame_callback (PhaseSwap el fromClass toClass duration resolve) v
    = Some (tt, v')
    /\ log v'
       = log v
         ++ class_removes el fromClass
         ++ class_adds el toClass
         ++ (if ToBoolean duration
             then [OpSetTimeout (ResolveIfNotStale el id resolve) duration]
             else [])
         ++ [OpGetComputedStyle el;
             OpSetTimeout (Fallback i) (JNum (timeout info + 1)%float);
             OpAddEventListener el i]
    /\ _endId (els v' el) = Some id
    /\ nth_error (waits v') i
       = Some {| wait_el := el; wait_id := id; wait_resolve := resolve;
                 wait_propCount := propCount info; ended := O;
                 listening := true |}.
Proof.
  intros id i. cbn [run_frame_callback].
  destruct (removeTransitionClass_run el fromClass v) as (v1 & E1 & S1).
  destruct (addTransitionClass_run el toClass v1) as (v2 & E2 & S2).
  destruct (whenTransitionEnd_run el duration resolve v2)
    as (info & _ & E3).
  destruct S1 as (L1 & I1 & _ & _ & W1 & _).
  destruct S2 as (L2 & I2 & _ & _ & W2 & _).
  exists (wait_started el duration resolve info v2), info. split.
  - rewrite (bind_run _ _ _ _ _ E1), (bind_run _ _ _ _ _ E2). exact E3.
  - unfold wait_started. cbn [log els waits].
    rewrite L2, L1, I2, I1, W2, W1. fold id. fold i. repeat split.
    + repeat rewrite <- app_assoc. reflexivity.
    + now rewrite update_at_same.
    + unfold i. rewrite nth_error_app2, Nat.sub_diag by lia. reflexivity.
Qed.

Lemma resolve_leave_run (el : Handle) (leaveActiveClass leaveToClass : string)
  (id : Z) (v : World) :
  _endId (els v el) = Some id ->
  let resolve := ResolveLeave el leaveActiveClass leaveToClass in
  exists v',
    resolveIfNotStale el id resolve v = Some (tt, v')
    /\ log v'
       = log v
         ++ [OpResolve resolve]
         ++ class_removes el leaveActiveClass
         ++ class_removes el leaveToClass
         ++ (if isHTMLElement (els v el)
             then [OpSetDisplay el "none"] else [])
    /\ style_display (els v' el)
       = (if isHTMLElement (els v el) then Some "none" else None).
Proof.
  intros Hid resolve.
  unfold resolveIfNotStale. cbn [read_el bind get ret].
  rewrite Hid. cbn [same_id]. rewrite Z.eqb_refl.
  cbn [when bind emit modify]. unfold resolve at 1. cbn [run_resolve].
  destruct (finish_run el leaveActiveClass leaveToClass
              (Some (setElementDisplay el "none"))
              (set_log v (log v ++ [OpResolve resolve])))
    as (v1 & S1 & E1).
  fold resolve. rewrite E1.
  pose proof (classes_only_isHTMLElement _ _ _ el S1) as HH. cbn in HH.
  destruct S1 as (L1 & _ & _ & _ & _ & D1). destruct (D1 el) as (D & _).
  cbn in L1, D.
  unfold setElementDisplay. cbn [read_el bind get ret]. rewrite HH.
  unfold isHTMLElement in *.
  destruct (style_display (els v el)) as [d |] eqn:Ed;
    cbn [when bind emit modify update_el ret].
  - eexists. split; [reflexivity |]. cbn. rewrite update_at_same, L1.
    split; [| reflexivity].
    repeat rewrite <- app_assoc. reflexivity.
  - eexists. split; [reflexivity |]. rewrite L1, D.
    split; [| reflexivity].
    repeat rewrite <- app_assoc. now rewrite app_nil_r.
Qed.

(** C6. A run of the effect of a mounted binding with a falsy [show]
    performs, in this order: the removals of [finishEnter]
    ([name-enter-active], [name-enter-to]), the addition of
    [name-leave-from], the layout read, the addition of
    [name-leave-active], and one frame request. That frame's callback
    requests a second frame; the callback of the second frame removes
    [name-leave-from], adds [name-leave-to] and starts
    [whenTransitionEnd] with the leave duration. A completion that is
    not stale removes [name-leave-active] and [name-leave-to] and then
    sets the inline display to ["none"]. *)
Theorem C6_leave_order (ctl : Controller) (show : JsVal) (w : World) :
  mounted ctl = true -> ToBoolean show = false ->
  let el := ctl_el ctl in
  let name := name_of (els w el) in
  let leaveFromClass := (name ++ "-leave-from")%string in
  let leaveActiveClass := (name ++ "-leave-active")%string in
  let leaveToClass := (name ++ "-leave-to")%string in
  let leaveDuration := opt_index (duration_of (els w el)) 1 in
  let resolve := ResolveLeave el leaveActiveClass leaveToClass in
  let swap :=
    PhaseSwap el leaveFromClass leaveToClass leaveDuration resolve in
  (exists w',
      visibility_effect ctl show w = Some (ctl, w')
      /\ log w'
         = log w
           ++ class_removes el (name ++ "-enter-active")
           ++ class_removes el (name ++ "-enter-to")
           ++ class_adds el leaveFromClass
           ++ [OpReflow]
           ++ class_adds el leaveActiveClass
           ++ [OpRequestAnimationFrame (SecondFrame swap)]
      /\ frames w' = frames w ++ [SecondFrame swap])
  /\ (forall v,
        run_frame_callback (SecondFrame swap) v
        = Some (tt, set_frames
                      (set_log v (log v ++ [OpRequestAnimationFrame swap]))
                      (frames v ++ [swap])))
  /\ (forall v,
        exists v' info,
          run_frame_callback swap v = Some (tt, v')
          /\ log v'
             = log v
               ++ class_removes el leaveFromClass
               ++ class_adds el leaveToClass
               ++ (if ToBoolean leaveDuration
                   then [OpSetTimeout
                           (ResolveIfNotStale el (increment (endId v))
                              resolve) leaveDuration]
                   else [])
               ++ [OpGetComputedStyle el;
                   OpSetTimeout (Fallback (List.length (waits v)))
                     (JNum (timeout info + 1)%float);
                   OpAddEventListener el (List.length (waits v))]
          /\ _endId (els v' el) = Some (increment (endId v))
          /\ nth_error (waits v') (List.length (waits v))
             = Some {| wait_el := el; wait_id := increment (endId v);
                       wait_resolve := resolve;
                       wait_propCount := propCount info; ended := O;
                       listening := true |})
  /\ (forall v id,
        _endId (els v el) = Some id ->
        exists v',
          resolveIfNotStale el id resolve v = Some (tt, v')
          /\ log v'
             = log v
               ++ [OpResolve resolve]
               ++ class_removes el leaveActiveClass
               ++ class_removes el leaveToClass
               ++ (if isHTMLElement (els v el)
                   then [OpSetDisplay el "none"] else [])
          /\ style_display (els v' el)
             = (if isHTMLElement (els v el) then Some "none" else None)).
Proof.
  intros Hm Hs el name leaveFromClass leaveActiveClass leaveToClass
    leaveDuration resolve swap.
  split; [| split; [| split]].
  - exact (leave_branch_run ctl show w Hm Hs).
  - intros v. reflexivity.
  - intros v.
    exact (phase_swap_run el leaveFromClass leaveToClass leaveDuration
             resolve v).
  - intros v id Hid.
    exact (resolve_leave_run el leaveActiveClass leaveToClass id v Hid).
Qed.

(** ** Binding [duration] *)

(** C8 (as amended). Binding [duration] stores the pair [(val, val)]
    for every value that is not an array, and stores every array as it
    is, whatever its length: the scalar 500 becomes [(500, 500)] and the
    pair [(300, 500)] is kept. *)
Theorem C8_duration_pair_unless_array (el : Handle) (val : JsVal)
  (w : World) :
  exists w',
    transition el (Some "duration") val w = Some (ArgumentSaved, w')
    /\ _duration (els w' el)
       = Some (if isArray val then val else JArr [val; val])
    /\ (exists w5,
          transition el (Some "duration") (JNum 500) w
          = Some (ArgumentSaved, w5)
          /\ _duration (els w5 el) = Some (JArr [JNum 500; JNum 500]))
    /\ (exists w35,
          transition el (Some "duration") (JArr [JNum 300; JNum 500]) w
          = Some (ArgumentSaved, w35)
          /\ _duration (els w35 el) = Some (JArr [JNum 300; JNum 500])).
Proof.
  eexists. split; [reflexivity |]. cbn. rewrite update_at_same.
  split; [destruct val; reflexivity |].
  split; eexists; (split; [reflexivity |]); cbn;
    now rewrite update_at_same.
Qed.

(** ** Explicit durations *)

Lemma same_id_false (a : option Z) (id : Z) :
  a <> Some id -> same_id a id = false.
Proof.
  intros H. destruct a as [x |]; [| reflexivity]. cbn.
  destruct (Z.eqb_spec x id); [subst; contradiction | reflexivity].
Qed.

Lemma resolveIfNotStale_stale (el : Handle) (id : Z) (resolve : Resolve)
  (v : World) :
  _endId (els v el) <> Some id ->
  resolveIfNotStale el id resolve v = Some (tt, v).
Proof.
  intros H. unfold resolveIfNotStale. cbn [read_el bind get ret].
  now rewrite (same_id_false _ _ H).
Qed.

Lemma resolveIfNotStale_live (el : Handle) (id : Z) (resolve : Resolve)
  (v : World) :
  _endId (els v el) = Some id ->
  resolveIfNotStale el id resolve v
  = (emit (OpResolve resolve) ;; run_resolve resolve) v.
Proof.
  intros H. unfold resolveIfNotStale. cbn [read_el bind get ret].
  rewrite H. cbn [same_id]. now rewrite Z.eqb_refl.
Qed.

(** C10. With an explicit duration that is falsy (0, [NaN], [null],
    [undefined], the empty string, [false]) [whenTransitionEnd] does
    exactly what it does without one: no timer for [resolveIfNotStale]
    is set; the style is read, the fallback timer is set and the
    listener is added. *)
Theorem C10_falsy_duration_is_no_duration (el : Handle)
  (explicitTimeout : JsVal) (resolve : Resolve) (w : World) :
  ToBoolean explicitTimeout = false ->
  whenTransitionEnd el explicitTimeout resolve w
  = whenTransitionEnd el JUndefined resolve w
  /\ exists info w',
       whenTransitionEnd el explicitTimeout resolve w = Some (tt, w')
       /\ timers w'
          = timers w
            ++ [{| timer_callback := Fallback (List.length (waits w));
                   timer_delay := JNum (timeout info + 1)%float |}]
       /\ log w'
          = log w
            ++ [OpGetComputedStyle el;
                OpSetTimeout (Fallback (List.length (waits w)))
                  (JNum (timeout info + 1)%float);
                OpAddEventListener el (List.length (waits w))].
Proof.
  intros H. split.
  - unfold whenTransitionEnd. rewrite H. reflexivity.
  - destruct (whenTransitionEnd_run el explicitTimeout resolve w)
      as (info & _ & E).
    exists info. eexists. split; [exact E |].
    unfold wait_started. cbn [timers log]. rewrite H, !app_nil_r.
    split; [reflexivity |].
    repeat rewrite <- app_assoc. reflexivity.
Qed.

(** C4 (as amended). With a truthy explicit duration
    [whenTransitionEnd] sets a timer with exactly that delay; when it
    comes due it resolves if the id is still the live one and does
    nothing otherwise. The computed style is read all the same: [info]
    is what [getTransitionInfo] derives from the computed style of the
    element, the fallback timer is set for its [timeout] plus one, its
    [propCount] is what the listener counts up to, and the listener is
    added. The call without explicit duration, in the same world, leaves
    the world [w0]: the world [w'] left by the call with the duration
    differs from [w0] by the one timer and its one entry in the log, set
    before the style is read, and by nothing else. *)
Theorem C4_explicit_duration_adds_a_timer (el : Handle)
  (explicitTimeout : JsVal) (resolve : Resolve) (w : World) :
  ToBoolean explicitTimeout = true ->
  let id := increment (endId w) in
  let i := List.length (waits w) in
  let explicit := ResolveIfNotStale el id resolve in
  exists info w' w0,
    transition_info (computedStyle (set__endId (els w el) (Some id)))
    = Some info
    /\ whenTransitionEnd el explicitTimeout resolve w = Some (tt, w')
    /\ whenTransitionEnd el JUndefined resolve w = Some (tt, w0)
    /\ timers w0
       = timers w
         ++ [{| timer_callback := Fallback i;
                timer_delay := JNum (timeout info + 1)%float |}]
    /\ timers w'
       = timers w
         ++ [{| timer_callback := explicit; timer_delay := explicitTimeout |};
             {| timer_callback := Fallback i;
                timer_delay := JNum (timeout info + 1)%float |}]
    /\ log w0
       = log w
         ++ [OpGetComputedStyle el;
             OpSetTimeout (Fallback i) (JNum (timeout info + 1)%float);
             OpAddEventListener el i]
    /\ log w'
       = log w
         ++ [OpSetTimeout explicit explicitTimeout;
             OpGetComputedStyle el;
             OpSetTimeout (Fallback i) (JNum (timeout info + 1)%float);
             OpAddEventListener el i]
    /\ waits w'
       = waits w
         ++ [{| wait_el := el; wait_id := id; wait_resolve := resolve;
                wait_propCount := propCount info; ended := O;
                listening := true |}]
    /\ waits w' = waits w0
    /\ els w' = els w0
    /\ endId w' = endId w0
    /\ frames w' = frames w0
    /\ (forall v, _endId (els v el) <> Some id ->
                  run_timer_callback explicit v = Some (tt, v))
    /\ (forall v, _endId (els v el) = Some id ->
                  run_timer_callback explicit v
                  = (emit (OpResolve resolve) ;; run_resolve resolve) v).
Proof.
  intros H id i explicit.
  destruct (whenTransitionEnd_run el explicitTimeout resolve w)
    as (info & Hinfo & E).
  destruct (whenTransitionEnd_run el JUndefined resolve w)
    as (info0 & Hinfo0 & E0).
  fold id in Hinfo, Hinfo0.
  assert (Hsame : info0 = info) by congruence. subst info0.
  exists info, (wait_started el explicitTimeout resolve info w),
    (wait_started el JUndefined resolve info w).
  split; [exact Hinfo |]. split; [exact E |]. split; [exact E0 |].
  unfold wait_started.
  cbn [timers log waits els endId frames ToBoolean]. rewrite H.
  fold id. fold i. fold explicit. rewrite !app_nil_r.
  split; [reflexivity |].
  split; [now rewrite <- app_assoc |].
  split; [repeat rewrite <- app_assoc; reflexivity |].
  split; [repeat rewrite <- app_assoc; reflexivity |].
  split; [reflexivity |]. split; [reflexivity |].
  split; [reflexivity |]. split; [reflexivity |].
  split; [reflexivity |]. split.
  - intros v Hv. exact (resolveIfNotStale_stale el id resolve v Hv).
  - intros v Hv. exact (resolveIfNotStale_live el id resolve v Hv).
Qed.

(** ** The timeout of lists of different lengths *)

(** C7 (as amended). Given at least one delay, [getTimeout] returns
    the maximum, over the entries of the durations, of duration plus
    delay, the delays being repeated cyclically when there are fewer of
    them. Delays beyond the number of durations are not looked at: the
    durations are never repeated. *)
Theorem C7_timeout_cycles_delays_only (delays durations : list string) :
  delays <> [] ->
  getTimeout delays durations
  = Some (timeout_delays_cycled delays durations).
Proof.
  intros Hne. unfold getTimeout, getTimeout_fuel, timeout_delays_cycled.
  destruct (repeat_delays_returns delays durations Hne)
    as (ds & E & Hlen & Hcyc).
  rewrite E. do 2 f_equal.
  rewrite (map_index_seq _ EmptyString).
  apply map_ext_in. intros i Hi. apply in_seq in Hi.
  rewrite Nat.sub_0_r, Hcyc by lia. reflexivity.
Qed.

(** ** Completion ids *)

Create HintDb keeps discriminated.

Lemma keeps_ret {A} (a : A) : keeps (ret a).
Proof.
  intros w a' w' Hb H. injection H as <- <-. split; [exact Hb | lia].
Qed.

Lemma keeps_bind {A B} (m : M A) (k : A -> M B) :
  keeps m -> (forall a, keeps (k a)) -> keeps (bind m k).
Proof.
  intros Hm Hk w b w' Hb H. unfold bind in H.
  destruct (m w) as [[a w1] |] eqn:E; [| discriminate].
  destruct (Hm _ _ _ Hb E) as (Hb1 & Hle1).
  destruct (Hk a _ _ _ Hb1 H) as (Hb2 & Hle2).
  split; [exact Hb2 | lia].
Qed.

Lemma keeps_get : keeps get.
Proof.
  intros w a w' Hb H. injection H as <- <-. split; [exact Hb | lia].
Qed.

Lemma keeps_diverge {A} : keeps (@diverge A).
Proof. intros w a w' _ H. discriminate. Qed.

Lemma keeps_lift {A} (o : option A) : keeps (lift o).
Proof. destruct o; [apply keeps_ret | apply keeps_diverge]. Qed.

Lemma keeps_when (b : bool) (m : M unit) : keeps m -> keeps (when b m).
Proof. intros H. destruct b; [exact H | apply keeps_ret]. Qed.

Lemma keeps_forEach {A} (f : A -> M unit) (l : list A) :
  (forall a, keeps (f a)) -> keeps (forEach f l).
Proof.
  intros H. induction l as [| a r IH]; cbn [forEach].
  - apply keeps_ret.
  - apply keeps_bind; [apply H | intros _; exact IH].
Qed.

Lemma keeps_modify (f : World -> World) :
  (forall w, ids_bounded w -> ids_bounded (f w) /\ (endId w <= endId (f w))%Z) ->
  keeps (modify f).
Proof.
  intros Hf w a w' Hb H. injection H as <- <-. now apply Hf.
Qed.

Lemma keeps_emit (op : Op) : keeps (emit op).
Proof.
  apply keeps_modify. intros w Hb. split; [exact Hb | cbn; lia].
Qed.

Lemma keeps_update_el (el : Handle)
  (f : ElementWithTransition -> ElementWithTransition) :
  (forall e, _endId (f e) = _endId e \/ _endId (f e) = None) ->
  keeps (update_el el f).
Proof.
  intros Hf. apply keeps_modify. intros w (He & Hw).
  split; [split | cbn; lia]; cbn.
  - intros h i. unfold update_at. destruct (Nat.eqb h el).
    + destruct (Hf (els w h)) as [-> | ->]; [apply He | discriminate].
    + apply He.
  - exact Hw.
Qed.

Lemma in_update_nth {A} (f : A -> A) (i : nat) (l : list A) (b : A) :
  In b (update_nth f i l) -> exists a, In a l /\ (b = a \/ b = f a).
Proof.
  revert i. induction l as [| a r IH]; intros i; destruct i as [| j]; cbn.
  - intros [].
  - intros [].
  - intros [<- | H]; [exists a | exists b]; auto.
  - intros [<- | H]; [exists a; auto |].
    destruct (IH j H) as (a' & Ha & Hb). exists a'. auto.
Qed.

Lemma keeps_update_wait (i : nat) (f : Wait -> Wait) :
  (forall wt, wait_id (f wt) = wait_id wt) -> keeps (update_wait i f).
Proof.
  intros Hf. apply keeps_modify. intros w (He & Hw).
  split; [split | cbn; lia]; cbn.
  - exact He.
  - intros wt Hin. apply in_update_nth in Hin as (a & Ha & [-> | ->]).
    + now apply Hw.
    + rewrite Hf. now apply Hw.
Qed.

Lemma keeps_set_frames (l : list FrameCallback) :
  keeps (modify (fun w => set_frames w l)).
Proof.
  apply keeps_modify. intros w Hb. split; [exact Hb | cbn; lia].
Qed.

#[local] Hint Resolve keeps_ret keeps_get keeps_diverge keeps_lift
  keeps_emit keeps_set_frames : keeps.
#[local] Hint Extern 2 (keeps (bind _ _)) =>
  apply keeps_bind; [| intros ?] : keeps.
#[local] Hint Extern 2 (keeps (when _ _)) => apply keeps_when : keeps.
#[local] Hint Extern 2 (keeps (forEach _ _)) =>
  apply keeps_forEach; intros ? : keeps.
#[local] Hint Extern 3 (keeps (update_el _ _)) =>
  apply keeps_update_el; intros ?; cbn; auto : keeps.
#[local] Hint Extern 3 (keeps (update_wait _ _)) =>
  apply keeps_update_wait; intros ?; reflexivity : keeps.
#[local] Hint Extern 4 (keeps (if ?b then _ else _)) => destruct b : keeps.
#[local] Hint Extern 4 (keeps (match ?x with _ => _ end)) =>
  destruct x : keeps.

Ltac keeps_by_unfolding f := unfold f; auto 12 with keeps.

Lemma keeps_read_el (el : Handle) : keeps (read_el el).
Proof. keeps_by_unfolding read_el. Qed.

Lemma keeps_classList_add (el : Handle) (c : string) :
  keeps (classList_add el c).
Proof. keeps_by_unfolding classList_add. Qed.

Lemma keeps_classList_remove (el : Handle) (c : string) :
  keeps (classList_remove el c).
Proof. keeps_by_unfolding classList_remove. Qed.

Lemma keeps_requestAnimationFrame (cb : FrameCallback) :
  keeps (requestAnimationFrame cb).
Proof.
  unfold requestAnimationFrame. apply keeps_bind; [apply keeps_emit |].
  intros _. apply keeps_modify. intros w Hb. split; [exact Hb | cbn; lia].
Qed.

Lemma keeps_setTimeout (cb : TimerCallback) (delay : JsVal) :
  keeps (setTimeout cb delay).
Proof.
  unfold setTimeout. apply keeps_bind; [apply keeps_emit |].
  intros _. apply keeps_modify. intros w Hb. split; [exact Hb | cbn; lia].
Qed.

Lemma keeps_read_wait (i : nat) : keeps (read_wait i).
Proof. keeps_by_unfolding read_wait. Qed.

#[local] Hint Resolve keeps_read_el keeps_classList_add
  keeps_classList_remove keeps_requestAnimationFrame keeps_setTimeout
  keeps_read_wait : keeps.

Lemma keeps_removeEventListener (el : Handle) (i : nat) :
  keeps (removeEventListener el i).
Proof. keeps_by_unfolding removeEventListener. Qed.

Lemma keeps_saveArgument (el : Handle) (arg : TransitionArgument)
  (val : JsVal) : keeps (saveArgument el arg val).
Proof.
  unfold saveArgument. apply keeps_update_el. intros e.
  destruct arg; cbn; auto.
Qed.

Lemma keeps_setElementDisplay (el : Handle) (display : string) :
  keeps (setElementDisplay el display).
Proof. keeps_by_unfolding setElementDisplay. Qed.

Lemma keeps_getElementDisplay (el : Handle) : keeps (getElementDisplay el).
Proof. keeps_by_unfolding getElementDisplay. Qed.

Lemma keeps_addTransitionClass (el : Handle) (cls : string) :
  keeps (addTransitionClass el cls).
Proof. keeps_by_unfolding addTransitionClass. Qed.

Lemma keeps_removeTransitionClass (el : Handle) (cls : string) :
  keeps (removeTransitionClass el cls).
Proof. keeps_by_unfolding removeTransitionClass. Qed.

#[local] Hint Resolve keeps_removeEventListener keeps_saveArgument
  keeps_setElementDisplay keeps_getElementDisplay keeps_addTransitionClass
  keeps_removeTransitionClass : keeps.

Lemma keeps_finish (el : Handle) (activeClass toClass : string)
  (done : option (M unit)) :
  (forall f, done = Some f -> keeps f) ->
  keeps (finish el activeClass toClass done).
Proof.
  intros H. unfold finish.
  apply keeps_bind; [auto with keeps | intros _].
  apply keeps_bind; [auto with keeps | intros _].
  destruct done as [f |]; [now apply H | apply keeps_ret].
Qed.

Lemma keeps_run_resolve (resolve : Resolve) : keeps (run_resolve resolve).
Proof.
  destruct resolve; cbn [run_resolve]; apply keeps_finish.
  - discriminate.
  - intros f [= <-]. auto with keeps.
Qed.

#[local] Hint Resolve keeps_run_resolve : keeps.

Lemma keeps_resolveIfNotStale (el : Handle) (id : Z) (resolve : Resolve) :
  keeps (resolveIfNotStale el id resolve).
Proof. keeps_by_unfolding resolveIfNotStale. Qed.

#[local] Hint Resolve keeps_resolveIfNotStale : keeps.

Lemma keeps_end (i : nat) : keeps (end_ i).
Proof. keeps_by_unfolding end_. Qed.

#[local] Hint Resolve keeps_end : keeps.

Lemma keeps_onEnd (i : nat) (target : Handle) : keeps (onEnd i target).
Proof. keeps_by_unfolding onEnd. Qed.

Lemma keeps_fallback (i : nat) : keeps (fallback i).
Proof. keeps_by_unfolding fallback. Qed.

Lemma increment_ge (n : Z) : (n <= increment n)%Z.
Proof. unfold increment. destruct (n <? 2 ^ 53)%Z; lia. Qed.

Lemma increment_safe (n : Z) : (n < 2 ^ 53)%Z -> increment n = (n + 1)%Z.
Proof.
  intros H. unfold increment.
  destruct (Z.ltb_spec n (2 ^ 53)); [reflexivity | lia].
Qed.

Lemma wait_started_ids_bounded (el : Handle) (explicitTimeout : JsVal)
  (resolve : Resolve) (info : CSSTransitionInfo) (w : World) :
  ids_bounded w ->
  ids_bounded (wait_started el explicitTimeout resolve info w).
Proof.
  intros (He & Hw). pose proof (increment_ge (endId w)) as Hge.
  split; cbn.
  - intros h i. unfold update_at. destruct (Nat.eqb h el); cbn.
    + intros [= <-]. lia.
    + intros H. apply He in H. lia.
  - intros wt Hin. apply in_app_or in Hin as [Hin | [<- | []]].
    + apply Hw in Hin. lia.
    + cbn. lia.
Qed.

Lemma keeps_whenTransitionEnd (el : Handle) (explicitTimeout : JsVal)
  (resolve : Resolve) : keeps (whenTransitionEnd el explicitTimeout resolve).
Proof.
  intros w a w' Hb H.
  destruct (whenTransitionEnd_run el explicitTimeout resolve w)
    as (info & _ & E).
  rewrite E in H. injection H as <- <-. split.
  - now apply wait_started_ids_bounded.
  - cbn. apply increment_ge.
Qed.

#[local] Hint Resolve keeps_onEnd keeps_fallback keeps_whenTransitionEnd
  : keeps.

Lemma keeps_visibility_effect (ctl : Controller) (show : JsVal) :
  keeps (visibility_effect ctl show).
Proof.
  unfold visibility_effect, nextFrame, forceReflow.
  destruct (negb (mounted ctl)); [auto 8 with keeps |].
  apply keeps_bind; [auto with keeps | intros e].
  apply keeps_bind; [| auto with keeps].
  destruct (ToBoolean show);
    (apply keeps_bind; [apply keeps_finish; discriminate | intros _]);
    auto 12 with keeps.
Qed.

Lemma keeps_transition (el : Handle) (arg : option string) (value : JsVal) :
  keeps (transition el arg value).
Proof.
  unfold transition.
  destruct (match arg with
            | Some a =>
                if negb (JsString.is_empty a) && isTransitionArugument a
                then match argument_of_key a with
                     | Some Show | None => None
                     | Some other => Some other
                     end
                else None
            | None => None
            end); auto 8 with keeps.
Qed.

Lemma keeps_cleanup (ctl : Controller) : keeps (cleanup ctl).
Proof. keeps_by_unfolding cleanup. Qed.

Lemma keeps_run_frame_callback (cb : FrameCallback) :
  keeps (run_frame_callback cb).
Proof. destruct cb; cbn [run_frame_callback]; auto 8 with keeps. Qed.

#[local] Hint Resolve keeps_run_frame_callback : keeps.

Lemma keeps_animation_frame : keeps animation_frame.
Proof. keeps_by_unfolding animation_frame. Qed.

Lemma keeps_fire_timer (i : nat) : keeps (fire_timer i).
Proof.
  unfold fire_timer. apply keeps_bind; [apply keeps_get | intros w].
  destruct (nth_error (timers w) i) as [t |]; [| apply keeps_ret].
  apply keeps_bind.
  - apply keeps_modify. intros w0 Hb. split; [exact Hb | cbn; lia].
  - intros _. destruct (timer_callback t); cbn [run_timer_callback];
      auto with keeps.
Qed.

Lemma keeps_dispatch_transitionend (el target : Handle) :
  keeps (dispatch_transitionend el target).
Proof. keeps_by_unfolding dispatch_transitionend. Qed.

Lemma keeps_run_event (ev : HostEvent) : keeps (run_event ev).
Proof.
  destruct ev; cbn [run_event].
  - apply keeps_bind; [apply keeps_transition | intros _; apply keeps_ret].
  - apply keeps_bind;
      [apply keeps_visibility_effect | intros _; apply keeps_ret].
  - apply keeps_cleanup.
  - apply keeps_animation_frame.
  - apply keeps_fire_timer.
  - apply keeps_dispatch_transitionend.
Qed.

(** Whatever the host does, in whatever order, ids stay bounded by the
    counter and the counter never decreases. *)
Lemma run_events_ids_bounded (evs : list HostEvent) (w w' : World) :
  ids_bounded w -> run_events evs w = Some (tt, w') ->
  ids_bounded w' /\ (endId w <= endId w')%Z.
Proof.
  intros Hb H. unfold run_events in H.
  exact (keeps_forEach run_event evs keeps_run_event w tt w' Hb H).
Qed.

Lemma nth_error_update_nth {A} (f : A -> A) (l : list A) :
  forall (i : nat) (a : A),
    nth_error l i = Some a -> nth_error (update_nth f i l) i = Some (f a).
Proof.
  induction l as [| b r IH]; intros i a; destruct i as [| j]; cbn;
    try discriminate.
  - now intros [= ->].
  - apply IH.
Qed.

Lemma read_wait_run (i : nat) (wt : Wait) (v : World) :
  nth_error (waits v) i = Some wt -> read_wait i v = Some (wt, v).
Proof. intros H. unfold read_wait, bind, get. now rewrite H. Qed.

Lemma not_resolved_refl (v : World) : not_resolved v v.
Proof.
  split; [reflexivity |]. exists []. now rewrite app_nil_r.
Qed.

(** The closure [end] of a wait whose id is no longer the live one only
    removes the listener. *)
Lemma end_stale (i : nat) (wt : Wait) (v : World) :
  nth_error (waits v) i = Some wt ->
  _endId (els v (wait_el wt)) <> Some (wait_id wt) ->
  exists v', end_ i v = Some (tt, v') /\ not_resolved v v'.
Proof.
  intros Hnth Hstale.
  unfold end_. rewrite (bind_run _ _ _ _ _ (read_wait_run _ _ _ Hnth)).
  unfold removeEventListener. cbn [bind emit modify update_wait].
  rewrite resolveIfNotStale_stale by exact Hstale.
  eexists. split; [reflexivity |]. split; [reflexivity |].
  exists [OpRemoveEventListener (wait_el wt) i]. split; reflexivity.
Qed.

Lemma fallback_stale (i : nat) (wt : Wait) (v : World) :
  nth_error (waits v) i = Some wt ->
  _endId (els v (wait_el wt)) <> Some (wait_id wt) ->
  exists v', fallback i v = Some (tt, v') /\ not_resolved v v'.
Proof.
  intros Hnth Hstale.
  unfold fallback. rewrite (bind_run _ _ _ _ _ (read_wait_run _ _ _ Hnth)).
  destruct (ended wt <? wait_propCount wt)%nat; cbn [when].
  - exact (end_stale i wt v Hnth Hstale).
  - exists v. split; [reflexivity | apply not_resolved_refl].
Qed.

Lemma onEnd_stale (i : nat) (wt : Wait) (target : Handle) (v : World) :
  nth_error (waits v) i = Some wt ->
  _endId (els v (wait_el wt)) <> Some (wait_id wt) ->
  exists v', onEnd i target v = Some (tt, v') /\ not_resolved v v'.
Proof.
  intros Hnth Hstale.
  unfold onEnd. rewrite (bind_run _ _ _ _ _ (read_wait_run _ _ _ Hnth)).
  destruct (Nat.eqb target (wait_el wt)).
  - cbn [bind update_wait modify].
    destruct (wait_propCount wt <=? S (ended wt))%nat; cbn [when].
    + destruct (end_stale i (set_ended (S (ended wt)) wt)
                  (set_waits v
                     (update_nth (set_ended (S (ended wt))) i (waits v))))
        as (v' & E & Hels & ops & Hlog & Hno).
      * cbn. now apply nth_error_update_nth.
      * exact Hstale.
      * exists v'. split; [exact E |]. split; [exact Hels |].
        exists ops. split; assumption.
    + eexists. split; [reflexivity |]. split; [reflexivity |].
      exists []. now rewrite app_nil_r.
  - exists v. split; [reflexivity | apply not_resolved_refl].
Qed.

(** C3. As long as the counter is below 2^53, a call of
    [whenTransitionEnd] returns and gives the element the id [endId + 1],
    greater than every id held by any element and than every id captured
    by an earlier call. Each of the three ways to completion (the timer
    of the explicit duration, the [transitionend] listener, the fallback
    timer) calls [resolve] only when the id it captured is still the
    element's: with any other live id it touches no element and does
    not call [resolve], and with the same id the timer of the explicit
    duration does call it. *)
Theorem C3_fresh_id_and_staleness (el : Handle) (explicitTimeout : JsVal)
  (resolve : Resolve) (w : World) :
  (endId w < 2 ^ 53)%Z -> ids_bounded w ->
  exists info w',
    whenTransitionEnd el explicitTimeout resolve w = Some (tt, w')
    /\ endId w' = (endId w + 1)%Z
    /\ _endId (els w' el) = Some (endId w')
    /\ (forall h i, _endId (els w h) = Some i -> (i < endId w')%Z)
    /\ (forall wt, In wt (waits w) -> (wait_id wt < endId w')%Z)
    /\ ids_bounded w'
    /\ nth_error (waits w') (List.length (waits w))
       = Some {| wait_el := el; wait_id := endId w';
                 wait_resolve := resolve; wait_propCount := propCount info;
                 ended := O; listening := true |}
    /\ (forall v,
          _endId (els v el) <> Some (endId w') ->
          run_timer_callback (ResolveIfNotStale el (endId w') resolve) v
          = Some (tt, v))
    /\ (forall v,
          _endId (els v el) = Some (endId w') ->
          run_timer_callback (ResolveIfNotStale el (endId w') resolve) v
          = (emit (OpResolve resolve) ;; run_resolve resolve) v)
    /\ (forall v i wt,
          nth_error (waits v) i = Some wt ->
          _endId (els v (wait_el wt)) <> Some (wait_id wt) ->
          (exists v', run_timer_callback (Fallback i) v = Some (tt, v')
                      /\ not_resolved v v')
          /\ (forall target,
                exists v', onEnd i target v = Some (tt, v')
                           /\ not_resolved v v')).
Proof.
  intros Hsafe Hb.
  destruct (whenTransitionEnd_run el explicitTimeout resolve w)
    as (info & _ & E).
  exists info, (wait_started el explicitTimeout resolve info w).
  pose proof (increment_safe _ Hsafe) as Hinc.
  pose proof Hb as (He & Hw).
  split; [exact E |].
  split; [exact Hinc |].
  split; [cbn; now rewrite update_at_same |].
  split; [intros h i H; cbn; rewrite Hinc; apply He in H; lia |].
  split; [intros wt H; cbn; rewrite Hinc; apply Hw in H; lia |].
  split; [now apply wait_started_ids_bounded |].
  split;
    [cbn; rewrite nth_error_app2, Nat.sub_diag by lia; reflexivity |].
  split; [intros v; apply resolveIfNotStale_stale |].
  split; [intros v; apply resolveIfNotStale_live |].
  intros v i wt Hnth Hstale. split.
  - exact (fallback_stale i wt v Hnth Hstale).
  - intros target. exact (onEnd_stale i wt target v Hnth Hstale).
Qed.

(** ** The fallback timer of a wait without properties *)

Lemma fallback_without_properties (i : nat) (wt : Wait) (v : World) :
  nth_error (waits v) i = Some wt -> wait_propCount wt = O ->
  fallback i v = Some (tt, v).
Proof.
  intros Hnth H0.
  unfold fallback. rewrite (bind_run _ _ _ _ _ (read_wait_run _ _ _ Hnth)).
  now rewrite H0.
Qed.

Lemma remove_nth_last {A} (l : list A) (a : A) :
  remove_nth (List.length l) (l ++ [a]) = l.
Proof. induction l as [| b r IH]; cbn; [reflexivity | now rewrite IH]. Qed.

(** When the style promises no transition, the wait started by
    [whenTransitionEnd] counts zero properties, and its fallback timer,
    the only timer of the call, comes due without calling [resolve]:
    the world is the one the call left, minus the timer. *)
Lemma fallback_timer_without_transition (el : Handle) (resolve : Resolve)
  (w : World) (info : CSSTransitionInfo) :
  transition_info
    (computedStyle (set__endId (els w el) (Some (increment (endId w)))))
  = Some info ->
  propCount info = O ->
  let w1 := wait_started el JUndefined resolve info w in
  whenTransitionEnd el JUndefined resolve w = Some (tt, w1)
  /\ timers w1
     = timers w
       ++ [{| timer_callback := Fallback (List.length (waits w));
              timer_delay := JNum (timeout info + 1)%float |}]
  /\ fire_timer (List.length (timers w)) w1
     = Some (tt, set_timers w1 (timers w)).
Proof.
  intros Hinfo H0 w1.
  destruct (whenTransitionEnd_run el JUndefined resolve w)
    as (info' & Hinfo' & E).
  rewrite Hinfo in Hinfo'. injection Hinfo' as <-.
  assert (Ht : timers w1
               = timers w
                 ++ [{| timer_callback := Fallback (List.length (waits w));
                        timer_delay := JNum (timeout info + 1)%float |}])
    by (cbn; now rewrite app_nil_r).
  repeat split; [exact E | exact Ht |].
  unfold fire_timer. cbn [bind get]. rewrite Ht.
  rewrite nth_error_app2, Nat.sub_diag by lia. cbn [nth_error].
  cbn [bind modify timer_callback run_timer_callback].
  rewrite Ht, remove_nth_last.
  apply (fallback_without_properties _
           {| wait_el := el; wait_id := increment (endId w);
              wait_resolve := resolve; wait_propCount := propCount info;
              ended := O; listening := true |}).
  - cbn. rewrite nth_error_app2, Nat.sub_diag by lia. reflexivity.
  - exact H0.
Qed.

(** ** Further properties: class lists *)

Lemma existsb_eqb_In (c : string) (l : list string) :
  existsb (String.eqb c) l = true <-> In c l.
Proof.
  rewrite existsb_exists. split.
  - intros (x & Hx & E). apply String.eqb_eq in E. now subst.
  - intros H. exists c. split; [exact H | apply String.eqb_refl].
Qed.

Lemma add_tokens_In (cs l : list string) (c : string) :
  In c (add_tokens l cs) <-> In c l \/ In c cs.
Proof.
  unfold add_tokens. revert l.
  induction cs as [| a r IH]; intros l; cbn [fold_left].
  - cbn. tauto.
  - rewrite IH. destruct (existsb (String.eqb a) l) eqn:E.
    + apply existsb_eqb_In in E. cbn. split; [tauto |].
      intros [H | [<- | H]]; auto.
    + rewrite in_app_iff. cbn. tauto.
Qed.

Lemma add_tokens_extends (cs l : list string) :
  exists extra,
    add_tokens l cs = l ++ extra /\ forall c, In c extra -> In c cs.
Proof.
  unfold add_tokens. revert l.
  induction cs as [| a r IH]; intros l; cbn [fold_left].
  - exists []. split; [now rewrite app_nil_r | intros c []].
  - destruct (existsb (String.eqb a) l).
    + destruct (IH l) as (extra & E & H).
      exists extra. split; [exact E |]. intros c Hc. right. now apply H.
    + destruct (IH (l ++ [a])) as (extra & E & H).
      exists (a :: extra). split.
      * rewrite E, <- app_assoc. reflexivity.
      * intros c [<- | Hc]; [now left | right; now apply H].
Qed.

Lemma add_tokens_NoDup (cs l : list string) :
  NoDup l -> NoDup (add_tokens l cs).
Proof.
  unfold add_tokens. revert l.
  induction cs as [| a r IH]; intros l Hl; cbn [fold_left].
  - exact Hl.
  - apply IH. destruct (existsb (String.eqb a) l) eqn:E; [exact Hl |].
    apply NoDup_app; [exact Hl | repeat constructor; intros [] |].
    intros x Hx [<- | []].
    apply existsb_eqb_In in Hx. congruence.
Qed.

Lemma remove_tokens_In (cs l : list string) (c : string) :
  In c (remove_tokens l cs) <-> In c l /\ ~ In c cs.
Proof.
  unfold remove_tokens. revert l.
  induction cs as [| a r IH]; intros l; cbn [fold_left].
  - cbn. tauto.
  - rewrite IH, filter_In. cbn.
    destruct (String.eqb_spec a c) as [-> | Hne]; cbn.
    + split; [intros ((_ & H) & _); discriminate | tauto].
    + split; [| tauto]. intros ((H1 & _) & H2). tauto.
Qed.

Lemma remove_tokens_NoDup (cs l : list string) :
  NoDup l -> NoDup (remove_tokens l cs).
Proof.
  unfold remove_tokens. revert l.
  induction cs as [| a r IH]; intros l Hl; cbn [fold_left].
  - exact Hl.
  - apply IH. now apply NoDup_filter.
Qed.

Lemma remove_tokens_disjoint (cs l : list string) :
  (forall c, In c l -> ~ In c cs) -> remove_tokens l cs = l.
Proof.
  unfold remove_tokens. revert l.
  induction cs as [| a r IH]; intros l H; cbn [fold_left].
  - reflexivity.
  - assert (E : filter (fun c' => negb (String.eqb a c')) l = l).
    { apply forallb_filter_id. apply forallb_forall. intros x Hx.
      destruct (String.eqb_spec a x) as [-> | _]; [| reflexivity].
      exfalso. apply (H x Hx). now left. }
    rewrite E. apply IH. intros c Hc Hin. apply (H c Hc). now right.
Qed.

Lemma remove_tokens_app (cs l extra : list string) :
  remove_tokens (l ++ extra) cs
  = remove_tokens l cs ++ remove_tokens extra cs.
Proof.
  unfold remove_tokens. revert l extra.
  induction cs as [| a r IH]; intros l extra; cbn [fold_left].
  - reflexivity.
  - now rewrite filter_app, IH.
Qed.

Lemma remove_tokens_all (cs extra : list string) :
  (forall c, In c extra -> In c cs) -> remove_tokens extra cs = [].
Proof.
  intros H. destruct (remove_tokens extra cs) as [| c r] eqn:E;
    [reflexivity |].
  assert (Hin : In c (remove_tokens extra cs)) by (rewrite E; now left).
  apply remove_tokens_In in Hin as (Hin & Hnot).
  exfalso. apply Hnot. now apply H.
Qed.

Lemma forEach_add_classList (el : Handle) (l : list string) :
  forall w,
    exists w',
      forEach (fun c => when (negb (JsString.is_empty c)) (classList_add el c))
        l w = Some (tt, w')
      /\ classList (els w' el)
         = add_tokens (classList (els w el))
             (filter (fun c => negb (JsString.is_empty c)) l).
Proof.
  induction l as [| c r IH]; intros w; cbn [forEach filter].
  - exists w. split; reflexivity.
  - destruct (negb (JsString.is_empty c)); cbn [when].
    + destruct (IH (set_els (set_log w (log w ++ [OpClassAdd el c]))
                      (update_at
                         (fun e =>
                            set_classList e
                              (if existsb (String.eqb c) (classList e)
                               then classList e else classList e ++ [c]))
                         el (els w)))) as (w2 & E2 & C2).
      exists w2. split; [exact E2 |].
      rewrite C2. cbn [els set_els]. rewrite update_at_same. reflexivity.
    + destruct (IH w) as (w2 & E2 & C2).
      exists w2. split; [exact E2 | exact C2].
Qed.

Lemma forEach_remove_classList (el : Handle) (l : list string) :
  forall w,
    exists w',
      forEach
        (fun c => when (negb (JsString.is_empty c)) (classList_remove el c))
        l w = Some (tt, w')
      /\ classList (els w' el)
         = remove_tokens (classList (els w el))
             (filter (fun c => negb (JsString.is_empty c)) l).
Proof.
  induction l as [| c r IH]; intros w; cbn [forEach filter].
  - exists w. split; reflexivity.
  - destruct (negb (JsString.is_empty c)); cbn [when].
    + destruct (IH (set_els (set_log w (log w ++ [OpClassRemove el c]))
                      (update_at
                         (fun e =>
                            set_classList e
                              (filter (fun c' => negb (String.eqb c c'))
                                 (classList e)))
                         el (els w)))) as (w2 & E2 & C2).
      exists w2. split; [exact E2 |].
      rewrite C2. cbn [els set_els]. rewrite update_at_same. reflexivity.
    + destruct (IH w) as (w2 & E2 & C2).
      exists w2. split; [exact E2 | exact C2].
Qed.

Lemma addTransitionClass_classList (el : Handle) (cls : string) (w : World) :
  exists w',
    addTransitionClass el cls w = Some (tt, w')
    /\ classList (els w' el) = add_tokens (classList (els w el)) (tokens cls).
Proof. apply forEach_add_classList. Qed.

Lemma removeTransitionClass_classList (el : Handle) (cls : string)
  (w : World) :
  exists w',
    removeTransitionClass el cls w = Some (tt, w')
    /\ classList (els w' el)
       = remove_tokens (classList (els w el)) (tokens cls).
Proof. apply forEach_remove_classList. Qed.

(** ** Further properties: one element at a time *)

Create HintDb touches discriminated.

Lemma touches_ret {A} (el : Handle) (a : A) : touches_only el (ret a).
Proof. intros w a' w' H h _. now injection H as <- <-. Qed.

Lemma touches_bind {A B} (el : Handle) (m : M A) (k : A -> M B) :
  touches_only el m -> (forall a, touches_only el (k a)) ->
  touches_only el (bind m k).
Proof.
  intros Hm Hk w b w' H h Hh. unfold bind in H.
  destruct (m w) as [[a w1] |] eqn:E; [| discriminate].
  rewrite (Hk a _ _ _ H h Hh). exact (Hm _ _ _ E h Hh).
Qed.

Lemma touches_get (el : Handle) : touches_only el get.
Proof. intros w a w' H h _. now injection H as <- <-. Qed.

Lemma touches_diverge {A} (el : Handle) : touches_only el (@diverge A).
Proof. intros w a w' H. discriminate. Qed.

Lemma touches_lift {A} (el : Handle) (o : option A) :
  touches_only el (lift o).
Proof. destruct o; [apply touches_ret | apply touches_diverge]. Qed.

Lemma touches_when (el : Handle) (b : bool) (m : M unit) :
  touches_only el m -> touches_only el (when b m).
Proof. intros H. destruct b; [exact H | apply touches_ret]. Qed.

Lemma touches_forEach {A} (el : Handle) (f : A -> M unit) (l : list A) :
  (forall a, touches_only el (f a)) -> touches_only el (forEach f l).
Proof.
  intros H. induction l as [| a r IH]; cbn [forEach].
  - apply touches_ret.
  - apply touches_bind; [apply H | intros _; exact IH].
Qed.

Lemma touches_modify (el : Handle) (f : World -> World) :
  (forall w h, h <> el -> els (f w) h = els w h) ->
  touches_only el (modify f).
Proof. intros Hf w a w' H h Hh. injection H as <- <-. now apply Hf. Qed.

Lemma touches_emit (el : Handle) (op : Op) : touches_only el (emit op).
Proof. apply touches_modify. reflexivity. Qed.

Lemma touches_update_el (el : Handle)
  (f : ElementWithTransition -> ElementWithTransition) :
  touches_only el (update_el el f).
Proof.
  apply touches_modify. intros w h Hh. cbn. unfold update_at.
  destruct (Nat.eqb_spec h el); [contradiction | reflexivity].
Qed.

Lemma touches_set_frames (el : Handle) (g : World -> list FrameCallback) :
  touches_only el (modify (fun w => set_frames w (g w))).
Proof. apply touches_modify. reflexivity. Qed.

Lemma touches_set_timers (el : Handle) (g : World -> list Timer) :
  touches_only el (modify (fun w => set_timers w (g w))).
Proof. apply touches_modify. reflexivity. Qed.

Lemma touches_set_waits (el : Handle) (g : World -> list Wait) :
  touches_only el (modify (fun w => set_waits w (g w))).
Proof. apply touches_modify. reflexivity. Qed.

Lemma touches_set_endId (el : Handle) (g : World -> Z) :
  touches_only el (modify (fun w => set_endId w (g w))).
Proof. apply touches_modify. reflexivity. Qed.

#[local] Hint Resolve touches_ret touches_get touches_diverge touches_lift
  touches_emit touches_update_el touches_set_frames touches_set_timers
  touches_set_waits touches_set_endId : touches.
#[local] Hint Extern 2 (touches_only _ (bind _ _)) =>
  apply touches_bind; [| intros ?] : touches.
#[local] Hint Extern 2 (touches_only _ (when _ _)) =>
  apply touches_when : touches.
#[local] Hint Extern 2 (touches_only _ (forEach _ _)) =>
  apply touches_forEach; intros ? : touches.
#[local] Hint Extern 4 (touches_only _ (if ?b then _ else _)) =>
  destruct b : touches.
#[local] Hint Extern 4 (touches_only _ (match ?x with _ => _ end)) =>
  destruct x : touches.

Ltac touches_by_unfolding f := unfold f; auto 14 with touches.

Lemma touches_read_el (el h : Handle) : touches_only el (read_el h).
Proof. touches_by_unfolding read_el. Qed.

Lemma touches_classList_add (el : Handle) (c : string) :
  touches_only el (classList_add el c).
Proof. touches_by_unfolding classList_add. Qed.

Lemma touches_classList_remove (el : Handle) (c : string) :
  touches_only el (classList_remove el c).
Proof. touches_by_unfolding classList_remove. Qed.

#[local] Hint Resolve touches_read_el touches_classList_add
  touches_classList_remove : touches.

Lemma touches_addTransitionClass (el : Handle) (cls : string) :
  touches_only el (addTransitionClass el cls).
Proof. touches_by_unfolding addTransitionClass. Qed.

Lemma touches_removeTransitionClass (el : Handle) (cls : string) :
  touches_only el (removeTransitionClass el cls).
Proof. touches_by_unfolding removeTransitionClass. Qed.

Lemma touches_setElementDisplay (el : Handle) (display : string) :
  touches_only el (setElementDisplay el display).
Proof. touches_by_unfolding setElementDisplay. Qed.

Lemma touches_requestAnimationFrame (el : Handle) (cb : FrameCallback) :
  touches_only el (requestAnimationFrame cb).
Proof.
  unfold requestAnimationFrame.
  apply touches_bind; [apply touches_emit | intros _].
  apply (touches_set_frames el (fun w => frames w ++ [cb])).
Qed.

Lemma touches_setTimeout (el : Handle) (cb : TimerCallback)
  (delay : JsVal) : touches_only el (setTimeout cb delay).
Proof.
  unfold setTimeout.
  apply touches_bind; [apply touches_emit | intros _].
  apply (touches_set_timers el
           (fun w => timers w
                     ++ [{| timer_callback := cb; timer_delay := delay |}])).
Qed.

#[local] Hint Resolve touches_addTransitionClass
  touches_removeTransitionClass touches_setElementDisplay
  touches_requestAnimationFrame touches_setTimeout : touches.

Lemma touches_finish (el : Handle) (activeClass toClass : string)
  (done : option (M unit)) :
  (forall f, done = Some f -> touches_only el f) ->
  touches_only el (finish el activeClass toClass done).
Proof.
  intros H. unfold finish.
  apply touches_bind; [auto with touches | intros _].
  apply touches_bind; [auto with touches | intros _].
  destruct done as [f |]; [now apply H | apply touches_ret].
Qed.

Lemma touches_run_resolve (resolve : Resolve) :
  touches_only (resolve_el resolve) (run_resolve resolve).
Proof.
  destruct resolve; cbn [run_resolve resolve_el]; apply touches_finish.
  - discriminate.
  - intros f [= <-]. auto with touches.
Qed.

Lemma touches_resolveIfNotStale (el : Handle) (id : Z) (resolve : Resolve) :
  resolve_el resolve = el ->
  touches_only el (resolveIfNotStale el id resolve).
Proof.
  intros <-. unfold resolveIfNotStale.
  apply touches_bind; [auto with touches | intros e].
  apply touches_when.
  apply touches_bind; [auto with touches | intros _].
  apply touches_run_resolve.
Qed.

Lemma touches_whenTransitionEnd (el : Handle) (explicitTimeout : JsVal)
  (resolve : Resolve) :
  touches_only el (whenTransitionEnd el explicitTimeout resolve).
Proof.
  intros w a w' H h Hh.
  destruct (whenTransitionEnd_run el explicitTimeout resolve w)
    as (info & _ & E).
  rewrite E in H. injection H as <- <-. cbn. unfold update_at.
  destruct (Nat.eqb_spec h el); [contradiction | reflexivity].
Qed.

#[local] Hint Resolve touches_whenTransitionEnd : touches.

Lemma touches_visibility_effect (ctl : Controller) (show : JsVal) :
  touches_only (ctl_el ctl) (visibility_effect ctl show).
Proof.
  unfold visibility_effect, nextFrame, forceReflow.
  destruct (negb (mounted ctl)); [auto 8 with touches |].
  apply touches_bind; [auto with touches | intros e].
  apply touches_bind; [| auto with touches].
  destruct (ToBoolean show);
    (apply touches_bind; [apply touches_finish; discriminate | intros _]);
    auto 12 with touches.
Qed.

Lemma touches_saveArgument (el : Handle) (arg : TransitionArgument)
  (val : JsVal) : touches_only el (saveArgument el arg val).
Proof. touches_by_unfolding saveArgument. Qed.

Lemma touches_transition (el : Handle) (arg : option string)
  (value : JsVal) : touches_only el (transition el arg value).
Proof.
  unfold transition, getElementDisplay.
  destruct (match arg with
            | Some a =>
                if negb (JsString.is_empty a) && isTransitionArugument a
                then match argument_of_key a with
                     | Some Show | None => None
                     | Some other => Some other
                     end
                else None
            | None => None
            end).
  - apply touches_bind; [apply touches_saveArgument | intros _].
    apply touches_ret.
  - auto 8 with touches.
Qed.

Lemma touches_cleanup (ctl : Controller) :
  touches_only (ctl_el ctl) (cleanup ctl).
Proof. touches_by_unfolding cleanup. Qed.

Lemma touches_update_wait (el : Handle) (i : nat) (f : Wait -> Wait) :
  touches_only el (update_wait i f).
Proof.
  unfold update_wait.
  apply (touches_set_waits el (fun w => update_nth f i (waits w))).
Qed.

Lemma touches_removeEventListener (el h : Handle) (i : nat) :
  touches_only el (removeEventListener h i).
Proof.
  unfold removeEventListener.
  apply touches_bind; [apply touches_emit | intros _].
  apply touches_update_wait.
Qed.

(** [resolveIfNotStale] changes the element of its [resolve] only,
    whichever element it reads the id of. *)
Lemma touches_resolve_el (el : Handle) (id : Z) (resolve : Resolve) :
  touches_only (resolve_el resolve) (resolveIfNotStale el id resolve).
Proof.
  unfold resolveIfNotStale.
  apply touches_bind; [auto with touches | intros e].
  apply touches_when.
  apply touches_bind; [auto with touches | intros _].
  apply touches_run_resolve.
Qed.

Lemma end_touches (i : nat) (wt : Wait) (v v' : World) :
  nth_error (waits v) i = Some wt ->
  end_ i v = Some (tt, v') ->
  forall h, h <> resolve_el (wait_resolve wt) -> els v' h = els v h.
Proof.
  intros Hnth H. unfold end_ in H.
  rewrite (bind_run _ _ _ _ _ (read_wait_run _ _ _ Hnth)) in H.
  assert (T : touches_only (resolve_el (wait_resolve wt))
                (removeEventListener (wait_el wt) i ;;
                 resolveIfNotStale (wait_el wt) (wait_id wt)
                   (wait_resolve wt))).
  { apply touches_bind; [apply touches_removeEventListener | intros _].
    apply touches_resolve_el. }
  exact (T v tt v' H).
Qed.

Lemma fallback_touches (i : nat) (wt : Wait) (v v' : World) :
  nth_error (waits v) i = Some wt ->
  fallback i v = Some (tt, v') ->
  forall h, h <> resolve_el (wait_resolve wt) -> els v' h = els v h.
Proof.
  intros Hnth H. unfold fallback in H.
  rewrite (bind_run _ _ _ _ _ (read_wait_run _ _ _ Hnth)) in H.
  destruct (ended wt <? wait_propCount wt)%nat; cbn [when] in H.
  - exact (end_touches i wt v v' Hnth H).
  - injection H as <-. reflexivity.
Qed.

Lemma onEnd_touches (i : nat) (wt : Wait) (target : Handle) (v v' : World) :
  nth_error (waits v) i = Some wt ->
  onEnd i target v = Some (tt, v') ->
  forall h, h <> resolve_el (wait_resolve wt) -> els v' h = els v h.
Proof.
  intros Hnth H. unfold onEnd in H.
  rewrite (bind_run _ _ _ _ _ (read_wait_run _ _ _ Hnth)) in H.
  destruct (Nat.eqb target (wait_el wt)).
  - cbn [bind update_wait modify] in H.
    destruct (wait_propCount wt <=? S (ended wt))%nat; cbn [when] in H.
    + refine (end_touches i (set_ended (S (ended wt)) wt) _ v' _ H).
      cbn. now apply nth_error_update_nth.
    + injection H as <-. reflexivity.
  - injection H as <-. reflexivity.
Qed.

Lemma touches_run_frame_callback (cb : FrameCallback) :
  touches_only (frame_el cb) (run_frame_callback cb).
Proof.
  destruct cb; cbn [run_frame_callback frame_el]; auto 8 with touches.
Qed.

(** ** Further properties: closures keep to their own element *)

Create HintDb owns discriminated.

Lemma own_closures_iff (w : World) :
  own_closures w = true
  <-> forallb frame_own (frames w) = true
      /\ forallb timer_own (timers w) = true
      /\ forallb wait_own (waits w) = true.
Proof. unfold own_closures. rewrite !andb_true_iff. tauto. Qed.

Lemma owns_ret {A} (a : A) : owns (ret a).
Proof. intros w a' w' Ho H. now injection H as <- <-. Qed.

Lemma owns_bind {A B} (m : M A) (k : A -> M B) :
  owns m -> (forall a, owns (k a)) -> owns (bind m k).
Proof.
  intros Hm Hk w b w' Ho H. unfold bind in H.
  destruct (m w) as [[a w1] |] eqn:E; [| discriminate].
  exact (Hk a _ _ _ (Hm _ _ _ Ho E) H).
Qed.

Lemma owns_get : owns get.
Proof. intros w a w' Ho H. now injection H as <- <-. Qed.

Lemma owns_diverge {A} : owns (@diverge A).
Proof. intros w a w' _ H. discriminate. Qed.

Lemma owns_lift {A} (o : option A) : owns (lift o).
Proof. destruct o; [apply owns_ret | apply owns_diverge]. Qed.

Lemma owns_when (b : bool) (m : M unit) : owns m -> owns (when b m).
Proof. intros H. destruct b; [exact H | apply owns_ret]. Qed.

Lemma owns_forEach {A} (f : A -> M unit) (l : list A) :
  (forall a, In a l -> owns (f a)) -> owns (forEach f l).
Proof.
  induction l as [| a r IH]; intros H; cbn [forEach].
  - apply owns_ret.
  - apply owns_bind; [apply H; now left | intros _].
    apply IH. intros b Hb. apply H. now right.
Qed.

Lemma owns_modify (f : World -> World) :
  (forall w, own_closures w = true -> own_closures (f w) = true) ->
  owns (modify f).
Proof. intros Hf w a w' Ho H. injection H as <- <-. now apply Hf. Qed.

Lemma owns_emit (op : Op) : owns (emit op).
Proof. apply owns_modify. intros w Ho. exact Ho. Qed.

Lemma owns_update_el (el : Handle)
  (f : ElementWithTransition -> ElementWithTransition) :
  owns (update_el el f).
Proof. apply owns_modify. intros w Ho. exact Ho. Qed.

Lemma forallb_update_nth {A} (p : A -> bool) (f : A -> A) (l : list A) :
  (forall a, p (f a) = p a) ->
  forall i, forallb p (update_nth f i l) = forallb p l.
Proof.
  intros Hf. induction l as [| a r IH]; intros i; destruct i as [| j]; cbn;
    try reflexivity.
  - now rewrite Hf.
  - now rewrite IH.
Qed.

Lemma forallb_remove_nth {A} (p : A -> bool) (l : list A) :
  forallb p l = true -> forall i, forallb p (remove_nth i l) = true.
Proof.
  induction l as [| a r IH]; intros H i; destruct i as [| j]; cbn in *;
    try reflexivity; apply andb_true_iff in H as (Ha & Hr).
  - exact Hr.
  - rewrite Ha. now apply IH.
Qed.

Lemma owns_update_wait (i : nat) (f : Wait -> Wait) :
  (forall wt, wait_own (f wt) = wait_own wt) -> owns (update_wait i f).
Proof.
  intros Hf. apply owns_modify. intros w Ho.
  apply own_closures_iff in Ho as (Hf' & Ht & Hw).
  apply own_closures_iff. cbn. repeat split; try assumption.
  now rewrite forallb_update_nth.
Qed.

Lemma owns_requestAnimationFrame (cb : FrameCallback) :
  frame_own cb = true -> owns (requestAnimationFrame cb).
Proof.
  intros Hcb. unfold requestAnimationFrame.
  apply owns_bind; [apply owns_emit | intros _].
  apply owns_modify. intros w Ho.
  apply own_closures_iff in Ho as (Hf & Ht & Hw).
  apply own_closures_iff. cbn. repeat split; try assumption.
  rewrite forallb_app, Hf. cbn. now rewrite Hcb.
Qed.

Lemma owns_setTimeout (cb : TimerCallback) (delay : JsVal) :
  timer_own {| timer_callback := cb; timer_delay := delay |} = true ->
  owns (setTimeout cb delay).
Proof.
  intros Hcb. unfold setTimeout.
  apply owns_bind; [apply owns_emit | intros _].
  apply owns_modify. intros w Ho.
  apply own_closures_iff in Ho as (Hf & Ht & Hw).
  apply own_closures_iff. cbn. repeat split; try assumption.
  rewrite forallb_app, Ht. cbn. now rewrite Hcb.
Qed.

Lemma owns_read_el (el : Handle) : owns (read_el el).
Proof.
  unfold read_el. apply owns_bind; [apply owns_get | intros w].
  apply owns_ret.
Qed.

Lemma owns_read_wait (i : nat) : owns (read_wait i).
Proof.
  unfold read_wait. apply owns_bind; [apply owns_get | intros w].
  destruct (nth_error (waits w) i); [apply owns_ret | apply owns_diverge].
Qed.

#[local] Hint Resolve owns_ret owns_get owns_diverge owns_lift owns_emit
  owns_update_el owns_read_el owns_read_wait : owns.
#[local] Hint Extern 2 (owns (bind _ _)) =>
  apply owns_bind; [| intros ?] : owns.
#[local] Hint Extern 2 (owns (when _ _)) => apply owns_when : owns.
#[local] Hint Extern 2 (owns (forEach _ _)) =>
  apply owns_forEach; intros ? _ : owns.
#[local] Hint Extern 3 (owns (update_wait _ _)) =>
  apply owns_update_wait; intros ?; reflexivity : owns.
#[local] Hint Extern 4 (owns (if ?b then _ else _)) => destruct b : owns.
#[local] Hint Extern 4 (owns (match ?x with _ => _ end)) =>
  destruct x : owns.

Ltac owns_by_unfolding f := unfold f; auto 14 with owns.

Lemma owns_classList_add (el : Handle) (c : string) :
  owns (classList_add el c).
Proof. owns_by_unfolding classList_add. Qed.

Lemma owns_classList_remove (el : Handle) (c : string) :
  owns (classList_remove el c).
Proof. owns_by_unfolding classList_remove. Qed.

#[local] Hint Resolve owns_classList_add owns_classList_remove : owns.

Lemma owns_addTransitionClass (el : Handle) (cls : string) :
  owns (addTransitionClass el cls).
Proof. owns_by_unfolding addTransitionClass. Qed.

Lemma owns_removeTransitionClass (el : Handle) (cls : string) :
  owns (removeTransitionClass el cls).
Proof. owns_by_unfolding removeTransitionClass. Qed.

Lemma owns_setElementDisplay (el : Handle) (display : string) :
  owns (setElementDisplay el display).
Proof. owns_by_unfolding setElementDisplay. Qed.

Lemma owns_getElementDisplay (el : Handle) : owns (getElementDisplay el).
Proof. owns_by_unfolding getElementDisplay. Qed.

Lemma owns_saveArgument (el : Handle) (arg : TransitionArgument)
  (val : JsVal) : owns (saveArgument el arg val).
Proof. owns_by_unfolding saveArgument. Qed.

Lemma owns_removeEventListener (el : Handle) (i : nat) :
  owns (removeEventListener el i).
Proof. owns_by_unfolding removeEventListener. Qed.

#[local] Hint Resolve owns_addTransitionClass owns_removeTransitionClass
  owns_setElementDisplay owns_getElementDisplay owns_saveArgument
  owns_removeEventListener : owns.

Lemma owns_finish (el : Handle) (activeClass toClass : string)
  (done : option (M unit)) :
  (forall f, done = Some f -> owns f) ->
  owns (finish el activeClass toClass done).
Proof.
  intros H. unfold finish.
  apply owns_bind; [auto with owns | intros _].
  apply owns_bind; [auto with owns | intros _].
  destruct done as [f |]; [now apply H | apply owns_ret].
Qed.

Lemma owns_run_resolve (resolve : Resolve) : owns (run_resolve resolve).
Proof.
  destruct resolve; cbn [run_resolve]; apply owns_finish.
  - discriminate.
  - intros f [= <-]. auto with owns.
Qed.

#[local] Hint Resolve owns_run_resolve : owns.

Lemma owns_resolveIfNotStale (el : Handle) (id : Z) (resolve : Resolve) :
  owns (resolveIfNotStale el id resolve).
Proof. owns_by_unfolding resolveIfNotStale. Qed.

#[local] Hint Resolve owns_resolveIfNotStale : owns.

Lemma owns_end (i : nat) : owns (end_ i).
Proof. owns_by_unfolding end_. Qed.

#[local] Hint Resolve owns_end : owns.

Lemma owns_onEnd (i : nat) (target : Handle) : owns (onEnd i target).
Proof. owns_by_unfolding onEnd. Qed.

Lemma owns_fallback (i : nat) : owns (fallback i).
Proof. owns_by_unfolding fallback. Qed.

#[local] Hint Resolve owns_onEnd owns_fallback : owns.

(** The timer and the wait a call of [whenTransitionEnd] makes are the
    element's own when its [resolve] is. *)
Lemma owns_whenTransitionEnd (el : Handle) (explicitTimeout : JsVal)
  (resolve : Resolve) :
  resolve_el resolve = el ->
  owns (whenTransitionEnd el explicitTimeout resolve).
Proof.
  intros Hr w a w' Ho H.
  destruct (whenTransitionEnd_run el explicitTimeout resolve w)
    as (info & _ & E).
  rewrite E in H. injection H as <- <-.
  apply own_closures_iff in Ho as (Hf & Ht & Hw).
  apply own_closures_iff. cbn [wait_started frames timers waits].
  split; [exact Hf |]. split.
  - rewrite !forallb_app, Ht.
    destruct (ToBoolean explicitTimeout); cbn; [| reflexivity].
    unfold timer_own. cbn. rewrite Hr, Nat.eqb_refl. reflexivity.
  - rewrite forallb_app, Hw. cbn. unfold wait_own. cbn.
    rewrite Hr, Nat.eqb_refl. reflexivity.
Qed.

Lemma owns_run_frame_callback (cb : FrameCallback) :
  frame_own cb = true -> owns (run_frame_callback cb).
Proof.
  destruct cb as [cb' | el fromClass toClass duration resolve];
    cbn [run_frame_callback frame_own]; intros H.
  - now apply owns_requestAnimationFrame.
  - apply owns_bind; [auto with owns | intros _].
    apply owns_bind; [auto with owns | intros _].
    apply owns_whenTransitionEnd. now apply Nat.eqb_eq.
Qed.

Lemma owns_visibility_effect (ctl : Controller) (show : JsVal) :
  owns (visibility_effect ctl show).
Proof.
  unfold visibility_effect, nextFrame, forceReflow.
  destruct (negb (mounted ctl)); [auto 8 with owns |].
  apply owns_bind; [auto with owns | intros e].
  apply owns_bind; [| auto with owns].
  destruct (ToBoolean show);
    (apply owns_bind; [apply owns_finish; discriminate | intros _]);
    do 3 (apply owns_bind; [auto with owns | intros _]);
    apply owns_requestAnimationFrame; cbn; apply Nat.eqb_refl.
Qed.

Lemma owns_transition (el : Handle) (arg : option string) (value : JsVal) :
  owns (transition el arg value).
Proof.
  unfold transition.
  destruct (match arg with
            | Some a =>
                if negb (JsString.is_empty a) && isTransitionArugument a
                then match argument_of_key a with
                     | Some Show | None => None
                     | Some other => Some other
                     end
                else None
            | None => None
            end); auto 8 with owns.
Qed.

Lemma owns_cleanup (ctl : Controller) : owns (cleanup ctl).
Proof. owns_by_unfolding cleanup. Qed.

Lemma owns_animation_frame : owns animation_frame.
Proof.
  intros w a w' Ho H. unfold animation_frame in H.
  cbn [bind get modify] in H.
  apply own_closures_iff in Ho as (Hf & Ht & Hw).
  apply (owns_forEach run_frame_callback (frames w)) in H.
  - exact H.
  - intros cb Hin. apply owns_run_frame_callback.
    exact (proj1 (forallb_forall _ _) Hf cb Hin).
  - apply own_closures_iff. cbn. repeat split; assumption.
Qed.

Lemma owns_fire_timer (i : nat) : owns (fire_timer i).
Proof.
  unfold fire_timer. apply owns_bind; [apply owns_get | intros w].
  destruct (nth_error (timers w) i) as [t |]; [| apply owns_ret].
  apply owns_bind.
  - apply owns_modify. intros w0 Ho.
    apply own_closures_iff in Ho as (Hf & Ht & Hw).
    apply own_closures_iff. cbn. repeat split; try assumption.
    now apply forallb_remove_nth.
  - intros _. destruct (timer_callback t); cbn [run_timer_callback];
      auto with owns.
Qed.

Lemma owns_dispatch_transitionend (el target : Handle) :
  owns (dispatch_transitionend el target).
Proof. owns_by_unfolding dispatch_transitionend. Qed.

Lemma owns_run_event (ev : HostEvent) : owns (run_event ev).
Proof.
  destruct ev; cbn [run_event].
  - apply owns_bind; [apply owns_transition | intros _; apply owns_ret].
  - apply owns_bind;
      [apply owns_visibility_effect | intros _; apply owns_ret].
  - apply owns_cleanup.
  - apply owns_animation_frame.
  - apply owns_fire_timer.
  - apply owns_dispatch_transitionend.
Qed.

Lemma wait_own_el (w : World) (i : nat) (wt : Wait) :
  own_closures w = true -> nth_error (waits w) i = Some wt ->
  resolve_el (wait_resolve wt) = wait_el wt.
Proof.
  intros Ho Hnth. apply own_closures_iff in Ho as (_ & _ & Hw).
  apply Nat.eqb_eq.
  exact (proj1 (forallb_forall _ _) Hw wt (nth_error_In _ _ Hnth)).
Qed.

(** The listeners of an element change that element only. *)
Lemma listeners_touch (el target : Handle) (l : list nat) :
  forall w w',
    own_closures w = true ->
    forEach
      (fun i =>
         wt <- read_wait i ;;
         when (listening wt && Nat.eqb (wait_el wt) el) (onEnd i target))
      l w
    = Some (tt, w') ->
    forall h, h <> el -> els w' h = els w h.
Proof.
  induction l as [| i r IH]; intros w w' Ho H h Hh; cbn [forEach] in H.
  - injection H as <-. reflexivity.
  - unfold bind at 1 in H.
    destruct ((wt <- read_wait i ;;
               when (listening wt && Nat.eqb (wait_el wt) el)
                 (onEnd i target)) w) as [[[] w1] |] eqn:E; [| discriminate].
    assert (Ho1 : own_closures w1 = true).
    { revert E. apply owns_bind; [apply owns_read_wait | intros wt | exact Ho].
      apply owns_when, owns_onEnd. }
    rewrite (IH w1 w' Ho1 H h Hh).
    destruct (nth_error (waits w) i) as [wt |] eqn:Hnth.
    + rewrite (bind_run _ _ _ _ _ (read_wait_run _ _ _ Hnth)) in E.
      destruct (listening wt && Nat.eqb (wait_el wt) el) eqn:G;
        cbn [when] in E.
      * apply andb_true_iff in G as (_ & G). apply Nat.eqb_eq in G.
        apply (onEnd_touches i wt target w w1 Hnth E).
        rewrite (wait_own_el w i wt Ho Hnth), G. exact Hh.
      * injection E as <-. reflexivity.
    + unfold read_wait, bind, get in E. rewrite Hnth in E. discriminate.
Qed.

Lemma frames_touch (l : list FrameCallback) :
  forall w w',
    forEach run_frame_callback l w = Some (tt, w') ->
    forall h, ~ In h (map frame_el l) -> els w' h = els w h.
Proof.
  induction l as [| cb r IH]; intros w w' H h Hh; cbn [forEach] in H.
  - injection H as <-. reflexivity.
  - unfold bind at 1 in H.
    destruct (run_frame_callback cb w) as [[[] w1] |] eqn:E;
      [| discriminate].
    rewrite (IH w1 w' H h).
    + apply (touches_run_frame_callback cb w tt w1 E).
      intros ->. apply Hh. now left.
    + intros Hin. apply Hh. now right.
Qed.

(** A host event changes only the elements whose bindings it runs code
    of. *)
Lemma run_event_touches (ev : HostEvent) (w w' : World) :
  own_closures w = true ->
  run_event ev w = Some (tt, w') ->
  forall h, ~ In h (event_elements w ev) -> els w' h = els w h.
Proof.
  intros Ho H h Hh.
  destruct ev as [el arg value | ctl show | ctl | | i | el target];
    cbn [run_event event_elements] in H, Hh.
  - assert (T : touches_only el (transition el arg value ;; ret tt)).
    { apply touches_bind; [apply touches_transition | intros _].
      apply touches_ret. }
    apply (T w tt w' H). intros ->. apply Hh. now left.
  - assert (T : touches_only (ctl_el ctl)
                  (visibility_effect ctl show ;; ret tt)).
    { apply touches_bind; [apply touches_visibility_effect | intros _].
      apply touches_ret. }
    apply (T w tt w' H). intros ->. apply Hh. now left.
  - apply (touches_cleanup ctl w tt w' H). intros ->. apply Hh. now left.
  - unfold animation_frame in H. cbn [bind get modify] in H.
    exact (frames_touch (frames w) _ w' H h Hh).
  - unfold fire_timer in H. cbn [bind get] in H.
    destruct (nth_error (timers w) i) as [t |] eqn:Ht;
      [| injection H as <-; reflexivity].
    cbn [bind modify] in H.
    assert (Hown : timer_own t = true).
    { apply own_closures_iff in Ho as (_ & Hts & _).
      exact (proj1 (forallb_forall _ _) Hts t (nth_error_In _ _ Ht)). }
    unfold timer_own in Hown.
    destruct (timer_callback t) as [el id resolve | j];
      cbn [run_timer_callback] in H.
    + apply Nat.eqb_eq in Hown.
      apply (touches_resolve_el el id resolve _ tt w' H).
      rewrite Hown. intros ->. apply Hh. now left.
    + destruct (nth_error (waits w) j) as [wt |] eqn:Hnth.
      * apply (fallback_touches j wt
                 (set_timers w (remove_nth i (timers w))) w' Hnth H).
        rewrite (wait_own_el w j wt Ho Hnth).
        intros ->. apply Hh. now left.
      * unfold fallback, read_wait, bind, get in H. cbn in H.
        rewrite Hnth in H. discriminate.
  - unfold dispatch_transitionend in H. cbn [bind get] in H.
    apply (listeners_touch el target _ w w' Ho H).
    intros ->. apply Hh. now left.
Qed.

(** X22. What a binding sets in motion changes no element but its own.
    The effect, the callback of its second frame, the timer of an
    explicit duration and the cleanup change only the element of the
    binding. So do the fallback timer and the [transitionend] listener
    of a wait whose [resolve] acts on that element, and such are all the
    waits of the element: the frame callbacks, timers and waits the
    module makes carry a [resolve] of their own element, and they still
    do after any sequence of host events. Hence a host event changes
    only the elements whose bindings it runs code of: the element bound,
    those of the pending frame callbacks, that of the timer that comes
    due, that of the wait whose fallback comes due, the element a
    [transitionend] event is dispatched on. *)
Theorem binding_touches_only_its_element (ctl : Controller) (show : JsVal) :
  let el := ctl_el ctl in
  touches_only el (visibility_effect ctl show)
  /\ (forall fromClass toClass duration resolve,
        touches_only el
          (run_frame_callback
             (PhaseSwap el fromClass toClass duration resolve)))
  /\ (forall id resolve,
        resolve_el resolve = el ->
        touches_only el (run_timer_callback (ResolveIfNotStale el id resolve)))
  /\ touches_only el (cleanup ctl)
  /\ (forall i wt v v',
        nth_error (waits v) i = Some wt ->
        resolve_el (wait_resolve wt) = el ->
        run_timer_callback (Fallback i) v = Some (tt, v') ->
        forall h, h <> el -> els v' h = els v h)
  /\ (forall i wt target v v',
        nth_error (waits v) i = Some wt ->
        resolve_el (wait_resolve wt) = el ->
        onEnd i target v = Some (tt, v') ->
        forall h, h <> el -> els v' h = els v h)
  /\ (forall target v v',
        own_closures v = true ->
        dispatch_transitionend el target v = Some (tt, v') ->
        forall h, h <> el -> els v' h = els v h)
  /\ (forall v i wt,
        own_closures v = true -> nth_error (waits v) i = Some wt ->
        wait_el wt = el -> resolve_el (wait_resolve wt) = el)
  /\ (forall v v',
        own_closures v = true ->
        visibility_effect ctl show v = Some (ctl, v') ->
        own_closures v' = true)
  /\ (forall evs v v',
        own_closures v = true -> run_events evs v = Some (tt, v') ->
        own_closures v' = true)
  /\ (forall ev v v',
        own_closures v = true -> run_event ev v = Some (tt, v') ->
        forall h, ~ In h (event_elements v ev) -> els v' h = els v h).
Proof.
  intros el. split; [apply touches_visibility_effect |]. split.
  { intros fromClass toClass duration resolve. cbn [run_frame_callback].
    auto 8 with touches. }
  split.
  { intros id resolve H. cbn [run_timer_callback].
    now apply touches_resolveIfNotStale. }
  split; [apply touches_cleanup |]. split.
  { intros i wt v v' Hnth Hr H h Hh. cbn [run_timer_callback] in H.
    apply (fallback_touches i wt v v' Hnth H). now rewrite Hr. }
  split.
  { intros i wt target v v' Hnth Hr H h Hh.
    apply (onEnd_touches i wt target v v' Hnth H). now rewrite Hr. }
  split.
  { intros target v v' Ho H. unfold dispatch_transitionend in H.
    cbn [bind get] in H. exact (listeners_touch el target _ v v' Ho H). }
  split.
  { intros v i wt Ho Hnth <-. exact (wait_own_el v i wt Ho Hnth). }
  split.
  { intros v v' Ho H. exact (owns_visibility_effect ctl show v ctl v' Ho H). }
  split.
  { intros evs v v' Ho H. unfold run_events in H.
    exact (owns_forEach run_event evs
             (fun ev _ => owns_run_event ev) v tt v' Ho H). }
  intros ev v v'. apply run_event_touches.
Qed.

(** ** Further properties: adding and removing classes *)

(** X6. [addTransitionClass] returns; afterwards the class list holds what
    it held, in the same order, followed by the tokens of [cls] that
    were missing; it has no duplicate if it had none; no other element
    and no inline display changes. *)
Theorem addTransitionClass_adds_the_tokens (el : Handle) (cls : string)
  (w : World) :
  exists w' extra,
    addTransitionClass el cls w = Some (tt, w')
    /\ classList (els w' el) = classList (els w el) ++ extra
    /\ (forall c, In c extra -> In c (tokens cls))
    /\ (forall c, In c (classList (els w' el))
                  <-> In c (classList (els w el)) \/ In c (tokens cls))
    /\ (NoDup (classList (els w el)) -> NoDup (classList (els w' el)))
    /\ (forall h, h <> el -> els w' h = els w h)
    /\ style_display (els w' el) = style_display (els w el).
Proof.
  destruct (addTransitionClass_classList el cls w) as (w' & E & C).
  destruct (add_tokens_extends (tokens cls) (classList (els w el)))
    as (extra & Hx & Hin).
  exists w', extra. split; [exact E |]. rewrite C.
  split; [exact Hx |]. split; [exact Hin |].
  split; [intros c; apply add_tokens_In |].
  split; [apply add_tokens_NoDup |].
  split; [exact (touches_addTransitionClass el cls w tt w' E) |].
  destruct (addTransitionClass_run el cls w) as (w2 & E2 & S2).
  rewrite E in E2. injection E2 as <-.
  destruct S2 as (_ & _ & _ & _ & _ & D). now destruct (D el).
Qed.

(** X7. [removeTransitionClass] returns; afterwards the class list holds
    exactly the classes it held that are not tokens of [cls], and no
    other element and no inline display changes. *)
Theorem removeTransitionClass_removes_the_tokens (el : Handle)
  (cls : string) (w : World) :
  exists w',
    removeTransitionClass el cls w = Some (tt, w')
    /\ (forall c, In c (classList (els w' el))
                  <-> In c (classList (els w el)) /\ ~ In c (tokens cls))
    /\ (NoDup (classList (els w el)) -> NoDup (classList (els w' el)))
    /\ (forall h, h <> el -> els w' h = els w h)
    /\ style_display (els w' el) = style_display (els w el).
Proof.
  destruct (removeTransitionClass_classList el cls w) as (w' & E & C).
  exists w'. split; [exact E |]. rewrite C.
  split; [intros c; apply remove_tokens_In |].
  split; [apply remove_tokens_NoDup |].
  split; [exact (touches_removeTransitionClass el cls w tt w' E) |].
  destruct (removeTransitionClass_run el cls w) as (w2 & E2 & S2).
  rewrite E in E2. injection E2 as <-.
  destruct S2 as (_ & _ & _ & _ & _ & D). now destruct (D el).
Qed.

(** X8. Removing a class string right after adding it gives back the class
    list, when none of its tokens was on the element before. *)
Theorem remove_after_add_restores (el : Handle) (cls : string) (w : World) :
  (forall c, In c (classList (els w el)) -> ~ In c (tokens cls)) ->
  exists w',
    (addTransitionClass el cls ;; removeTransitionClass el cls) w
    = Some (tt, w')
    /\ classList (els w' el) = classList (els w el).
Proof.
  intros Hfresh.
  destruct (addTransitionClass_classList el cls w) as (w1 & E1 & C1).
  destruct (removeTransitionClass_classList el cls w1) as (w2 & E2 & C2).
  exists w2. split.
  - rewrite (bind_run _ _ _ _ _ E1). exact E2.
  - rewrite C2, C1.
    destruct (add_tokens_extends (tokens cls) (classList (els w el)))
      as (extra & -> & Hin).
    rewrite remove_tokens_app, (remove_tokens_disjoint _ _ Hfresh),
      (remove_tokens_all _ _ Hin).
    apply app_nil_r.
Qed.

Lemma no_space_app (a b : string) :
  no_space (a ++ b) = no_space a && no_space b.
Proof.
  induction a as [| c r IH]; cbn; [reflexivity |].
  now rewrite IH, andb_assoc.
Qed.

Lemma split_spaces_from_tokens (s : string) :
  forall (cur : string) (in_run : bool) (c : string),
    no_space cur = true ->
    In c (JsString.split_spaces_from cur in_run s) ->
    no_space c = true.
Proof.
  induction s as [| a r IH]; intros cur in_run c Hcur; cbn.
  - intros [<- | []]. exact Hcur.
  - destruct (JsString.is_space a) eqn:Ea.
    + destruct in_run.
      * apply IH. exact Hcur.
      * intros [<- | H]; [exact Hcur |].
        apply (IH EmptyString true c); [reflexivity | exact H].
    + apply IH. rewrite no_space_app, Hcur. cbn. now rewrite Ea.
Qed.

(** X9. No token handed to [classList.add] or [classList.remove] is empty
    or contains white space, whatever the class string. *)
Theorem tokens_are_valid (cls c : string) :
  In c (tokens cls) -> c <> EmptyString /\ no_space c = true.
Proof.
  unfold tokens. rewrite filter_In. intros (Hin & Hne). split.
  - intros ->. discriminate.
  - apply (split_spaces_from_tokens cls EmptyString false c);
      [reflexivity | exact Hin].
Qed.

Lemma split_spaces_from_all_spaces (s : string) :
  all_spaces s = true ->
  forall (in_run : bool) (c : string),
    In c (JsString.split_spaces_from EmptyString in_run s) ->
    c = EmptyString.
Proof.
  induction s as [| a r IH]; intros Hs in_run c; cbn.
  - intros [<- | []]. reflexivity.
  - cbn in Hs. apply andb_prop in Hs as (Ha & Hr). rewrite Ha.
    destruct in_run.
    + apply IH. exact Hr.
    + intros [<- | H]; [reflexivity | now apply (IH Hr true)].
Qed.

Lemma tokens_all_spaces (cls : string) :
  all_spaces cls = true -> tokens cls = [].
Proof.
  intros H. unfold tokens.
  destruct (filter (fun c => negb (JsString.is_empty c))
              (JsString.split_spaces cls)) as [| c r] eqn:E;
    [reflexivity |].
  assert (Hin : In c (filter (fun c => negb (JsString.is_empty c))
                        (JsString.split_spaces cls)))
    by (rewrite E; now left).
  apply filter_In in Hin as (Hin & Hne).
  apply (split_spaces_from_all_spaces cls H false c) in Hin. now subst.
Qed.

(** X10. A class string that is empty or white space only adds and removes
    nothing: the world is left as it is and the host is not called. *)
Theorem blank_class_string_is_ignored (el : Handle) (cls : string)
  (w : World) :
  all_spaces cls = true ->
  addTransitionClass el cls w = Some (tt, w)
  /\ removeTransitionClass el cls w = Some (tt, w).
Proof.
  intros H. pose proof (tokens_all_spaces cls H) as Ht.
  unfold tokens in Ht. unfold addTransitionClass, removeTransitionClass.
  split.
  - induction (JsString.split_spaces cls) as [| c r IH];
      [reflexivity |].
    cbn [filter forEach] in *.
    destruct (negb (JsString.is_empty c)); [discriminate |].
    exact (IH Ht).
  - induction (JsString.split_spaces cls) as [| c r IH];
      [reflexivity |].
    cbn [filter forEach] in *.
    destruct (negb (JsString.is_empty c)); [discriminate |].
    exact (IH Ht).
Qed.

(** ** Further properties: the inline display *)

Lemma setElementDisplay_styled (el : Handle) (display d0 : string)
  (w : World) :
  style_display (els w el) = Some d0 ->
  setElementDisplay el display w
  = Some (tt, set_els (set_log w (log w ++ [OpSetDisplay el display]))
                (update_at (fun e => set_style_display e (Some display))
                   el (els w))).
Proof.
  intros H. unfold setElementDisplay, isHTMLElement.
  cbn [read_el bind get ret]. now rewrite H.
Qed.

Lemma setElementDisplay_unstyled (el : Handle) (display : string)
  (w : World) :
  style_display (els w el) = None ->
  setElementDisplay el display w = Some (tt, w).
Proof.
  intros H. unfold setElementDisplay, isHTMLElement.
  cbn [read_el bind get ret]. now rewrite H.
Qed.

Lemma getElementDisplay_run (el : Handle) (w : World) :
  getElementDisplay el w = Some (or_empty (style_display (els w el)), w).
Proof. reflexivity. Qed.

(** X11. Hiding an element and writing back the display read beforehand
    restores it: the element ends as it began. On an element without a
    [style] object nothing is written at all and the display reads as
    the empty string. *)
Theorem hiding_then_restoring_the_display (el : Handle) (w : World) :
  exists w',
    (original <- getElementDisplay el ;;
     setElementDisplay el "none" ;;
     setElementDisplay el original ;;
     getElementDisplay el) w
    = Some (or_empty (style_display (els w el)), w')
    /\ els w' el = els w el
    /\ (forall h, h <> el -> els w' h = els w h)
    /\ log w'
       = log w
         ++ (if isHTMLElement (els w el)
             then [OpSetDisplay el "none";
                   OpSetDisplay el (or_empty (style_display (els w el)))]
             else []).
Proof.
  rewrite (bind_run _ _ _ _ _ (getElementDisplay_run el w)).
  unfold isHTMLElement.
  destruct (style_display (els w el)) as [d |] eqn:E; cbn [or_empty].
  - set (w1 := set_els (set_log w (log w ++ [OpSetDisplay el "none"]))
                 (update_at (fun e => set_style_display e (Some "none"))
                    el (els w))).
    assert (E1 : style_display (els w1 el) = Some "none")
      by (cbn; now rewrite update_at_same).
    set (w2 := set_els (set_log w1 (log w1 ++ [OpSetDisplay el d]))
                 (update_at (fun e => set_style_display e (Some d))
                    el (els w1))).
    assert (E2 : els w2 el = els w el).
    { cbn. rewrite !update_at_same. destruct (els w el); cbn in *.
      now subst. }
    exists w2.
    rewrite (bind_run _ _ _ _ _ (setElementDisplay_styled el "none" d w E)).
    fold w1.
    rewrite (bind_run _ _ _ _ _
               (setElementDisplay_styled el d "none" w1 E1)).
    fold w2. rewrite getElementDisplay_run, E2, E. cbn [or_empty].
    split; [reflexivity |]. split; [reflexivity |]. split.
    + intros h Hh. cbn. unfold update_at.
      destruct (Nat.eqb_spec h el); [contradiction | reflexivity].
    + cbn. now rewrite <- app_assoc.
  - exists w.
    rewrite (bind_run _ _ _ _ _ (setElementDisplay_unstyled el "none" w E)).
    rewrite (bind_run _ _ _ _ _
               (setElementDisplay_unstyled el EmptyString w E)).
    rewrite getElementDisplay_run, E, app_nil_r. repeat split.
Qed.

(** ** Further properties: the enter sequence *)

Lemma setElementDisplay_run (el : Handle) (display : string) (w : World) :
  exists w',
    setElementDisplay el display w = Some (tt, w')
    /\ log w'
       = log w ++ (if isHTMLElement (els w el)
                   then [OpSetDisplay el display] else [])
    /\ frames w' = frames w
    /\ style_display (els w' el)
       = (if isHTMLElement (els w el) then Some display else None)
    /\ waits w' = waits w.
Proof.
  unfold setElementDisplay, isHTMLElement. cbn [read_el bind get ret].
  destruct (style_display (els w el)) as [d |] eqn:E; cbn.
  - eexists. split; [reflexivity |]. cbn. rewrite update_at_same.
    repeat split.
  - exists w. rewrite app_nil_r. repeat split. exact E.
Qed.

Lemma enter_branch_run (ctl : Controller) (show : JsVal) (w : World) :
  mounted ctl = true -> ToBoolean show = true ->
  let el := ctl_el ctl in
  let name := name_of (els w el) in
  let swap :=
    PhaseSwap el (name ++ "-enter-from") (name ++ "-enter-to")
      (opt_index (duration_of (els w el)) 0)
      (ResolveEnter el (name ++ "-enter-active") (name ++ "-enter-to")) in
  exists w',
    visibility_effect ctl show w = Some (ctl, w')
    /\ log w'
       = log w
         ++ class_removes el (name ++ "-leave-active")
         ++ class_removes el (name ++ "-leave-to")
         ++ class_adds el (name ++ "-enter-active")
         ++ class_adds el (name ++ "-enter-from")
         ++ (if isHTMLElement (els w el)
             then [OpSetDisplay el (originalDisplay ctl)] else [])
         ++ [OpRequestAnimationFrame (SecondFrame swap)]
    /\ frames w' = frames w ++ [SecondFrame swap]
    /\ style_display (els w' el)
       = (if isHTMLElement (els w el)
          then Some (originalDisplay ctl) else None).
Proof.
  intros Hm Hs el name swap.
  unfold visibility_effect. rewrite Hm, Hs. cbn [negb].
  unfold bind at 1. cbn [read_el bind get ret]. fold el. fold name.
  destruct (finish_run el (name ++ "-leave-active") (name ++ "-leave-to")
              None w) as (w1 & S1 & E1).
  destruct (addTransitionClass_run el (name ++ "-enter-active") w1)
    as (w2 & E2 & S2).
  destruct (addTransitionClass_run el (name ++ "-enter-from") w2)
    as (w3 & E3 & S3).
  destruct (setElementDisplay_run el (originalDisplay ctl) w3)
    as (w4 & E4 & L4 & F4 & D4 & _).
  pose proof (classes_only_isHTMLElement _ _ _ el S1) as H1.
  pose proof (classes_only_isHTMLElement _ _ _ el S2) as H2.
  pose proof (classes_only_isHTMLElement _ _ _ el S3) as H3.
  rewrite H3, H2, H1 in L4, D4.
  eexists. split.
  - unfold bind at 1. unfold bind at 1. rewrite E1.
    unfold bind at 1. rewrite E2.
    unfold bind at 1. rewrite E3.
    unfold bind at 1. rewrite E4.
    cbn. reflexivity.
  - destruct S1 as (L1 & _ & F1 & _).
    destruct S2 as (L2 & _ & F2 & _).
    destruct S3 as (L3 & _ & F3 & _). cbn.
    rewrite L4, L3, L2, L1, F4, F3, F2, F1.
    split; [| split; [reflexivity | exact D4]].
    repeat rewrite <- app_assoc. reflexivity.
Qed.

Lemma resolve_enter_run (el : Handle) (enterActiveClass enterToClass : string)
  (id : Z) (v : World) :
  _endId (els v el) = Some id ->
  let resolve := ResolveEnter el enterActiveClass enterToClass in
  exists v',
    resolveIfNotStale el id resolve v = Some (tt, v')
    /\ log v'
       = log v
         ++ [OpResolve resolve]
         ++ class_removes el enterActiveClass
         ++ class_removes el enterToClass
    /\ style_display (els v' el) = style_display (els v el).
Proof.
  intros Hid resolve.
  unfold resolveIfNotStale. cbn [read_el bind get ret].
  rewrite Hid. cbn [same_id]. rewrite Z.eqb_refl.
  cbn [when bind emit modify]. unfold resolve at 1. cbn [run_resolve].
  destruct (finish_run el enterActiveClass enterToClass None
              (set_log v (log v ++ [OpResolve resolve])))
    as (v1 & S1 & E1).
  fold resolve. rewrite E1. exists v1. split; [reflexivity |].
  destruct S1 as (L1 & _ & _ & _ & _ & D1). destruct (D1 el) as (D & _).
  cbn in L1, D. rewrite L1, D. split; [| reflexivity].
  repeat rewrite <- app_assoc. reflexivity.
Qed.

(** X1. A run of the effect of a mounted binding with a truthy [show]
    performs, in this order: the removals of [finishLeave]
    ([name-leave-active], [name-leave-to]), the additions of
    [name-enter-active] and [name-enter-from], the write of the original
    display, and one frame request. The callback of the second frame
    removes [name-enter-from], adds [name-enter-to] and starts
    [whenTransitionEnd] with the enter duration. A completion that is
    not stale removes [name-enter-active] and [name-enter-to] and leaves
    the display alone. *)
Theorem enter_order (ctl : Controller) (show : JsVal) (w : World) :
  mounted ctl = true -> ToBoolean show = true ->
  let el := ctl_el ctl in
  let name := name_of (els w el) in
  let enterFromClass := (name ++ "-enter-from")%string in
  let enterActiveClass := (name ++ "-enter-active")%string in
  let enterToClass := (name ++ "-enter-to")%string in
  let enterDuration := opt_index (duration_of (els w el)) 0 in
  let resolve := ResolveEnter el enterActiveClass enterToClass in
  let swap :=
    PhaseSwap el enterFromClass enterToClass enterDuration resolve in
  (exists w',
      visibility_effect ctl show w = Some (ctl, w')
      /\ log w'
         = log w
           ++ class_removes el (name ++ "-leave-active")
           ++ class_removes el (name ++ "-leave-to")
           ++ class_adds el enterActiveClass
           ++ class_adds el enterFromClass
           ++ (if isHTMLElement (els w el)
               then [OpSetDisplay el (originalDisplay ctl)] else [])
           ++ [OpRequestAnimationFrame (SecondFrame swap)]
      /\ frames w' = frames w ++ [SecondFrame swap]
      /\ style_display (els w' el)
         = (if isHTMLElement (els w el)
            then Some (originalDisplay ctl) else None))
  /\ (forall v,
        exists v' info,
          run_frame_callback swap v = Some (tt, v')
          /\ log v'
             = log v
               ++ class_removes el enterFromClass
               ++ class_adds el enterToClass
               ++ (if ToBoolean enterDuration
                   then [OpSetTimeout
                           (ResolveIfNotStale el (increment (endId v))
                              resolve) enterDuration]
                   else [])
               ++ [OpGetComputedStyle el;
                   OpSetTimeout (Fallback (List.length (waits v)))
                     (JNum (timeout info + 1)%float);
                   OpAddEventListener el (List.length (waits v))]
          /\ _endId (els v' el) = Some (increment (endId v)))
  /\ (forall v id,
        _endId (els v el) = Some id ->
        exists v',
          resolveIfNotStale el id resolve v = Some (tt, v')
          /\ log v'
             = log v
               ++ [OpResolve resolve]
               ++ class_removes el enterActiveClass
               ++ class_removes el enterToClass
          /\ style_display (els v' el) = style_display (els v el)).
Proof.
  intros Hm Hs el name enterFromClass enterActiveClass enterToClass
    enterDuration resolve swap.
  split; [| split].
  - exact (enter_branch_run ctl show w Hm Hs).
  - intros v.
    destruct (phase_swap_run el enterFromClass enterToClass enterDuration
                resolve v) as (v' & info & E & L & I & _).
    exists v', info. repeat split; assumption.
  - intros v id Hid.
    exact (resolve_enter_run el enterActiveClass enterToClass id v Hid).
Qed.

(** ** Further properties: the directive and its arguments *)

(** X2. Unless its argument is exactly [name] or [duration], the directive
    stores nothing: with no argument, the empty argument, [show] or any
    unknown argument it leaves the world as it is and registers an
    effect that is not yet mounted and remembers the inline display the
    element had. *)
Theorem other_arguments_bind_the_effect (el : Handle) (arg : option string)
  (value : JsVal) (w : World) :
  arg <> Some "name" -> arg <> Some "duration" ->
  transition el arg value w
  = Some (EffectRegistered
            {| ctl_el := el; mounted := false;
               originalDisplay := or_empty (style_display (els w el)) |},
          w).
Proof.
  intros Hn Hd. unfold transition, isTransitionArugument, argument_of_key.
  destruct arg as [a |]; [| reflexivity].
  destruct (String.eqb_spec a "name") as [-> | _]; [contradiction |].
  destruct (String.eqb_spec a "duration") as [-> | _]; [contradiction |].
  destruct (String.eqb a "show"), (negb (JsString.is_empty a));
    reflexivity.
Qed.

(** X3. Binding [name] registers no effect and changes nothing but [_name];
    the class prefix the effect then reads is the bound value converted
    to a string, except that [undefined] gives the default ["v"]. *)
Theorem bound_name_is_the_prefix (el : Handle) (value : JsVal) (w : World) :
  exists w',
    transition el (Some "name") value w = Some (ArgumentSaved, w')
    /\ name_of (els w' el)
       = match value with
         | JUndefined => DefautlTransitionName
         | _ => ToString value
         end
    /\ classList (els w' el) = classList (els w el)
    /\ style_display (els w' el) = style_display (els w el)
    /\ _duration (els w' el) = _duration (els w el)
    /\ _endId (els w' el) = _endId (els w el)
    /\ (forall h, h <> el -> els w' h = els w h)
    /\ log w' = log w /\ frames w' = frames w /\ timers w' = timers w.
Proof.
  eexists. split; [reflexivity |].
  cbn [els set_els log frames timers saveArgument update_el modify].
  rewrite update_at_same.
  split; [unfold name_of; cbn; destruct value; reflexivity |].
  do 4 (split; [reflexivity |]).
  split; [| repeat split].
  intros h Hh. unfold update_at.
  destruct (Nat.eqb_spec h el); [contradiction | reflexivity].
Qed.

(** X4. What is bound as [duration] is what the effect reads back: a value
    that is not an array is both the enter and the leave duration; of
    an array the first entry is the enter and the second the leave
    duration, [undefined] where the array is too short. *)
Theorem bound_duration_is_read_back (el : Handle) (value : JsVal)
  (w : World) :
  exists w',
    transition el (Some "duration") value w = Some (ArgumentSaved, w')
    /\ opt_index (duration_of (els w' el)) 0
       = match value with
         | JArr items => nth 0 items JUndefined
         | _ => value
         end
    /\ opt_index (duration_of (els w' el)) 1
       = match value with
         | JArr items => nth 1 items JUndefined
         | _ => value
         end
    /\ name_of (els w' el) = name_of (els w el)
    /\ log w' = log w.
Proof.
  eexists. split; [reflexivity |]. cbn. rewrite update_at_same.
  unfold duration_of, name_of. cbn.
  repeat split; destruct value; reflexivity.
Qed.


(** ** Further properties: reading times *)

Lemma slice_0_m1_app (x y : string) :
  y <> EmptyString ->
  JsString.slice_0_m1 (x ++ y) = (x ++ JsString.slice_0_m1 y)%string.
Proof.
  intros Hy. induction x as [| c r IH]; [reflexivity |].
  cbn [append JsString.slice_0_m1]. rewrite IH.
  destruct (r ++ y)%string eqn:E; [| reflexivity].
  destruct r; [cbn in E; contradiction | discriminate].
Qed.

Lemma slice_0_m1_last (s : string) (c : ascii) :
  JsString.slice_0_m1 (s ++ String c EmptyString) = s.
Proof.
  rewrite slice_0_m1_app by discriminate. cbn.
  induction s as [| a r IH]; cbn; [reflexivity | now rewrite IH].
Qed.

(** X12. [toMs] drops the last character without looking at it: the unit is
    taken to be the one-letter [s], whatever is written there. *)
Theorem toMs_ignores_the_last_character (s : string) (c c' : ascii) :
  toMs (s ++ String c EmptyString) = toMs (s ++ String c' EmptyString)
  /\ toMs (s ++ String c EmptyString)
     = (JsNumber.of_string (JsString.replace_comma s) * 1000)%float.
Proof.
  unfold toMs. now rewrite !slice_0_m1_last.
Qed.

Lemma replace_comma_lacks (s : string) :
  lacks "," s = true -> JsString.replace_comma s = s.
Proof.
  induction s as [| a r IH]; cbn; [reflexivity |].
  intros H. apply andb_prop in H as (Ha & Hr).
  destruct (Ascii.eqb a ","); [discriminate |]. now rewrite IH.
Qed.

Lemma replace_comma_first (a b : string) :
  lacks "," a = true ->
  JsString.replace_comma (a ++ String "," b) = (a ++ String "." b)%string.
Proof.
  induction a as [| c r IH]; cbn; [reflexivity |].
  intros H. apply andb_prop in H as (Hc & Hr).
  destruct (Ascii.eqb c ","); [discriminate |]. now rewrite IH.
Qed.

Lemma lacks_app (c : ascii) (a b : string) :
  lacks c (a ++ b) = lacks c a && lacks c b.
Proof.
  induction a as [| x r IH]; cbn; [reflexivity |].
  now rewrite IH, andb_assoc.
Qed.

Lemma lacks_slice_0_m1 (c : ascii) (s : string) :
  lacks c s = true -> lacks c (JsString.slice_0_m1 s) = true.
Proof.
  induction s as [| a r IH]; [reflexivity |].
  intros H. cbn in H. apply andb_prop in H as (Ha & Hr).
  destruct r as [| a' r']; [reflexivity |].
  change (JsString.slice_0_m1 (String a (String a' r')))
    with (String a (JsString.slice_0_m1 (String a' r'))).
  cbn [lacks]. now rewrite Ha, IH.
Qed.

(** X13. A time written with a decimal comma reads as the same time written
    with a decimal point. *)
Theorem toMs_reads_a_comma_as_a_point (a b : string) :
  lacks "," a = true -> lacks "," b = true ->
  toMs (a ++ String "," b) = toMs (a ++ String "." b).
Proof.
  intros Ha Hb. unfold toMs. do 2 f_equal.
  destruct b as [| c r].
  - rewrite !slice_0_m1_last. reflexivity.
  - rewrite !slice_0_m1_app by discriminate.
    change (JsString.slice_0_m1 (String "," (String c r)))
      with (String "," (JsString.slice_0_m1 (String c r))).
    change (JsString.slice_0_m1 (String "." (String c r)))
      with (String "." (JsString.slice_0_m1 (String c r))).
    rewrite replace_comma_first by exact Ha.
    symmetry. apply replace_comma_lacks.
    rewrite lacks_app, Ha. cbn [lacks andb].
    change (Ascii.eqb "." ",") with false. cbn [negb andb].
    now apply lacks_slice_0_m1.
Qed.

(** ** Further properties: what [getTransitionInfo] answers *)

(** X15. [getTransitionInfo] returns for every computed style, reads the
    style once and changes nothing else. Either it answers timeout 0
    and no property, or a timeout above 0 and as many properties as
    there are entries in [transitionDuration], at least one: the delay
    [timeout + 1] of the fallback timer is never [NaN] or negative. *)
Theorem getTransitionInfo_zero_or_positive (el : Handle) (w : World) :
  exists info,
    getTransitionInfo el w
    = Some (info, set_log w (log w ++ [OpGetComputedStyle el]))
    /\ ((timeout info = 0%float /\ propCount info = O)
        \/ (PrimFloat.ltb 0%float (timeout info) = true
            /\ propCount info
               = List.length
                   (JsString.split_comma_space
                      (or_empty
                         (transitionDuration (computedStyle (els w el)))))
            /\ 1 <= propCount info)).
Proof.
  destruct (transition_info_returns (computedStyle (els w el)))
    as (info & Hinfo).
  exists info. split; [now apply getTransitionInfo_run |].
  unfold transition_info in Hinfo.
  destruct (getTimeout _ _) as [t |]; [| discriminate].
  injection Hinfo as <-. cbn [timeout propCount].
  destruct (PrimFloat.ltb 0%float t) eqn:E; [right | left; now split].
  split; [exact E |]. split; [reflexivity |].
  destruct (JsString.split_comma_space
              (or_empty (transitionDuration (computedStyle (els w el)))))
    eqn:Es; [| cbn; lia].
  exfalso. exact (split_comma_space_from_not_nil _ _ Es).
Qed.

(** X16. Where the host computes no transition times (both fields
    [undefined] or empty, as under JSDOM), the answer is timeout 0 and
    no property to wait for. *)
Theorem unset_style_means_no_transition (styles : Styles) :
  unset (transitionDelay styles) = true ->
  unset (transitionDuration styles) = true ->
  exists info,
    transition_info styles = Some info
    /\ timeout info = 0%float /\ propCount info = O.
Proof.
  intros Hd Hu. unfold transition_info.
  assert (Ed : or_empty (transitionDelay styles) = EmptyString)
    by (destruct (transitionDelay styles) as [[| ? ?] |];
        [reflexivity | discriminate | reflexivity]).
  assert (Eu : or_empty (transitionDuration styles) = EmptyString)
    by (destruct (transitionDuration styles) as [[| ? ?] |];
        [reflexivity | discriminate | reflexivity]).
  rewrite Ed, Eu.
  change (getTimeout (JsString.split_comma_space EmptyString)
            (JsString.split_comma_space EmptyString))
    with (getTimeout [EmptyString] [EmptyString]).
  assert (Et : getTimeout [EmptyString] [EmptyString] = Some 0%float)
    by (vm_compute; reflexivity).
  rewrite Et. eexists. split; [reflexivity |]. split; reflexivity.
Qed.

(** ** Further properties: counting [transitionend] events *)

(** X17. An event whose target is another element (it bubbled up from a
    descendant) is not counted: [onEnd] leaves the world as it is. An
    event on the element itself that does not yet reach the number of
    properties only raises the counter: nothing is logged, no element
    changes and the listener stays. *)
Theorem events_below_the_count_only_count (i : nat) (wt : Wait)
  (target : Handle) (v : World) :
  nth_error (waits v) i = Some wt ->
  (target <> wait_el wt -> onEnd i target v = Some (tt, v))
  /\ (S (ended wt) < wait_propCount wt ->
      onEnd i (wait_el wt) v
      = Some (tt, set_waits v
                    (update_nth (set_ended (S (ended wt))) i (waits v)))).
Proof.
  intros Hnth. split.
  - intros Hne. unfold onEnd.
    rewrite (bind_run _ _ _ _ _ (read_wait_run _ _ _ Hnth)).
    destruct (Nat.eqb_spec target (wait_el wt)); [contradiction |].
    reflexivity.
  - intros Hlt. unfold onEnd.
    rewrite (bind_run _ _ _ _ _ (read_wait_run _ _ _ Hnth)).
    rewrite Nat.eqb_refl. cbn [bind update_wait modify].
    destruct (Nat.leb_spec (wait_propCount wt) (S (ended wt))); [lia |].
    reflexivity.
Qed.

Lemma run_resolve_run (resolve : Resolve) (v : World) :
  exists v' ops,
    run_resolve resolve v = Some (tt, v')
    /\ log v' = log v ++ ops /\ waits v' = waits v.
Proof.
  destruct resolve as [el a t | el a t]; cbn [run_resolve].
  - destruct (finish_run el a t None v) as (v1 & S1 & E1).
    destruct S1 as (L1 & _ & _ & _ & W1 & _).
    exists v1. eexists. split; [exact E1 |]. split; [exact L1 | exact W1].
  - destruct (finish_run el a t (Some (setElementDisplay el "none")) v)
      as (v1 & S1 & E1).
    destruct (setElementDisplay_run el "none" v1)
      as (v2 & E2 & L2 & _ & _ & W2).
    destruct S1 as (L1 & _ & _ & _ & W1 & _).
    exists v2. eexists. split; [now rewrite E1 |].
    split; [rewrite L2, L1, <- app_assoc; reflexivity | now rewrite W2].
Qed.

(** X18. The event that brings the counter to the number of properties
    removes the listener and then, the id being the live one, calls
    [resolve]. The wait is then spent: its fallback timer, when it comes
    due, does nothing. *)
Theorem the_last_event_resolves_once (i : nat) (wt : Wait) (v : World) :
  nth_error (waits v) i = Some wt ->
  wait_propCount wt <= S (ended wt) ->
  _endId (els v (wait_el wt)) = Some (wait_id wt) ->
  exists v' ops,
    onEnd i (wait_el wt) v = Some (tt, v')
    /\ log v'
       = log v
         ++ OpRemoveEventListener (wait_el wt) i
         :: OpResolve (wait_resolve wt) :: ops
    /\ nth_error (waits v') i
       = Some (set_listening false (set_ended (S (ended wt)) wt))
    /\ fallback i v' = Some (tt, v').
Proof.
  intros Hnth Hcount Hlive.
  set (v1 := set_waits v
               (update_nth (set_ended (S (ended wt))) i (waits v))).
  assert (Hnth1 : nth_error (waits v1) i
                  = Some (set_ended (S (ended wt)) wt))
    by (cbn; now apply nth_error_update_nth).
  set (v2 := set_waits
               (set_log v1
                  (log v1 ++ [OpRemoveEventListener (wait_el wt) i]))
               (update_nth (set_listening false) i (waits v1))).
  set (v3 := set_log v2 (log v2 ++ [OpResolve (wait_resolve wt)])).
  destruct (run_resolve_run (wait_resolve wt) v3)
    as (v' & ops & E & L & W).
  assert (Hnth' : nth_error (waits v') i
                  = Some (set_listening false
                            (set_ended (S (ended wt)) wt))).
  { rewrite W. cbn. now apply nth_error_update_nth. }
  exists v', ops. split; [| split; [| split]].
  - unfold onEnd.
    rewrite (bind_run _ _ _ _ _ (read_wait_run _ _ _ Hnth)).
    rewrite Nat.eqb_refl. cbn [bind update_wait modify]. fold v1.
    destruct (Nat.leb_spec (wait_propCount wt) (S (ended wt))); [| lia].
    cbn [when]. unfold end_.
    rewrite (bind_run _ _ _ _ _ (read_wait_run _ _ _ Hnth1)).
    cbn [wait_el wait_id wait_resolve set_ended].
    unfold removeEventListener.
    cbn [bind emit modify update_wait]. fold v2.
    rewrite resolveIfNotStale_live by exact Hlive.
    cbn [bind emit modify]. fold v3. exact E.
  - rewrite L. cbn. rewrite <- !app_assoc. reflexivity.
  - exact Hnth'.
  - unfold fallback.
    rewrite (bind_run _ _ _ _ _ (read_wait_run _ _ _ Hnth')).
    cbn [ended wait_propCount set_listening set_ended].
    destruct (Nat.ltb_spec (S (ended wt)) (wait_propCount wt)); [lia |].
    reflexivity.
Qed.

(** ** Further properties: a new wait supersedes the earlier ones *)

(** X19. Below 2^53, a call of [whenTransitionEnd] on an element makes every
    wait started earlier on that element stale: its listener and its
    fallback timer call [resolve] no more. The ids of the other elements
    are left as they are. *)
Theorem a_new_wait_supersedes_the_earlier_ones (el : Handle)
  (explicitTimeout : JsVal) (resolve : Resolve) (w : World) :
  (endId w < 2 ^ 53)%Z -> ids_bounded w ->
  exists w',
    whenTransitionEnd el explicitTimeout resolve w = Some (tt, w')
    /\ (forall i wt,
          nth_error (waits w) i = Some wt -> wait_el wt = el ->
          nth_error (waits w') i = Some wt
          /\ (exists v, run_timer_callback (Fallback i) w' = Some (tt, v)
                        /\ not_resolved w' v)
          /\ (forall target,
                exists v, onEnd i target w' = Some (tt, v)
                          /\ not_resolved w' v))
    /\ (forall h, h <> el -> _endId (els w' h) = _endId (els w h)).
Proof.
  intros Hsafe (He & Hw).
  destruct (whenTransitionEnd_run el explicitTimeout resolve w)
    as (info & _ & E).
  exists (wait_started el explicitTimeout resolve info w).
  split; [exact E |]. split.
  - intros i wt Hnth Hel.
    assert (Hnth' : nth_error
                      (waits (wait_started el explicitTimeout resolve
                                info w)) i = Some wt).
    { cbn. rewrite nth_error_app1; [exact Hnth |].
      apply nth_error_Some. congruence. }
    assert (Hstale : _endId
                       (els (wait_started el explicitTimeout resolve
                               info w) (wait_el wt))
                     <> Some (wait_id wt)).
    { rewrite Hel. cbn. rewrite update_at_same. cbn.
      rewrite (increment_safe _ Hsafe). intros [= H].
      pose proof (Hw wt (nth_error_In _ _ Hnth)). lia. }
    split; [exact Hnth' |]. split.
    + cbn [run_timer_callback]. exact (fallback_stale i wt _ Hnth' Hstale).
    + intros target. exact (onEnd_stale i wt target _ Hnth' Hstale).
  - intros h Hh. cbn. unfold update_at.
    destruct (Nat.eqb_spec h el); [contradiction | reflexivity].
Qed.

(** ** Further properties: two frames *)

(** X20. With no other frame callback pending, the callback given to
    [nextFrame] is not run by the next animation frame, which only
    requests it again; the frame after that runs it. *)
Theorem nextFrame_runs_in_the_second_frame (cb : FrameCallback) (w : World) :
  frames w = [] ->
  exists w1,
    (nextFrame cb ;; animation_frame) w = Some (tt, w1)
    /\ frames w1 = [cb]
    /\ log w1
       = log w ++ [OpRequestAnimationFrame (SecondFrame cb);
                   OpRequestAnimationFrame cb]
    /\ els w1 = els w /\ timers w1 = timers w /\ waits w1 = waits w
    /\ animation_frame w1
       = (run_frame_callback cb ;; ret tt) (set_frames w1 []).
Proof.
  intros H. destruct w as [e n f t wa l]. cbn in H. subst f.
  eexists. split; [reflexivity |]. cbn.
  rewrite <- app_assoc. repeat split.
Qed.

(** ** Further properties: [hasTransform] *)

Lemma string_app_assoc (a b c : string) :
  ((a ++ b) ++ c = a ++ (b ++ c))%string.
Proof. induction a as [| x r IH]; cbn; [reflexivity | now rewrite IH]. Qed.

Lemma test_at_the_start (s : string) :
  transform_or_all_here s = true -> test_transform_or_all false s = true.
Proof.
  intros H. destruct s; cbn [test_transform_or_all negb andb];
    now rewrite H.
Qed.

Lemma test_after_a_space (x s : string) :
  test_transform_or_all false s = true ->
  forall b, test_transform_or_all b (x ++ String " " s) = true.
Proof.
  intros H. induction x as [| a r IH]; intros b.
  - cbn [append test_transform_or_all].
    change (is_word " ") with false. rewrite H. apply orb_true_r.
  - cbn [append test_transform_or_all]. rewrite IH. apply orb_true_r.
Qed.

Lemma listed_keyword_is_found (t : string) :
  transform_or_all_here t = true ->
  (forall s, transform_or_all_here (t ++ String "," s) = true) ->
  forall props,
    In t props ->
    test_transform_or_all false (join_comma_space props) = true.
Proof.
  intros Hend Hcomma props. induction props as [| p rest IH]; [intros [] |].
  intros [-> | Hin].
  - apply test_at_the_start. destruct rest as [| q rest'].
    + exact Hend.
    + cbn [join_comma_space]. apply Hcomma.
  - destruct rest as [| q rest']; [destruct Hin |].
    change (join_comma_space (p :: q :: rest'))
      with (p ++ String "," (String " " (join_comma_space (q :: rest'))))%string.
    change (String "," (String " " (join_comma_space (q :: rest'))))
      with (String "," EmptyString
            ++ String " " (join_comma_space (q :: rest')))%string.
    rewrite <- string_app_assoc.
    apply test_after_a_space. exact (IH Hin).
Qed.

(** X21. [hasTransform] is true whenever [transform] or [all] is an entry of
    the computed [transitionProperty] list, and false when the host
    gives no [transitionProperty] at all. *)
Theorem hasTransform_finds_transform_and_all (styles : Styles) :
  exists info,
    transition_info styles = Some info
    /\ (transitionProperty styles = None -> hasTransform info = false)
    /\ (forall props,
          transitionProperty styles = Some (join_comma_space props) ->
          In "transform" props \/ In "all" props ->
          hasTransform info = true).
Proof.
  destruct (transition_info_returns styles) as (info & Hinfo).
  exists info. split; [exact Hinfo |].
  unfold transition_info in Hinfo.
  destruct (getTimeout _ _) as [t |]; [| discriminate].
  injection Hinfo as <-. cbn [hasTransform]. split.
  - intros ->. reflexivity.
  - intros props -> [H | H].
    + apply (listed_keyword_is_found "transform");
        [reflexivity | intros s; reflexivity | exact H].
    + apply (listed_keyword_is_found "all");
        [reflexivity | intros s; reflexivity | exact H].
Qed.

(** ** Further properties: a whole phase, uninterrupted *)

Lemma addTransitionClass_full (el : Handle) (cls : string) (w : World) :
  exists w',
    addTransitionClass el cls w = Some (tt, w')
    /\ classList (els w' el) = add_tokens (classList (els w el)) (tokens cls)
    /\ classes_only (class_adds el cls) w w'.
Proof.
  destruct (addTransitionClass_classList el cls w) as (w' & E & C).
  destruct (addTransitionClass_run el cls w) as (w2 & E2 & S2).
  rewrite E in E2. injection E2 as <-.
  exists w'. split; [exact E |]. split; [exact C | exact S2].
Qed.

Lemma removeTransitionClass_full (el : Handle) (cls : string) (w : World) :
  exists w',
    removeTransitionClass el cls w = Some (tt, w')
    /\ classList (els w' el)
       = remove_tokens (classList (els w el)) (tokens cls)
    /\ classes_only (class_removes el cls) w w'.
Proof.
  destruct (removeTransitionClass_classList el cls w) as (w' & E & C).
  destruct (removeTransitionClass_run el cls w) as (w2 & E2 & S2).
  rewrite E in E2. injection E2 as <-.
  exists w'. split; [exact E |]. split; [exact C | exact S2].
Qed.

(** What the element looks like after a step: its class list, and that
    display, counter and live id are those of before. *)
Lemma classes_only_keeps (ops : list Op) (w w' : World) (el : Handle) :
  classes_only ops w w' ->
  style_display (els w' el) = style_display (els w el)
  /\ endId w' = endId w
  /\ _endId (els w' el) = _endId (els w el).
Proof.
  intros (_ & I & _ & _ & _ & D).
  destruct (D el) as (Hd & _ & _ & _ & Hi). repeat split; assumption.
Qed.

Lemma finish_full (el : Handle) (activeClass toClass : string)
  (done : option (M unit)) (w : World) :
  exists w',
    finish el activeClass toClass done w
    = match done with Some f => f w' | None => Some (tt, w') end
    /\ classList (els w' el)
       = remove_tokens
           (remove_tokens (classList (els w el)) (tokens activeClass))
           (tokens toClass)
    /\ style_display (els w' el) = style_display (els w el)
    /\ endId w' = endId w
    /\ _endId (els w' el) = _endId (els w el).
Proof.
  destruct (removeTransitionClass_full el activeClass w)
    as (w1 & E1 & C1 & S1).
  destruct (removeTransitionClass_full el toClass w1)
    as (w2 & E2 & C2 & S2).
  destruct (classes_only_keeps _ _ _ el S1) as (D1 & I1 & J1).
  destruct (classes_only_keeps _ _ _ el S2) as (D2 & I2 & J2).
  exists w2. split.
  - unfold finish. rewrite (bind_run _ _ _ _ _ E1), (bind_run _ _ _ _ _ E2).
    destruct done; reflexivity.
  - rewrite C2, C1, D2, D1, I2, I1, J2, J1. repeat split.
Qed.

Lemma phase_swap_full (el : Handle) (fromClass toClass : string)
  (duration : JsVal) (resolve : Resolve) (w : World) :
  exists w',
    run_frame_callback (PhaseSwap el fromClass toClass duration resolve) w
    = Some (tt, w')
    /\ classList (els w' el)
       = add_tokens
           (remove_tokens (classList (els w el)) (tokens fromClass))
           (tokens toClass)
    /\ style_display (els w' el) = style_display (els w el)
    /\ _endId (els w' el) = Some (increment (endId w)).
Proof.
  cbn [run_frame_callback].
  destruct (removeTransitionClass_full el fromClass w)
    as (w1 & E1 & C1 & S1).
  destruct (addTransitionClass_full el toClass w1) as (w2 & E2 & C2 & S2).
  destruct (whenTransitionEnd_run el duration resolve w2)
    as (info & _ & E3).
  destruct (classes_only_keeps _ _ _ el S1) as (D1 & I1 & _).
  destruct (classes_only_keeps _ _ _ el S2) as (D2 & I2 & _).
  exists (wait_started el duration resolve info w2). split.
  - rewrite (bind_run _ _ _ _ _ E1), (bind_run _ _ _ _ _ E2). exact E3.
  - cbn [els wait_started]. rewrite update_at_same. cbn.
    rewrite C2, C1, D2, D1, I2, I1. repeat split.
Qed.

(** The classes a leave that nothing interrupts ends with, one by
    one. *)
Lemma uninterrupted_leave_classes (ctl : Controller) (show : JsVal)
  (w : World) :
  mounted ctl = true -> ToBoolean show = false ->
  let el := ctl_el ctl in
  let name := name_of (els w el) in
  let leaveFromClass := (name ++ "-leave-from")%string in
  let leaveActiveClass := (name ++ "-leave-active")%string in
  let leaveToClass := (name ++ "-leave-to")%string in
  let resolve := ResolveLeave el leaveActiveClass leaveToClass in
  let swap :=
    PhaseSwap el leaveFromClass leaveToClass
      (opt_index (duration_of (els w el)) 1) resolve in
  exists w',
    (visibility_effect ctl show ;;
     run_frame_callback (SecondFrame swap) ;;
     run_frame_callback swap ;;
     resolveIfNotStale el (increment (endId w)) resolve) w
    = Some (tt, w')
    /\ (forall c,
          In c (classList (els w' el))
          <-> In c (classList (els w el))
              /\ ~ In c (tokens (name ++ "-enter-active"))
              /\ ~ In c (tokens (name ++ "-enter-to"))
              /\ ~ In c (tokens leaveFromClass)
              /\ ~ In c (tokens leaveActiveClass)
              /\ ~ In c (tokens leaveToClass))
    /\ style_display (els w' el)
       = (if isHTMLElement (els w el) then Some "none" else None).
Proof.
  intros Hm Hs el name leaveFromClass leaveActiveClass leaveToClass
    resolve swap.
  destruct (finish_full el (name ++ "-enter-active") (name ++ "-enter-to")
              None w) as (w1 & E1 & C1 & D1 & I1 & _).
  destruct (addTransitionClass_full el leaveFromClass w1)
    as (w2 & E2 & C2 & S2).
  destruct (classes_only_keeps _ _ _ el S2) as (D2 & I2 & _).
  destruct (addTransitionClass_full el leaveActiveClass
              (set_log w2 (log w2 ++ [OpReflow]))) as (w3 & E3 & C3 & S3).
  destruct (classes_only_keeps _ _ _ el S3) as (D3 & I3 & _).
  cbn [els endId set_log] in C3, D3, I3.
  set (w4 := set_frames
               (set_log w3
                  (log w3 ++ [OpRequestAnimationFrame (SecondFrame swap)]))
               (frames w3 ++ [SecondFrame swap])).
  set (w5 := set_frames
               (set_log w4 (log w4 ++ [OpRequestAnimationFrame swap]))
               (frames w4 ++ [swap])).
  destruct (phase_swap_full el leaveFromClass leaveToClass
              (opt_index (duration_of (els w el)) 1) resolve w5)
    as (w6 & E6 & C6 & D6 & J6).
  cbn [els endId w5 w4 set_frames set_log] in C6, D6, J6.
  rewrite I3, I2, I1 in J6.
  set (w7 := set_log w6 (log w6 ++ [OpResolve resolve])).
  destruct (finish_full el leaveActiveClass leaveToClass
              (Some (setElementDisplay el "none")) w7)
    as (w8 & E8 & C8 & D8 & _).
  cbn [els w7 set_log] in C8, D8.
  destruct (setElementDisplay_run el "none" w8)
    as (w9 & E9 & _ & _ & D9 & _).
  assert (Hrun : visibility_effect ctl show w = Some (ctl, w4)).
  { unfold visibility_effect. rewrite Hm, Hs. cbn [negb].
    unfold bind at 1. cbn [read_el bind get ret]. fold el. fold name.
    unfold bind at 1. unfold bind at 1.
    fold leaveFromClass leaveActiveClass leaveToClass. rewrite E1.
    unfold bind at 1. rewrite E2.
    unfold bind at 1. cbn [forceReflow emit modify].
    unfold bind at 1. rewrite E3. reflexivity. }
  exists w9. split; [| split].
  - assert (H5 : run_frame_callback (SecondFrame swap) w4 = Some (tt, w5))
      by reflexivity.
    rewrite (bind_run _ _ _ _ _ Hrun), (bind_run _ _ _ _ _ H5),
      (bind_run _ _ _ _ _ E6).
    rewrite resolveIfNotStale_live by exact J6.
    cbn [bind emit modify]. fold w7.
    change (run_resolve resolve w7)
      with (finish el leaveActiveClass leaveToClass
              (Some (setElementDisplay el "none")) w7).
    rewrite E8. exact E9.
  - intros c.
    assert (Hc : classList (els w9 el) = classList (els w8 el)).
    { clear - E9. unfold setElementDisplay in E9.
      cbn [read_el bind get ret] in E9.
      destruct (isHTMLElement (els w8 el)); cbn in E9;
        injection E9 as <-; [| reflexivity].
      cbn. now rewrite update_at_same. }
    rewrite Hc, C8, C6, C3, C2, C1.
    rewrite !remove_tokens_In, !add_tokens_In, !remove_tokens_In,
      !add_tokens_In, !remove_tokens_In.
    tauto.
  - rewrite D9. unfold isHTMLElement. now rewrite D8, D6, D3, D2, D1.
Qed.

(** The classes an enter that nothing interrupts ends with, one by
    one. *)
Lemma uninterrupted_enter_classes (ctl : Controller) (show : JsVal)
  (w : World) :
  mounted ctl = true -> ToBoolean show = true ->
  let el := ctl_el ctl in
  let name := name_of (els w el) in
  let enterFromClass := (name ++ "-enter-from")%string in
  let enterActiveClass := (name ++ "-enter-active")%string in
  let enterToClass := (name ++ "-enter-to")%string in
  let resolve := ResolveEnter el enterActiveClass enterToClass in
  let swap :=
    PhaseSwap el enterFromClass enterToClass
      (opt_index (duration_of (els w el)) 0) resolve in
  exists w',
    (visibility_effect ctl show ;;
     run_frame_callback (SecondFrame swap) ;;
     run_frame_callback swap ;;
     resolveIfNotStale el (increment (endId w)) resolve) w
    = Some (tt, w')
    /\ (forall c,
          In c (classList (els w' el))
          <-> In c (classList (els w el))
              /\ ~ In c (tokens (name ++ "-leave-active"))
              /\ ~ In c (tokens (name ++ "-leave-to"))
              /\ ~ In c (tokens enterFromClass)
              /\ ~ In c (tokens enterActiveClass)
              /\ ~ In c (tokens enterToClass))
    /\ style_display (els w' el)
       = (if isHTMLElement (els w el)
          then Some (originalDisplay ctl) else None).
Proof.
  intros Hm Hs el name enterFromClass enterActiveClass enterToClass
    resolve swap.
  destruct (finish_full el (name ++ "-leave-active") (name ++ "-leave-to")
              None w) as (w1 & E1 & C1 & D1 & I1 & _).
  destruct (addTransitionClass_full el enterActiveClass w1)
    as (w2 & E2 & C2 & S2).
  destruct (classes_only_keeps _ _ _ el S2) as (D2 & I2 & _).
  destruct (addTransitionClass_full el enterFromClass w2)
    as (w3 & E3 & C3 & S3).
  destruct (classes_only_keeps _ _ _ el S3) as (D3 & I3 & _).
  destruct (setElementDisplay_run el (originalDisplay ctl) w3)
    as (w3' & E3' & _ & _ & D3' & _).
  assert (C3' : classList (els w3' el) = classList (els w3 el)
                /\ endId w3' = endId w3).
  { clear - E3'. unfold setElementDisplay in E3'.
    cbn [read_el bind get ret] in E3'.
    destruct (isHTMLElement (els w3 el)); cbn in E3';
      injection E3' as <-; [| split; reflexivity].
    cbn. rewrite update_at_same. split; reflexivity. }
  destruct C3' as (C3' & I3').
  set (w4 := set_frames
               (set_log w3'
                  (log w3' ++ [OpRequestAnimationFrame (SecondFrame swap)]))
               (frames w3' ++ [SecondFrame swap])).
  set (w5 := set_frames
               (set_log w4 (log w4 ++ [OpRequestAnimationFrame swap]))
               (frames w4 ++ [swap])).
  destruct (phase_swap_full el enterFromClass enterToClass
              (opt_index (duration_of (els w el)) 0) resolve w5)
    as (w6 & E6 & C6 & D6 & J6).
  cbn [els endId w5 w4 set_frames set_log] in C6, D6, J6.
  rewrite I3', I3, I2, I1 in J6.
  set (w7 := set_log w6 (log w6 ++ [OpResolve resolve])).
  destruct (finish_full el enterActiveClass enterToClass None w7)
    as (w8 & E8 & C8 & D8 & _).
  cbn [els w7 set_log] in C8, D8.
  assert (Hrun : visibility_effect ctl show w = Some (ctl, w4)).
  { unfold visibility_effect. rewrite Hm, Hs. cbn [negb].
    unfold bind at 1. cbn [read_el bind get ret]. fold el. fold name.
    unfold bind at 1. unfold bind at 1.
    fold enterFromClass enterActiveClass enterToClass. rewrite E1.
    unfold bind at 1. rewrite E2.
    unfold bind at 1. rewrite E3.
    unfold bind at 1. rewrite E3'. reflexivity. }
  exists w8. split; [| split].
  - assert (H5 : run_frame_callback (SecondFrame swap) w4 = Some (tt, w5))
      by reflexivity.
    rewrite (bind_run _ _ _ _ _ Hrun), (bind_run _ _ _ _ _ H5),
      (bind_run _ _ _ _ _ E6).
    rewrite resolveIfNotStale_live by exact J6.
    cbn [bind emit modify]. fold w7.
    change (run_resolve resolve w7)
      with (finish el enterActiveClass enterToClass None w7).
    exact E8.
  - intros c.
    rewrite C8, C6, C3', C3, C2, C1.
    rewrite !remove_tokens_In, !add_tokens_In, !remove_tokens_In,
      !add_tokens_In, !remove_tokens_In.
    tauto.
  - rewrite D8, D6, D3'. unfold isHTMLElement. now rewrite D3, D2, D1.
Qed.

Lemma string_app_nil_r (a : string) : (a ++ EmptyString)%string = a.
Proof. induction a as [| x r IH]; cbn; [reflexivity | now rewrite IH]. Qed.

Lemma string_app_inv_head (a b c : string) :
  (a ++ b)%string = (a ++ c)%string -> b = c.
Proof.
  induction a as [| x r IH]; cbn; [trivial |]. intros [= H]. now apply IH.
Qed.

Lemma split_spaces_from_no_space (s : string) :
  forall cur, no_space s = true ->
              JsString.split_spaces_from cur false s = [(cur ++ s)%string].
Proof.
  induction s as [| a r IH]; intros cur H; cbn [JsString.split_spaces_from].
  - now rewrite string_app_nil_r.
  - cbn [no_space] in H. apply andb_true_iff in H as (Ha & Hr).
    apply negb_true_iff in Ha. rewrite Ha, (IH _ Hr).
    now rewrite string_app_assoc.
Qed.

(** A class string without white space is its own single token. *)
Lemma class_of_name_tokens (name suffix : string) (a : ascii) :
  no_space name = true -> no_space (String a suffix) = true ->
  tokens (name ++ String a suffix)
  = [(name ++ String a suffix)%string].
Proof.
  intros Hn Hs. unfold tokens, JsString.split_spaces.
  rewrite split_spaces_from_no_space
    by (rewrite no_space_app, Hn, Hs; reflexivity).
  cbn [append filter]. destruct name; reflexivity.
Qed.

Lemma other_class_of_name (name suffix suffix' : string) (a a' : ascii) :
  no_space name = true -> no_space (String a' suffix') = true ->
  String a suffix <> String a' suffix' ->
  ~ In (name ++ String a suffix)%string (tokens (name ++ String a' suffix')).
Proof.
  intros Hn Hs Hne. rewrite (class_of_name_tokens name suffix' a' Hn Hs).
  intros [H | []]. apply string_app_inv_head in H. now apply Hne.
Qed.

(** X24. A leave that nothing interrupts (the effect, the two frames, a
    completion with the id of its wait) ends with the classes the
    element had before, less the tokens of five of the six classes of
    its name: [name-enter-active] and [name-enter-to], which
    [finishEnter] removes, and [name-leave-from], [name-leave-active]
    and [name-leave-to]. The sixth, [name-enter-from], is removed by no
    step of a leave: an element that carried it still carries it. The
    inline display ends as ["none"] where the element has inline
    styles. *)
Theorem an_uninterrupted_leave_ends_clean (ctl : Controller) (show : JsVal)
  (w : World) :
  mounted ctl = true -> ToBoolean show = false ->
  let el := ctl_el ctl in
  let name := name_of (els w el) in
  let leaveFromClass := (name ++ "-leave-from")%string in
  let leaveActiveClass := (name ++ "-leave-active")%string in
  let leaveToClass := (name ++ "-leave-to")%string in
  let resolve := ResolveLeave el leaveActiveClass leaveToClass in
  let swap :=
    PhaseSwap el leaveFromClass leaveToClass
      (opt_index (duration_of (els w el)) 1) resolve in
  exists w',
    (visibility_effect ctl show ;;
     run_frame_callback (SecondFrame swap) ;;
     run_frame_callback swap ;;
     resolveIfNotStale el (increment (endId w)) resolve) w
    = Some (tt, w')
    /\ (forall c,
          In c (classList (els w' el))
          <-> In c (classList (els w el))
              /\ ~ In c (tokens (name ++ "-enter-active"))
              /\ ~ In c (tokens (name ++ "-enter-to"))
              /\ ~ In c (tokens leaveFromClass)
              /\ ~ In c (tokens leaveActiveClass)
              /\ ~ In c (tokens leaveToClass))
    /\ (no_space name = true ->
        In (name ++ "-enter-from")%string (classList (els w el)) ->
        In (name ++ "-enter-from")%string (classList (els w' el)))
    /\ style_display (els w' el)
       = (if isHTMLElement (els w el) then Some "none" else None).
Proof.
  intros Hm Hs el name leaveFromClass leaveActiveClass leaveToClass
    resolve swap.
  destruct (uninterrupted_leave_classes ctl show w Hm Hs)
    as (w' & E & Hc & Hd).
  exists w'. split; [exact E |]. split; [exact Hc |].
  split; [| exact Hd].
  intros Hn Hin. apply Hc. split; [exact Hin |].
  repeat split;
    (apply other_class_of_name; [exact Hn | reflexivity | discriminate]).
Qed.

(** X25. An enter that nothing interrupts (the effect, the two frames, a
    completion with the id of its wait) ends with the classes the
    element had before, less the tokens of five of the six classes of
    its name: [name-leave-active] and [name-leave-to], which
    [finishLeave] removes, and [name-enter-from], [name-enter-active]
    and [name-enter-to]. The sixth, [name-leave-from], is removed by no
    step of an enter: an element that carried it still carries it. The
    inline display ends as the original one where the element has inline
    styles. *)
Theorem an_uninterrupted_enter_ends_clean (ctl : Controller) (show : JsVal)
  (w : World) :
  mounted ctl = true -> ToBoolean show = true ->
  let el := ctl_el ctl in
  let name := name_of (els w el) in
  let enterFromClass := (name ++ "-enter-from")%string in
  let enterActiveClass := (name ++ "-enter-active")%string in
  let enterToClass := (name ++ "-enter-to")%string in
  let resolve := ResolveEnter el enterActiveClass enterToClass in
  let swap :=
    PhaseSwap el enterFromClass enterToClass
      (opt_index (duration_of (els w el)) 0) resolve in
  exists w',
    (visibility_effect ctl show ;;
     run_frame_callback (SecondFrame swap) ;;
     run_frame_callback swap ;;
     resolveIfNotStale el (increment (endId w)) resolve) w
    = Some (tt, w')
    /\ (forall c,
          In c (classList (els w' el))
          <-> In c (classList (els w el))
              /\ ~ In c (tokens (name ++ "-leave-active"))
              /\ ~ In c (tokens (name ++ "-leave-to"))
              /\ ~ In c (tokens enterFromClass)
              /\ ~ In c (tokens enterActiveClass)
              /\ ~ In c (tokens enterToClass))
    /\ (no_space name = true ->
        In (name ++ "-leave-from")%string (classList (els w el)) ->
        In (name ++ "-leave-from")%string (classList (els w' el)))
    /\ style_display (els w' el)
       = (if isHTMLElement (els w el)
          then Some (originalDisplay ctl) else None).
Proof.
  intros Hm Hs el name enterFromClass enterActiveClass enterToClass
    resolve swap.
  destruct (uninterrupted_enter_classes ctl show w Hm Hs)
    as (w' & E & Hc & Hd).
  exists w'. split; [exact E |]. split; [exact Hc |].
  split; [| exact Hd].
  intros Hn Hin. apply Hc. split; [exact Hin |].
  repeat split;
    (apply other_class_of_name; [exact Hn | reflexivity | discriminate]).
Qed.

(** ** Further properties: [getTimeout] on empty lists *)

(** X14. Without durations [getTimeout] returns [-Infinity], the maximum of
    nothing, whatever the delays. Without delays and with a duration its
    loop doubles the empty list for ever: it has not ended after any
    number of rounds. *)
Theorem getTimeout_on_empty_lists :
  (forall delays, getTimeout delays [] = Some PrimFloat.neg_infinity)
  /\ (forall durations fuel,
        durations <> [] -> getTimeout_fuel fuel [] durations = None).
Proof.
  split.
  - intros delays. unfold getTimeout, getTimeout_fuel. cbn.
    destruct delays; reflexivity.
  - intros durations fuel H. unfold getTimeout_fuel.
    now rewrite repeat_delays_no_delays.
Qed.

(** ** Further properties: ids under any schedule *)

(** X23. Whatever the host does and in whatever order (bindings, runs of the
    effect, cleanups, frames, timers, [transitionend] events), no id
    held by an element or captured by a wait exceeds the counter, and
    the counter never decreases. *)
Theorem ids_stay_bounded_whatever_the_host_does (evs : list HostEvent)
  (w w' : World) :
  ids_bounded w -> run_events evs w = Some (tt, w') ->
  ids_bounded w' /\ (endId w <= endId w')%Z.
Proof.
  intros Hb H. induction evs as [| ev r IH] in w, Hb, H |- *.
  - injection H as <-. split; [exact Hb | lia].
  - unfold run_events in H. cbn [forEach] in H. unfold bind in H.
    destruct (run_event ev w) as [[[] w1] |] eqn:E; [| discriminate].
    destruct (keeps_run_event ev w tt w1 Hb E) as (Hb1 & Hle1).
    destruct (IH w1 Hb1 H) as (Hb2 & Hle2).
    split; [exact Hb2 | lia].
Qed.

End Directive.

(** ** Concrete runs *)

(** C9. For the delays ["0s", "0.1s"] and the durations
    ["0.2s", "0.3s"], [getTimeout] returns 400; with these computed
    values [getTransitionInfo] reports two properties and the timeout
    400; [toMs] reads "0,3s" as 300. *)
Theorem C9_timeout_400_two_properties :
  getTimeout ["0s"; "0.1s"] ["0.2s"; "0.3s"] = Some 400%float
  /\ (exists info w',
        getTransitionInfo two_properties 0 fresh_world = Some (info, w')
        /\ propCount info = 2 /\ timeout info = 400%float)
  /\ toMs "0,3s" = 300%float.
Proof.
  split; [vm_compute; reflexivity |].
  split; [| vm_compute; reflexivity].
  do 2 eexists. split; [vm_compute; reflexivity |].
  split; reflexivity.
Qed.

(** C1, at two concrete runs with a 300ms opacity transition.
    Shown and hidden again before the next frame: when nothing is
    pending any more the class list still holds [v-enter-to], a class
    of the superseded enter. Hidden, then shown again while the
    fallback timer of the leave is pending: that timer calls the
    [resolve] of the leave after the enter has begun, and the element
    ends with [display: none] although it was last shown. *)
Theorem C1_superseded_phase_not_cancelled :
  (exists w',
      run_events no_digits opacity_300ms show_then_hide fresh_world
      = Some (tt, w')
      /\ classList (els w' 0) = ["v-enter-to"]
      /\ frames w' = [] /\ timers w' = []
      /\ forallb (fun wt => negb (listening wt)) (waits w') = true)
  /\ (exists w' before after,
        run_events no_digits opacity_300ms hide_then_show fresh_world
        = Some (tt, w')
        /\ style_display (els w' 0) = Some "none"
        /\ classList (els w' 0) = []
        /\ frames w' = [] /\ timers w' = []
        /\ log w'
           = before
             ++ OpResolve (ResolveLeave 0 "v-leave-active" "v-leave-to")
             :: after
        /\ In (OpClassAdd 0 "v-enter-active") before
        /\ In (OpSetDisplay 0 "none") after).
Proof.
  split.
  - eexists. split; [vm_compute; reflexivity |].
    repeat split; reflexivity.
  - eexists.
    exists
      [OpSetDisplay 0 ""; OpClassRemove 0 "v-enter-active";
       OpClassRemove 0 "v-enter-to"; OpClassAdd 0 "v-leave-from";
       OpReflow; OpClassAdd 0 "v-leave-active";
       OpRequestAnimationFrame
         (SecondFrame
            (PhaseSwap 0 "v-leave-from" "v-leave-to" JUndefined
               (ResolveLeave 0 "v-leave-active" "v-leave-to")));
       OpRequestAnimationFrame
         (PhaseSwap 0 "v-leave-from" "v-leave-to" JUndefined
            (ResolveLeave 0 "v-leave-active" "v-leave-to"));
       OpClassRemove 0 "v-leave-from"; OpClassAdd 0 "v-leave-to";
       OpGetComputedStyle 0; OpSetTimeout (Fallback 0) (JNum 301%float);
       OpAddEventListener 0 0; OpClassRemove 0 "v-leave-active";
       OpClassRemove 0 "v-leave-to"; OpClassAdd 0 "v-enter-active";
       OpClassAdd 0 "v-enter-from"; OpSetDisplay 0 "";
       OpRequestAnimationFrame
         (SecondFrame
            (PhaseSwap 0 "v-enter-from" "v-enter-to" JUndefined
               (ResolveEnter 0 "v-enter-active" "v-enter-to")));
       OpRemoveEventListener 0 0].
    eexists. split; [vm_compute; reflexivity |].
    repeat split; try reflexivity.
    + cbn. tauto.
    + cbn. tauto.
Qed.

(** C2, at a concrete run. With a style that gives no transition
    (and just as well with one of zero seconds) a hidden element waits
    for zero properties: the fallback timer comes due and does not call
    [resolve]. Nothing is pending afterwards, the listener stays
    registered, the leave classes stay on and the element stays
    displayed. *)
Theorem C2_fallback_never_resolves :
  (exists w',
      run_events no_digits no_transition hide_once fresh_world
      = Some (tt, w')
      /\ existsb is_resolve (log w') = false
      /\ frames w' = [] /\ timers w' = []
      /\ waits w'
         = [{| wait_el := 0; wait_id := 1;
               wait_resolve := ResolveLeave 0 "v-leave-active" "v-leave-to";
               wait_propCount := 0; ended := 0; listening := true |}]
      /\ classList (els w' 0) = ["v-leave-active"; "v-leave-to"]
      /\ style_display (els w' 0) = Some "")
  /\ (exists w',
        run_events no_digits zero_seconds hide_once fresh_world
        = Some (tt, w')
        /\ existsb is_resolve (log w') = false
        /\ frames w' = [] /\ timers w' = []
        /\ classList (els w' 0) = ["v-leave-active"; "v-leave-to"]
        /\ style_display (els w' 0) = Some "").
Proof.
  split; eexists; (split; [vm_compute; reflexivity |]);
    repeat split; reflexivity.
Qed.

(** C4 fails as stated: with the explicit duration 500 the style is
    read, the fallback timer is set and the listener is added. *)
Lemma C4_counterexample :
  exists w',
    whenTransitionEnd opacity_300ms 0 (JNum 500%float)
      (ResolveEnter 0 "v-enter-active" "v-enter-to") fresh_world
    = Some (tt, w')
    /\ log w'
       = [OpSetTimeout
            (ResolveIfNotStale 0 1
               (ResolveEnter 0 "v-enter-active" "v-enter-to"))
            (JNum 500%float);
          OpGetComputedStyle 0;
          OpSetTimeout (Fallback 0) (JNum 301%float);
          OpAddEventListener 0 0]
    /\ filter is_introspection (log w')
       = [OpGetComputedStyle 0;
          OpSetTimeout (Fallback 0) (JNum 301%float);
          OpAddEventListener 0 0].
Proof.
  eexists. split; [vm_compute; reflexivity |]. split; reflexivity.
Qed.

(** C7 fails as stated when the durations are the shorter list: for the
    delays ["0s", "5s"] and the single duration "1s" the code returns
    1000, not the 6000 of both lists cycled to length two. *)
Lemma C7_counterexample :
  getTimeout ["0s"; "5s"] ["1s"] = Some 1000%float
  /\ timeout_both_cycled ["0s"; "5s"] ["1s"] = 6000%float
  /\ getTimeout ["0s"; "5s"] ["1s"]
     <> Some (timeout_both_cycled ["0s"; "5s"] ["1s"]).
Proof.
  split; [vm_compute; reflexivity |].
  split; [vm_compute; reflexivity |].
  intros H.
  apply (f_equal (fun o => match o with
                           | Some x => PrimFloat.eqb x 1000%float
                           | None => false
                           end)) in H.
  vm_compute in H. discriminate.
Qed.

(** C8 fails as stated for an array that is not a pair: the one-element
    array [[300]] is stored as it is, not as [([300], [300])]. *)
Lemma C8_counterexample :
  exists w',
    transition 0 (Some "duration") (JArr [JNum 300%float]) fresh_world
    = Some (ArgumentSaved, w')
    /\ _duration (els w' 0) = Some (JArr [JNum 300%float])
    /\ _duration (els w' 0)
       <> Some (JArr [JArr [JNum 300%float]; JArr [JNum 300%float]]).
Proof.
  eexists. split; [reflexivity |]. split; [reflexivity |].
  cbn. discriminate.
Qed.

(** ** The theorems with hypotheses, at concrete inputs *)

Lemma fresh_world_ids_bounded : ids_bounded fresh_world.
Proof.
  split.
  - intros h i H. discriminate H.
  - intros wt H. destruct H.
Defined.

Lemma C3_witness :
  (endId fresh_world < 2 ^ 53)%Z
  /\ ids_bounded fresh_world
  /\ exists w',
       whenTransitionEnd opacity_300ms 0 JUndefined
         (ResolveEnter 0 "v-enter-active" "v-enter-to") fresh_world
       = Some (tt, w')
       /\ endId w' = 1%Z.
Proof.
  assert (Hsafe : (endId fresh_world < 2 ^ 53)%Z) by reflexivity.
  split; [exact Hsafe |]. split; [exact fresh_world_ids_bounded |].
  destruct (C3_fresh_id_and_staleness opacity_300ms 0 JUndefined
              (ResolveEnter 0 "v-enter-active" "v-enter-to") fresh_world
              Hsafe fresh_world_ids_bounded)
    as (info & w' & E & Hid & _).
  exists w'. split; [exact E | exact Hid].
Defined.

Lemma C4_witness :
  ToBoolean (JNum 500%float) = true
  /\ exists info w' w0,
       transition_info
         (opacity_300ms (set__endId (els fresh_world 0) (Some 1%Z)))
       = Some info
       /\ timeout info = 300%float
       /\ propCount info = 1
       /\ whenTransitionEnd opacity_300ms 0 (JNum 500%float)
            (ResolveEnter 0 "v-enter-active" "v-enter-to") fresh_world
          = Some (tt, w')
       /\ whenTransitionEnd opacity_300ms 0 JUndefined
            (ResolveEnter 0 "v-enter-active" "v-enter-to") fresh_world
          = Some (tt, w0)
       /\ timers w0
          = [{| timer_callback := Fallback 0;
                timer_delay := JNum (timeout info + 1)%float |}]
       /\ timers w'
          = [{| timer_callback :=
                  ResolveIfNotStale 0 1
                    (ResolveEnter 0 "v-enter-active" "v-enter-to");
                timer_delay := JNum 500%float |};
             {| timer_callback := Fallback 0;
                timer_delay := JNum (timeout info + 1)%float |}].
Proof.
  assert (H : ToBoolean (JNum 500%float) = true) by reflexivity.
  split; [exact H |].
  destruct (C4_explicit_duration_adds_a_timer opacity_300ms 0
              (JNum 500%float)
              (ResolveEnter 0 "v-enter-active" "v-enter-to") fresh_world H)
    as (info & w' & w0 & Hinfo & E & E0 & Ht0 & Ht & _).
  exists info, w', w0.
  split; [exact Hinfo |].
  assert (Hi : Some info
               = Some {| timeout := 300%float; propCount := 1;
                         hasTransform := false |}).
  { rewrite <- Hinfo. vm_compute. reflexivity. }
  injection Hi as ->.
  split; [reflexivity |]. split; [reflexivity |].
  split; [exact E |]. split; [exact E0 |].
  split; [exact Ht0 | exact Ht].
Defined.

Lemma C5_witness :
  transition 0 None (JBool true) fresh_world
  = Some (EffectRegistered unmounted_controller, fresh_world)
  /\ exists ctl' w',
       visibility_effect no_digits unmounted_controller (JBool false)
         fresh_world
       = Some (ctl', w')
       /\ mounted ctl' = true
       /\ log w' = [OpSetDisplay 0 "none"].
Proof.
  assert (H : transition 0 None (JBool true) fresh_world
              = Some (EffectRegistered unmounted_controller, fresh_world))
    by reflexivity.
  split; [exact H |].
  destruct (C5_no_transition_on_mount no_digits 0 None (JBool true)
              (JBool false) fresh_world fresh_world fresh_world
              unmounted_controller H)
    as (ctl' & w' & E & Hm & _ & Hl & _).
  exists ctl', w'. split; [exact E |]. split; [exact Hm | exact Hl].
Defined.

Lemma C6_witness :
  mounted mounted_controller = true
  /\ ToBoolean (JBool false) = false
  /\ exists w',
       visibility_effect no_digits mounted_controller (JBool false)
         fresh_world
       = Some (mounted_controller, w')
       /\ log w'
          = [OpClassRemove 0 "v-enter-active"; OpClassRemove 0 "v-enter-to";
             OpClassAdd 0 "v-leave-from"; OpReflow;
             OpClassAdd 0 "v-leave-active";
             OpRequestAnimationFrame
               (SecondFrame
                  (PhaseSwap 0 "v-leave-from" "v-leave-to" JUndefined
                     (ResolveLeave 0 "v-leave-active" "v-leave-to")))].
Proof.
  assert (Hm : mounted mounted_controller = true) by reflexivity.
  assert (Hs : ToBoolean (JBool false) = false) by reflexivity.
  split; [exact Hm |]. split; [exact Hs |].
  destruct (C6_leave_order no_digits opacity_300ms mounted_controller
              (JBool false) fresh_world Hm Hs)
    as ((w' & E & Hl & _) & _).
  exists w'. split; [exact E | exact Hl].
Defined.

Lemma C7_witness :
  ["0.1s"] <> []
  /\ getTimeout ["0.1s"] ["0.2s"; "0.3s"]
     = Some (timeout_delays_cycled ["0.1s"] ["0.2s"; "0.3s"]).
Proof.
  assert (H : ["0.1s"] <> []) by discriminate.
  split; [exact H |].
  exact (C7_timeout_cycles_delays_only ["0.1s"] ["0.2s"; "0.3s"] H).
Defined.

Lemma C10_witness :
  ToBoolean (JNum 0%float) = false
  /\ whenTransitionEnd opacity_300ms 0 (JNum 0%float)
       (ResolveEnter 0 "v-enter-active" "v-enter-to") fresh_world
     = whenTransitionEnd opacity_300ms 0 JUndefined
         (ResolveEnter 0 "v-enter-active" "v-enter-to") fresh_world.
Proof.
  assert (H : ToBoolean (JNum 0%float) = false) by reflexivity.
  split; [exact H |].
  exact (proj1 (C10_falsy_duration_is_no_duration opacity_300ms 0
                  (JNum 0%float)
                  (ResolveEnter 0 "v-enter-active" "v-enter-to")
                  fresh_world H)).
Defined.

(** ** The further theorems with hypotheses, at concrete inputs *)

Lemma enter_order_witness :
  mounted mounted_controller = true
  /\ ToBoolean (JBool true) = true
  /\ exists w',
       visibility_effect no_digits mounted_controller (JBool true)
         fresh_world
       = Some (mounted_controller, w')
       /\ log w'
          = [OpClassRemove 0 "v-leave-active"; OpClassRemove 0 "v-leave-to";
             OpClassAdd 0 "v-enter-active"; OpClassAdd 0 "v-enter-from";
             OpSetDisplay 0 "";
             OpRequestAnimationFrame
               (SecondFrame
                  (PhaseSwap 0 "v-enter-from" "v-enter-to" JUndefined
                     (ResolveEnter 0 "v-enter-active" "v-enter-to")))].
Proof.
  assert (Hm : mounted mounted_controller = true) by reflexivity.
  assert (Hs : ToBoolean (JBool true) = true) by reflexivity.
  split; [exact Hm |]. split; [exact Hs |].
  destruct (enter_order no_digits opacity_300ms mounted_controller
              (JBool true) fresh_world Hm Hs)
    as ((w' & E & Hl & _) & _).
  exists w'. split; [exact E | exact Hl].
Defined.

Lemma other_arguments_bind_the_effect_witness :
  Some "fade" <> Some "name"
  /\ Some "fade" <> Some "duration"
  /\ transition 0 (Some "fade") (JBool true) fresh_world
     = Some (EffectRegistered unmounted_controller, fresh_world).
Proof.
  assert (Hn : Some "fade" <> Some "name") by discriminate.
  assert (Hd : Some "fade" <> Some "duration") by discriminate.
  split; [exact Hn |]. split; [exact Hd |].
  exact (other_arguments_bind_the_effect 0 (Some "fade") (JBool true)
           fresh_world Hn Hd).
Defined.

Lemma remove_after_add_restores_witness :
  (forall c, In c (classList (els fresh_world 0)) ->
             ~ In c (tokens "fade in"))
  /\ exists w',
       (addTransitionClass 0 "fade in" ;; removeTransitionClass 0 "fade in")
         fresh_world = Some (tt, w')
       /\ classList (els w' 0) = [].
Proof.
  assert (H : forall c, In c (classList (els fresh_world 0)) ->
                        ~ In c (tokens "fade in"))
    by (intros c []).
  split; [exact H |].
  exact (remove_after_add_restores 0 "fade in" fresh_world H).
Defined.

Lemma tokens_are_valid_witness :
  In "fade" (tokens " fade  in ")
  /\ "fade" <> EmptyString /\ no_space "fade" = true.
Proof.
  assert (H : In "fade" (tokens " fade  in ")) by (left; reflexivity).
  split; [exact H |].
  exact (tokens_are_valid " fade  in " "fade" H).
Defined.

Lemma blank_class_string_is_ignored_witness :
  all_spaces "  " = true
  /\ addTransitionClass 0 "  " fresh_world = Some (tt, fresh_world)
  /\ removeTransitionClass 0 "  " fresh_world = Some (tt, fresh_world).
Proof.
  assert (H : all_spaces "  " = true) by reflexivity.
  split; [exact H |].
  exact (blank_class_string_is_ignored 0 "  " fresh_world H).
Defined.

Lemma toMs_reads_a_comma_as_a_point_witness :
  lacks "," "1" = true /\ lacks "," "25s" = true
  /\ toMs "1,25s" = toMs "1.25s".
Proof.
  assert (Ha : lacks "," "1" = true) by reflexivity.
  assert (Hb : lacks "," "25s" = true) by reflexivity.
  split; [exact Ha |]. split; [exact Hb |].
  exact (toMs_reads_a_comma_as_a_point "1" "25s" Ha Hb).
Defined.

Lemma unset_style_means_no_transition_witness :
  unset (transitionDelay (no_transition plain_element)) = true
  /\ unset (transitionDuration (no_transition plain_element)) = true
  /\ exists info,
       transition_info (no_transition plain_element) = Some info
       /\ timeout info = 0%float /\ propCount info = 0.
Proof.
  assert (Hd : unset (transitionDelay (no_transition plain_element)) = true)
    by reflexivity.
  assert (Hu : unset (transitionDuration (no_transition plain_element))
               = true) by reflexivity.
  split; [exact Hd |]. split; [exact Hu |].
  exact (unset_style_means_no_transition (no_transition plain_element)
           Hd Hu).
Defined.

Lemma events_below_the_count_only_count_witness :
  nth_error (waits (leaving_world 0)) 0 = Some (leaving_wait 0)
  /\ onEnd 0 7 (leaving_world 0) = Some (tt, leaving_world 0)
  /\ onEnd 0 0 (leaving_world 0) = Some (tt, leaving_world 1).
Proof.
  assert (H : nth_error (waits (leaving_world 0)) 0 = Some (leaving_wait 0))
    by reflexivity.
  split; [exact H |].
  destruct (events_below_the_count_only_count 0 (leaving_wait 0) 7
              (leaving_world 0) H) as (Hother & Hcount).
  split.
  - apply Hother. discriminate.
  - apply Hcount. cbn. lia.
Defined.

Lemma the_last_event_resolves_once_witness :
  nth_error (waits (leaving_world 1)) 0 = Some (leaving_wait 1)
  /\ wait_propCount (leaving_wait 1) <= S (ended (leaving_wait 1))
  /\ _endId (els (leaving_world 1) 0) = Some 1%Z
  /\ exists v' ops,
       onEnd 0 0 (leaving_world 1) = Some (tt, v')
       /\ log v'
          = OpRemoveEventListener 0 0
            :: OpResolve (ResolveLeave 0 "v-leave-active" "v-leave-to")
            :: ops
       /\ fallback 0 v' = Some (tt, v').
Proof.
  assert (H : nth_error (waits (leaving_world 1)) 0 = Some (leaving_wait 1))
    by reflexivity.
  assert (Hc : wait_propCount (leaving_wait 1) <= S (ended (leaving_wait 1)))
    by (cbn; lia).
  assert (Hl : _endId (els (leaving_world 1) 0) = Some 1%Z) by reflexivity.
  split; [exact H |]. split; [exact Hc |]. split; [exact Hl |].
  destruct (the_last_event_resolves_once 0 (leaving_wait 1)
              (leaving_world 1) H Hc Hl)
    as (v' & ops & E & L & _ & F).
  exists v', ops. split; [exact E |]. split; [exact L | exact F].
Defined.

Lemma leaving_world_ids_bounded : ids_bounded (leaving_world 0).
Proof.
  split.
  - intros h i H. injection H as <-. cbn. lia.
  - intros wt [<- | []]. cbn. lia.
Defined.

Lemma a_new_wait_supersedes_the_earlier_ones_witness :
  (endId (leaving_world 0) < 2 ^ 53)%Z
  /\ ids_bounded (leaving_world 0)
  /\ exists w',
       whenTransitionEnd opacity_300ms 0 JUndefined
         (ResolveEnter 0 "v-enter-active" "v-enter-to") (leaving_world 0)
       = Some (tt, w')
       /\ exists v, run_timer_callback (Fallback 0) w' = Some (tt, v)
                    /\ not_resolved w' v.
Proof.
  assert (Hsafe : (endId (leaving_world 0) < 2 ^ 53)%Z) by reflexivity.
  split; [exact Hsafe |]. split; [exact leaving_world_ids_bounded |].
  destruct (a_new_wait_supersedes_the_earlier_ones opacity_300ms 0
              JUndefined (ResolveEnter 0 "v-enter-active" "v-enter-to")
              (leaving_world 0) Hsafe leaving_world_ids_bounded)
    as (w' & E & Hold & _).
  exists w'. split; [exact E |].
  destruct (Hold 0 (leaving_wait 0) eq_refl eq_refl) as (_ & Hf & _).
  exact Hf.
Defined.

Lemma nextFrame_runs_in_the_second_frame_witness :
  frames fresh_world = []
  /\ exists w1,
       (nextFrame (SecondFrame (SecondFrame (SecondFrame
          (PhaseSwap 0 "a" "b" JUndefined (ResolveEnter 0 "c" "b")))))
        ;; animation_frame opacity_300ms) fresh_world
       = Some (tt, w1)
       /\ frames w1
          = [SecondFrame (SecondFrame (SecondFrame
               (PhaseSwap 0 "a" "b" JUndefined (ResolveEnter 0 "c" "b"))))].
Proof.
  assert (H : frames fresh_world = []) by reflexivity.
  split; [exact H |].
  destruct (nextFrame_runs_in_the_second_frame opacity_300ms
              (SecondFrame (SecondFrame (SecondFrame
                 (PhaseSwap 0 "a" "b" JUndefined (ResolveEnter 0 "c" "b")))))
              fresh_world H)
    as (w1 & E & F & _).
  exists w1. split; [exact E | exact F].
Defined.

Lemma ids_stay_bounded_whatever_the_host_does_witness :
  ids_bounded fresh_world
  /\ exists w',
       run_events no_digits opacity_300ms show_then_hide fresh_world
       = Some (tt, w')
       /\ ids_bounded w' /\ (endId fresh_world <= endId w')%Z.
Proof.
  split; [exact fresh_world_ids_bounded |].
  eexists. split; [vm_compute; reflexivity |].
  eapply (ids_stay_bounded_whatever_the_host_does no_digits opacity_300ms
            show_then_hide fresh_world _ fresh_world_ids_bounded).
  vm_compute. reflexivity.
Defined.

Lemma an_uninterrupted_leave_ends_clean_witness :
  mounted mounted_controller = true
  /\ ToBoolean (JBool false) = false
  /\ (exists w',
        style_display (els w' 0) = Some "none"
        /\ forall c, In c (classList (els w' 0)) -> c = "box")
  /\ exists w',
       style_display (els w' 0) = Some "none"
       /\ In "v-enter-from" (classList (els w' 0))
       /\ forall c, In c (classList (els w' 0))
                    -> c = "box" \/ c = "v-enter-from".
Proof.
  assert (Hm : mounted mounted_controller = true) by reflexivity.
  assert (Hs : ToBoolean (JBool false) = false) by reflexivity.
  split; [exact Hm |]. split; [exact Hs |]. split.
  - destruct (an_uninterrupted_leave_ends_clean no_digits opacity_300ms
                mounted_controller (JBool false) (leaving_world 0) Hm Hs)
      as (w' & _ & Hc & _ & Hd).
    exists w'. split; [exact Hd |].
    intros c Hin. apply Hc in Hin as (Hin & _ & _ & _ & Ha & Ht).
    destruct Hin as [<- | [<- | [<- | []]]].
    + reflexivity.
    + exfalso. apply Ha. left. reflexivity.
    + exfalso. apply Ht. left. reflexivity.
  - destruct (an_uninterrupted_leave_ends_clean no_digits opacity_300ms
                mounted_controller (JBool false) (carrying "v-enter-from")
                Hm Hs)
      as (w' & _ & Hc & Hk & Hd).
    exists w'. split; [exact Hd |]. split.
    + apply Hk; [reflexivity |]. right. left. reflexivity.
    + intros c Hin. apply Hc in Hin as (Hin & _).
      destruct Hin as [<- | [<- | []]]; [left | right]; reflexivity.
Defined.

Lemma an_uninterrupted_enter_ends_clean_witness :
  mounted mounted_controller = true
  /\ ToBoolean (JBool true) = true
  /\ (exists w',
        style_display (els w' 0) = Some EmptyString
        /\ forall c, In c (classList (els w' 0)) -> c = "box")
  /\ exists w',
       style_display (els w' 0) = Some EmptyString
       /\ In "v-leave-from" (classList (els w' 0))
       /\ forall c, In c (classList (els w' 0))
                    -> c = "box" \/ c = "v-leave-from".
Proof.
  assert (Hm : mounted mounted_controller = true) by reflexivity.
  assert (Hs : ToBoolean (JBool true) = true) by reflexivity.
  split; [exact Hm |]. split; [exact Hs |]. split.
  - destruct (an_uninterrupted_enter_ends_clean no_digits opacity_300ms
                mounted_controller (JBool true) (leaving_world 0) Hm Hs)
      as (w' & _ & Hc & _ & Hd).
    exists w'. split; [exact Hd |].
    intros c Hin. apply Hc in Hin as (Hin & Ha & Ht & _).
    destruct Hin as [<- | [<- | [<- | []]]].
    + reflexivity.
    + exfalso. apply Ha. left. reflexivity.
    + exfalso. apply Ht. left. reflexivity.
  - destruct (an_uninterrupted_enter_ends_clean no_digits opacity_300ms
                mounted_controller (JBool true) (carrying "v-leave-from")
                Hm Hs)
      as (w' & _ & Hc & Hk & Hd).
    exists w'. split; [exact Hd |]. split.
    + apply Hk; [reflexivity |]. right. left. reflexivity.
    + intros c Hin. apply Hc in Hin as (Hin & _).
      destruct Hin as [<- | [<- | []]]; [left | right]; reflexivity.
Defined.

Lemma binding_touches_only_its_element_witness :
  own_closures fresh_world = true
  /\ (exists w',
        run_events no_digits opacity_300ms show_then_hide fresh_world
        = Some (tt, w')
        /\ own_closures w' = true)
  /\ nth_error (waits (leaving_world 0)) 0 = Some (leaving_wait 0)
  /\ exists v',
       run_timer_callback (Fallback 0) (leaving_world 0) = Some (tt, v')
       /\ style_display (els v' 0) = Some "none"
       /\ els v' 1 = els (leaving_world 0) 1.
Proof.
  assert (Ho : own_closures fresh_world = true) by reflexivity.
  assert (Hnth : nth_error (waits (leaving_world 0)) 0
                 = Some (leaving_wait 0)) by reflexivity.
  destruct (binding_touches_only_its_element no_digits opacity_300ms
              mounted_controller (JBool false))
    as (_ & _ & _ & _ & Hfallback & _ & _ & _ & _ & Hevents & _).
  split; [exact Ho |]. split; [| split; [exact Hnth |]].
  - destruct (run_events no_digits opacity_300ms show_then_hide fresh_world)
      as [[[] w'] |] eqn:E; [| vm_compute in E; discriminate E].
    exists w'. split; [reflexivity |].
    exact (Hevents show_then_hide fresh_world w' Ho E).
  - destruct (run_timer_callback (Fallback 0) (leaving_world 0))
      as [[[] v'] |] eqn:E; [| vm_compute in E; discriminate E].
    exists v'. split; [reflexivity |]. split.
    + vm_compute in E. injection E as <-. reflexivity.
    + apply (Hfallback 0 (leaving_wait 0) (leaving_world 0) v' Hnth
               eq_refl E).
      discriminate.
Defined.
